(** * Token-budgeted context assembly: estimator, allocator, truncator, store

    A shallow embedding of the Go packages

      - [components/content/token]      (token counter, budget, budget
                                         manager),
      - [components/content/managers]   (file-backed content managers: base,
                                         index, worldview, character, plans),
      - [components/content]            (the context builder),
      - [components/content/generators] (the token-aware generator),

    followed by the properties proved about them.

    Conventions of the embedding.

    - A Go [string] holding text is modelled by the sequence of its code
      points ([gostring := list rune], [rune := Z]), that is by [[]rune(s)].
      On valid UTF-8 the two views are in bijection and every string
      operation used here ([strings.Fields], [strings.Split] on a newline,
      [strings.Join], [strings.TrimSpace], [range], [[]rune] conversion,
      [utf8.RuneCountInString]) acts on whole code points.  Literals are
      written as UTF-8 byte strings and decoded by [runes].
    - Map keys (component names such as "plan") are plain [string]s.
    - Go's [int] is modelled by [Z].  Every integer computed here is bounded
      by the length of a text or by a token total, so no [int64] wrap-around
      is reachable on inputs that fit in memory.
    - [float64] in the allocator and in the validation of the percentages,
      where the weights are arbitrary [float64] values, is IEEE binary64:
      Rocq's primitive floats, with the conversions of module [Binary64].
      In the token counter the floating-point operations are applied to
      small integers and to the constants 1.5, 0.75, 0.5 and 0.7 only; there
      [float64] is read as exact rationals [Q], and module [Binary64]
      replays the same expressions in binary64, which gives the same
      integers.  Each operation is rounded on its own and [int(x)] of a NaN
      or of a number out of range is the smallest [int64], as on amd64.
    - [time.Time] is modelled by [Z] (an instant); [After] is [<].
    - JSON encoding and decoding, directory listings and the clock are
      parameters of the methods that use them; a run-time panic is the
      result [None]. *)

From Stdlib Require Import ZArith List String Ascii QArith Qround Qabs Qpower
  Lia Lqa Bool.
From Stdlib Require Import PrimFloat FloatOps SpecFloat FloatAxioms Uint63.
From stdpp Require Import base gmap strings.
Import ListNotations.

Local Open Scope Z_scope.
#[local] Set Warnings "-inexact-float".

(** ** Go strings as sequences of code points *)

Definition rune := Z.
Definition gostring := list rune.

Module utf8.

(** [utf8.RuneError]. *)
Definition RuneError : rune := 0xFFFD.

Definition inRange (lo hi b : Z) : bool := (lo <=? b) && (b <=? hi).

(** Continuation payload of a byte. *)
Definition low6 (b : Z) : Z := Z.land b 0x3F.

(** [[]rune(s)] on the bytes of [s]: Go's decoder, which yields [RuneError]
    and advances one byte on every ill-formed sequence (the accept ranges
    are those of [unicode/utf8]). *)
Fixpoint decode (bs : list Z) : list rune :=
  match bs with
  | [] => []
  | b0 :: rest =>
      if b0 <? 0x80 then b0 :: decode rest
      else if inRange 0xC2 0xDF b0 then
        match rest with
        | b1 :: r1 =>
            if inRange 0x80 0xBF b1
            then (Z.shiftl (Z.land b0 0x1F) 6 + low6 b1) :: decode r1
            else RuneError :: decode rest
        | _ => RuneError :: decode rest
        end
      else if inRange 0xE0 0xEF b0 then
        let lo := if b0 =? 0xE0 then 0xA0 else 0x80 in
        let hi := if b0 =? 0xED then 0x9F else 0xBF in
        match rest with
        | b1 :: (b2 :: r2) as r1 =>
            if inRange lo hi b1 && inRange 0x80 0xBF b2
            then (Z.shiftl (Z.land b0 0x0F) 12 + Z.shiftl (low6 b1) 6 + low6 b2)
                   :: decode r2
            else RuneError :: decode rest
        | _ => RuneError :: decode rest
        end
      else if inRange 0xF0 0xF4 b0 then
        let lo := if b0 =? 0xF0 then 0x90 else 0x80 in
        let hi := if b0 =? 0xF4 then 0x8F else 0xBF in
        match rest with
        | b1 :: (b2 :: (b3 :: r3) as r2) as r1 =>
            if inRange lo hi b1 && inRange 0x80 0xBF b2 && inRange 0x80 0xBF b3
            then (Z.shiftl (Z.land b0 0x07) 18 + Z.shiftl (low6 b1) 12
                  + Z.shiftl (low6 b2) 6 + low6 b3) :: decode r3
            else RuneError :: decode rest
        | _ => RuneError :: decode rest
        end
      else RuneError :: decode rest
  end.

(** [utf8.RuneCountInString]. *)
Definition RuneCountInString (s : gostring) : Z := Z.of_nat (length s).

(** [utf8.RuneLen] on a code point that can be encoded. *)
Definition RuneLen (r : rune) : Z :=
  if r <? 0x80 then 1
  else if r <? 0x800 then 2
  else if r <? 0x10000 then 3
  else 4.

End utf8.

(** The code points of a literal written as a UTF-8 byte string. *)
Definition runes (s : string) : gostring :=
  utf8.decode (map (fun a => Z.of_N (N_of_ascii a)) (list_ascii_of_string s)).

Definition isEmpty (s : gostring) : bool :=
  match s with [] => true | _ => false end.

(** [len(s)]: the number of bytes of [s], for a string that is valid
    UTF-8. *)
Definition len (s : gostring) : Z :=
  fold_right (fun r n => utf8.RuneLen r + n) 0 s.

(** [a == b] on strings. *)
Definition eqString (a b : gostring) : bool := bool_decide (a = b).

(** [s[start:]] on a slice: the run-time panics unless
    [0 <= start <= len(s)]; [None] is the panic. *)
Definition sliceFrom {A} (s : list A) (start : Z) : option (list A) :=
  if (0 <=? start) && (start <=? Z.of_nat (length s))
  then Some (skipn (Z.to_nat start) s)
  else None.

(** ** The standard library functions the code calls *)

Module unicode.

(** [unicode.IsSpace]: the Latin-1 cases spelled out in Go's source, and the
    [White_Space] property above Latin-1. *)
Definition IsSpace (r : rune) : bool :=
  if r <=? 0xFF then
    utf8.inRange 0x09 0x0D r || (r =? 0x20) || (r =? 0x85) || (r =? 0xA0)
  else
    (r =? 0x1680) || utf8.inRange 0x2000 0x200A r || (r =? 0x2028)
    || (r =? 0x2029) || (r =? 0x202F) || (r =? 0x205F) || (r =? 0x3000).

(** [unicode.IsDigit] (category Nd) and [unicode.IsPunct] (category P) are
    range tables of the Go distribution.  The general theorems hold for any
    pair of tables; the concrete scenarios use [Latin1], which agrees with
    Go's tables on U+0000..U+00FF and on the CJK ideographs (no ideograph is
    a digit or a punctuation mark), the only code points those scenarios
    contain. *)
Class Tables := {
  IsDigit : rune -> bool;
  IsPunct : rune -> bool;
}.

(** Latin-1 punctuation: the entries of Go's [properties] array carrying
    the [pP] flag. *)
Definition latin1Punct : list rune :=
  [0x21; 0x22; 0x23; 0x25; 0x26; 0x27; 0x28; 0x29; 0x2A; 0x2C; 0x2D; 0x2E;
   0x2F; 0x3A; 0x3B; 0x3F; 0x40; 0x5B; 0x5C; 0x5D; 0x5F; 0x7B; 0x7D;
   0xA1; 0xA7; 0xAB; 0xB6; 0xB7; 0xBB; 0xBF].

#[global] Instance Latin1 : Tables := {|
  IsDigit r := utf8.inRange 0x30 0x39 r;
  IsPunct r := existsb (Z.eqb r) latin1Punct;
|}.

End unicode.

Module strings.

(** A finished word is emitted only when it is not empty. *)
Definition emit (word : gostring) : list gostring :=
  match word with [] => [] | _ => [word] end.

(** [strings.Fields] scanning [s] with the word [word] in progress. *)
Fixpoint fieldsFrom (word s : gostring) : list gostring :=
  match s with
  | [] => emit word
  | r :: s' =>
      if unicode.IsSpace r then emit word ++ fieldsFrom [] s'
      else fieldsFrom (word ++ [r]) s'
  end.

(** [strings.Fields(s)]: the maximal runs of non-space code points. *)
Definition Fields (s : gostring) : list gostring := fieldsFrom [] s.

(** [strings.Split(s, sep)] for a one-code-point separator, scanning [s]
    with the piece [piece] in progress.  The result is never empty. *)
Fixpoint splitFrom (sep : rune) (piece s : gostring) : list gostring :=
  match s with
  | [] => [piece]
  | r :: s' =>
      if r =? sep then piece :: splitFrom sep [] s'
      else splitFrom sep (piece ++ [r]) s'
  end.

Definition Split (s : gostring) (sep : rune) : list gostring :=
  splitFrom sep [] s.

(** [strings.Join(elems, sep)]. *)
Fixpoint Join (elems : list gostring) (sep : gostring) : gostring :=
  match elems with
  | [] => []
  | [e] => e
  | e :: rest => e ++ sep ++ Join rest sep
  end.

(** [strings.TrimSpace]. *)
Fixpoint trimLeft (s : gostring) : gostring :=
  match s with
  | r :: s' => if unicode.IsSpace r then trimLeft s' else s
  | [] => []
  end.

Definition TrimSpace (s : gostring) : gostring :=
  rev (trimLeft (rev (trimLeft s))).

(** [strings.HasPrefix]. *)
Fixpoint HasPrefix (s prefix : gostring) : bool :=
  match prefix, s with
  | [], _ => true
  | p :: prefix', r :: s' => (r =? p) && HasPrefix s' prefix'
  | _ :: _, [] => false
  end.

(** [strings.TrimPrefix]. *)
Definition TrimPrefix (s prefix : gostring) : gostring :=
  if HasPrefix s prefix then skipn (length prefix) s else s.

End strings.

Module strconv.

(** The decimal digits of [n >= 0] before [acc], most significant first;
    [fuel] bounds the number of digits after the first. *)
Fixpoint digits (fuel : nat) (n : Z) (acc : gostring) : gostring :=
  let acc := (0x30 + n mod 10) :: acc in
  match fuel with
  | O => acc
  | S fuel' => if n <? 10 then acc else digits fuel' (n / 10) acc
  end.

(** [strconv.Itoa], which is also what the verb [%d] prints. *)
Definition Itoa (n : Z) : gostring :=
  if n <? 0 then 0x2D :: digits (Z.to_nat (Z.log2 (- n))) (- n) []
  else digits (Z.to_nat (Z.log2 n)) n [].

End strconv.

(** The newline and the space, as the separators the code passes. *)
Definition nl : rune := 0x0A.
Definition sp : rune := 0x20.

(** ** Exact reading of [float64] in the token counter *)

(** [int(x)] for a [float64] [x]: truncation toward zero. *)
Definition Qtrunc (x : Q) : Z := Z.quot (Qnum x) (Zpos (Qden x)).

(** [a > b] on [float64]. *)
Definition Qgtb (a b : Q) : bool := negb (Qle_bool a b).

(** ** IEEE binary64

    Rocq's primitive floats are binary64 with round-to-nearest-even, as Go's
    [float64].  This module holds the two conversions between [int] and
    [float64], and the expressions in which the token counter uses
    [float64], to replay them bit for bit next to their exact reading. *)

Module Binary64.

Definition minInt64 : Z := - 2 ^ 63.

(** [float64(n)] for an [int] [n]. *)
Definition ofInt (n : Z) : float :=
  if 0 <=? n then PrimFloat.of_uint63 (Uint63.of_Z n)
  else PrimFloat.opp (PrimFloat.of_uint63 (Uint63.of_Z (- n))).

(** [int(x)]: truncation toward zero; what is not representable converts to
    the smallest [int64], as on amd64. *)
Definition toInt (x : float) : Z :=
  match Prim2SF x with
  | S754_zero _ => 0
  | S754_finite s m e =>
      let v := if 0 <=? e then Zpos m * 2 ^ e
               else Z.quot (Zpos m) (2 ^ (- e)) in
      let v := if s then - v else v in
      if (minInt64 <=? v) && (v <? 2 ^ 63) then v else minInt64
  | _ => minInt64
  end.

(** [int(float64(n) * ratio)], as in [Count]. *)
Definition scaled (n : Z) (ratio : float) : Z :=
  toInt (ofInt n * ratio)%float.

(** [int(float64(n) / divisor)], as in [EstimateTokens]. *)
Definition divided (n : Z) (divisor : float) : Z :=
  toInt (ofInt n / divisor)%float.

(** [float64(count)/float64(total) > threshold], as in [isChineseWord] and
    [isNumberWord]. *)
Definition shareAbove (count total : Z) (threshold : float) : bool :=
  PrimFloat.ltb threshold (ofInt count / ofInt total)%float.

End Binary64.

(** ** Package [token]: the token counter (token/counter.go) *)

Module token.

(** The [TokenCounter] interface: an interface value is its method table. *)
Record TokenCounter := {
  Count : gostring -> Z;
  CountRunes : gostring -> Z;
  EstimateTokens : gostring -> Z;
}.

Record SimpleTokenCounter := {
  chineseToTokenRatio : Q;
  englishToTokenRatio : Q;
}.

Definition NewSimpleTokenCounter : SimpleTokenCounter :=
  {| chineseToTokenRatio := 15 # 10; englishToTokenRatio := 75 # 100 |}.

(** [isChinese]: the CJK unified ideographs and their extensions A to F. *)
Definition isChinese (r : rune) : bool :=
  utf8.inRange 0x4e00 0x9fff r || utf8.inRange 0x3400 0x4dbf r
  || utf8.inRange 0x20000 0x2a6df r || utf8.inRange 0x2a700 0x2b73f r
  || utf8.inRange 0x2b740 0x2b81f r || utf8.inRange 0x2b820 0x2ceaf r
  || utf8.inRange 0x2ceb0 0x2ebef r.

(** The [for _, r := range word { if p(r) { n++ } }] loops. *)
Definition countIf (p : rune -> bool) (word : gostring) : Z :=
  fold_left (fun n r => if p r then n + 1 else n) word 0.

(** [isChineseWord]: more than half of the code points are ideographs. *)
Definition isChineseWord (word : gostring) : bool :=
  let chineseCount := countIf isChinese word in
  let totalCount := utf8.RuneCountInString word in
  Qgtb (inject_Z chineseCount / inject_Z totalCount) (5 # 10).

(** [isNumberWord]: more than 70% of the code points are digits. *)
Definition isNumberWord `{unicode.Tables} (word : gostring) : bool :=
  let digitCount := countIf unicode.IsDigit word in
  let totalCount := utf8.RuneCountInString word in
  Qgtb (inject_Z digitCount / inject_Z totalCount) (7 # 10).

(** The four counters of [Count]. *)
Record tally := {
  chineseChars : Z;
  englishWords : Z;
  numbers : Z;
  punctuation : Z;
}.

Definition tally0 : tally :=
  {| chineseChars := 0; englishWords := 0; numbers := 0; punctuation := 0 |}.

(** One iteration of the loop over the words. *)
Definition countWord `{unicode.Tables} (t : tally) (word : gostring) : tally :=
  if isChineseWord word then
    {| chineseChars := chineseChars t + utf8.RuneCountInString word;
       englishWords := englishWords t;
       numbers := numbers t;
       punctuation := punctuation t |}
  else if isNumberWord word then
    {| chineseChars := chineseChars t;
       englishWords := englishWords t;
       numbers := numbers t + 1;
       punctuation := punctuation t |}
  else
    {| chineseChars := chineseChars t;
       englishWords := englishWords t + 1;
       numbers := numbers t;
       punctuation :=
         fold_left (fun n r => if unicode.IsPunct r then n + 1 else n)
                   word (punctuation t) |}.

(** The closing formula of [Count]: each term is truncated on its own. *)
Definition tokensOf (c : SimpleTokenCounter) (t : tally) : Z :=
  Qtrunc (inject_Z (chineseChars t) * chineseToTokenRatio c)
  + Qtrunc (inject_Z (englishWords t) * englishToTokenRatio c)
  + Z.quot (numbers t) 2
  + Z.quot (punctuation t) 3.

(** [SimpleTokenCounter.Count]. *)
Definition SimpleCount `{unicode.Tables} (c : SimpleTokenCounter)
    (text : gostring) : Z :=
  if isEmpty text then 0
  else tokensOf c (fold_left countWord (strings.Fields text) tally0).

(** [SimpleTokenCounter.CountRunes]. *)
Definition SimpleCountRunes (c : SimpleTokenCounter) (text : gostring) : Z :=
  utf8.RuneCountInString text.

(** [SimpleTokenCounter.EstimateTokens]: code points divided by 1.2. *)
Definition SimpleEstimateTokens (c : SimpleTokenCounter)
    (text : gostring) : Z :=
  if isEmpty text then 0
  else Qtrunc (inject_Z (utf8.RuneCountInString text) / (12 # 10)).

(** [*SimpleTokenCounter] as a [TokenCounter]. *)
Definition asTokenCounter `{unicode.Tables} (c : SimpleTokenCounter)
    : TokenCounter :=
  {| Count := SimpleCount c;
     CountRunes := SimpleCountRunes c;
     EstimateTokens := SimpleEstimateTokens c |}.

(** ** The budget (token/counter.go, [TokenBudget]) *)

Record TokenBudget := {
  Total : Z;
  Used : Z;
  Remaining : Z;
  Percentages : gmap string float;
}.

Definition NewTokenBudget (total : Z) (percentages : gmap string float)
    : TokenBudget :=
  {| Total := total; Used := 0; Remaining := total;
     Percentages := percentages |}.

(** [int(float64(tb.Total)*percentage + 0.999)], in binary64. *)
Definition roundedShare (total : Z) (percentage : float) : Z :=
  Binary64.toInt (Binary64.ofInt total * percentage + 0.999)%float.

(** Body of the first loop: store the share, add it to the running sum. *)
Definition allocateStep (total : Z) (component : string) (percentage : float)
    (acc : gmap string Z * Z) : gmap string Z * Z :=
  let tokens := roundedShare total percentage in
  (<[component := tokens]> (fst acc), snd acc + tokens).

(** Body of the second loop: rescale the entry of [component] in place and
    raise it to 1 when it fell below. *)
Definition adjustStep (ratio : float) (component : string) (_ : Z)
    (allocation : gmap string Z) : gmap string Z :=
  let adjusted :=
    Binary64.toInt (Binary64.ofInt (allocation !!! component) * ratio)%float in
  let adjusted := if adjusted <? 1 then 1 else adjusted in
  <[component := adjusted]> allocation.

(** [TokenBudget.AllocateTokens].  Go ranges over a map in an unspecified
    order; [map_fold] fixes one, and the result does not depend on it. *)
Definition AllocateTokens (tb : TokenBudget) : gmap string Z :=
  let '(allocation, totalAllocated) :=
    map_fold (allocateStep (Total tb)) (∅, 0) (Percentages tb) in
  if totalAllocated >? Total tb then
    let ratio :=
      (Binary64.ofInt (Total tb) / Binary64.ofInt totalAllocated)%float in
    map_fold (adjustStep ratio) allocation allocation
  else allocation.

(** [TokenBudget.UseTokens]: whether the tokens were granted, and the budget
    afterwards. *)
Definition UseTokens (tb : TokenBudget) (count : Z) : bool * TokenBudget :=
  if count <=? Remaining tb then
    (true, {| Total := Total tb; Used := Used tb + count;
              Remaining := Remaining tb - count;
              Percentages := Percentages tb |})
  else (false, tb).

(** [TokenBudget.GetUsageInfo]: used, remaining, total. *)
Definition GetUsageInfo (tb : TokenBudget) : Z * Z * Z :=
  (Used tb, Remaining tb, Total tb).

(** ** The budget manager (token/budget.go) *)

Record TokenPercentages := {
  Plan : float;
  Character : float;
  Worldview : float;
  Chapters : float;
  Index : float;
}.

Definition DefaultTokenPercentages : TokenPercentages :=
  {| Plan := 0.15; Character := 0.10; Worldview := 0.10;
     Chapters := 0.60; Index := 0.05 |}.

Inductive error :=
  | ErrPercentageSum (total : float)   (* "token percentages sum to ..." *)
  | ErrNegativePercentage          (* "all token percentages must be non-negative" *)
  | ErrMaxTokens.                  (* "maxTokens must be positive" *)

(** [TokenPercentages.Validate], in binary64; [None] is the [nil] error.
    A comparison with a NaN is false, so it passes both tests. *)
Definition Validate (tp : TokenPercentages) : option error :=
  let total := (Plan tp + Character tp + Worldview tp + Chapters tp
                + Index tp)%float in
  if (0.01 <? abs (total - 1.0))%float then Some (ErrPercentageSum total)
  else if (Plan tp <? 0)%float || (Character tp <? 0)%float
          || (Worldview tp <? 0)%float || (Chapters tp <? 0)%float
          || (Index tp <? 0)%float
  then Some ErrNegativePercentage
  else None.

(** [TokenPercentages.ToMap]. *)
Definition ToMap (tp : TokenPercentages) : gmap string float :=
  <["plan" := Plan tp]> (<["character" := Character tp]>
  (<["worldview" := Worldview tp]> (<["chapters" := Chapters tp]>
  (<["index" := Index tp]> ∅)))).

Record TokenBudgetManager := {
  maxTokens : Z;
  percentages : TokenPercentages;
  counter : TokenCounter;
  budget : TokenBudget;
}.

(** [NewTokenBudgetManager]; a [nil] [percentages] is [None]. *)
Definition NewTokenBudgetManager `{unicode.Tables} (maxTokens : Z)
    (percentages : option TokenPercentages) : error + TokenBudgetManager :=
  if maxTokens <=? 0 then inl ErrMaxTokens
  else
    let percentages := default DefaultTokenPercentages percentages in
    match Validate percentages with
    | Some err => inl err
    | None =>
        inr {| maxTokens := maxTokens;
               percentages := percentages;
               counter := asTokenCounter NewSimpleTokenCounter;
               budget := NewTokenBudget maxTokens (ToMap percentages) |}
    end.

(** [UpdatePercentages]: the error and the manager afterwards. *)
Definition UpdatePercentages (tbm : TokenBudgetManager)
    (newPercentages : TokenPercentages) : option error * TokenBudgetManager :=
  match Validate newPercentages with
  | Some err => (Some err, tbm)
  | None =>
      (None, {| maxTokens := maxTokens tbm;
                percentages := newPercentages;
                counter := counter tbm;
                budget := NewTokenBudget (maxTokens tbm)
                                         (ToMap newPercentages) |})
  end.

Definition GetAllocatedTokens (tbm : TokenBudgetManager) : gmap string Z :=
  AllocateTokens (budget tbm).

(** [GetTokenAllocation]: 0 for a component the allocation does not hold. *)
Definition GetTokenAllocation (tbm : TokenBudgetManager)
    (component : string) : Z :=
  match GetAllocatedTokens tbm !! component with
  | Some tokens => tokens
  | None => 0
  end.

(** The loop of [truncateLineByTokens] over the remaining words, with the
    words kept so far and their summed counts. *)
Fixpoint wordLoop (c : TokenCounter) (maxTokens : Z) (words : list gostring)
    (result : list gostring) (totalTokens : Z) : list gostring :=
  match words with
  | [] => result
  | word :: rest =>
      let wordTokens := Count c word in
      if totalTokens + wordTokens >? maxTokens then result
      else wordLoop c maxTokens rest (result ++ [word])
                    (totalTokens + wordTokens)
  end.

(** [TokenBudgetManager.truncateLineByTokens]. *)
Definition truncateLineByTokens (c : TokenCounter) (line : gostring)
    (maxTokens : Z) : gostring :=
  if maxTokens <=? 0 then []
  else strings.Join (wordLoop c maxTokens (strings.Fields line) [] 0) [sp].

(** The loop of [truncateText] over the remaining lines; the [break] ends
    the recursion. *)
Fixpoint lineLoop (c : TokenCounter) (maxTokens : Z) (lines : list gostring)
    (result : list gostring) (totalTokens : Z) : list gostring * Z :=
  match lines with
  | [] => (result, totalTokens)
  | line :: rest =>
      let lineTokens := Count c line in
      if totalTokens + lineTokens >? maxTokens then
        if totalTokens <? maxTokens then
          let remainingTokens := maxTokens - totalTokens in
          let truncatedLine := truncateLineByTokens c line remainingTokens in
          if negb (isEmpty truncatedLine) then
            (result ++ [truncatedLine], totalTokens + Count c truncatedLine)
          else (result, totalTokens)
        else (result, totalTokens)
      else lineLoop c maxTokens rest (result ++ [line])
                    (totalTokens + lineTokens)
  end.

(** [TokenBudgetManager.truncateText]. *)
Definition truncateText (c : TokenCounter) (text : gostring)
    (maxTokens : Z) : gostring * Z :=
  let '(result, totalTokens) :=
    lineLoop c maxTokens (strings.Split text nl) [] 0 in
  (strings.Join result [nl], totalTokens).

(** [TruncateToTokenLimit] once the component's ceiling [maxTokens] has
    been looked up. *)
Definition truncateToCeiling (c : TokenCounter) (text : gostring)
    (maxTokens : Z) : gostring * Z :=
  if maxTokens <=? 0 then ([], 0)
  else
    let currentTokens := Count c text in
    if currentTokens <=? maxTokens then (text, currentTokens)
    else truncateText c text maxTokens.

(** [TokenBudgetManager.TruncateToTokenLimit]. *)
Definition TruncateToTokenLimit (tbm : TokenBudgetManager) (text : gostring)
    (component : string) : gostring * Z :=
  if isEmpty text then ([], 0)
  else truncateToCeiling (counter tbm) text
                         (GetTokenAllocation tbm component).

(** The entries of the map [GetUsageStats] returns. *)
Record UsageStats := {
  statTotal : Z;
  statUsed : Z;
  statRemaining : Z;
  statAllocation : gmap string Z;
  statPercentages : TokenPercentages;
}.

(** [TokenBudgetManager.GetUsageStats]. *)
Definition GetUsageStats (tbm : TokenBudgetManager) : UsageStats :=
  let '(used, remaining, total) := GetUsageInfo (budget tbm) in
  {| statTotal := total; statUsed := used; statRemaining := remaining;
     statAllocation := GetAllocatedTokens tbm;
     statPercentages := percentages tbm |}.

(** [TokenBudgetManager.CountTokens]. *)
Definition CountTokens (tbm : TokenBudgetManager) (text : gostring) : Z :=
  Count (counter tbm) text.

(** The error of [ValidateContent]: "token count %d exceeds limit %d". *)
Inductive limitError :=
  | ErrTokenCount (actualTokens maxTokens : Z).

(** Body of the loop of [ValidateContent]; once an error has been returned
    the remaining entries are not looked at. *)
Definition validateStep (c : TokenCounter) (allocation : gmap string Z)
    (component : string) (text : gostring) (returned : option limitError)
    : option limitError :=
  match returned with
  | Some err => Some err
  | None =>
      match allocation !! component with
      | Some maxTokens =>
          let actualTokens := Count c text in
          if actualTokens >? maxTokens
          then Some (ErrTokenCount actualTokens maxTokens)
          else None
      | None => None
      end
  end.

(** [TokenBudgetManager.ValidateContent]; [None] is the [nil] error.  Go
    ranges over [content] in an unspecified order, [map_fold] fixes one:
    which of several offending entries is reported depends on it, whether
    one is reported does not. *)
Definition ValidateContent (tbm : TokenBudgetManager)
    (content : gmap string gostring) : option limitError :=
  map_fold (validateStep (counter tbm) (GetAllocatedTokens tbm)) None content.

End token.

(** ** Package [managers]: file-backed content (managers/base.go) *)

Module managers.

(** *** The backing location of one manager

    A manager touches a single path.  [Storage] is the state of that path:
    the blob (when [os.Stat] finds one) with its modification time, and the
    outcome the operating system will give to each kind of call. *)
Record File := {
  data : gostring;
  modTime : Z;
}.

Record Storage := {
  file : option File;
  dirOk : bool;        (* os.MkdirAll on the parent directory succeeds *)
  readable : bool;     (* os.ReadFile succeeds on an existing file *)
  writable : bool;     (* os.WriteFile succeeds *)
  clock : Z;           (* the modification time a write stamps *)
}.

Record BaseFileManager := {
  filePath : string;
  current : gostring;
  lastModTime : Z;
  tokenCounter : token.TokenCounter;
  tokenBudget : option token.TokenBudgetManager;
}.

(** What a method does, in order: calls to the operating system and
    assignments to the cached fields. *)
Inductive event :=
  | EvMkdirAll (ok : bool)
  | EvWriteFile (content : gostring) (ok : bool)
  | EvReadFile (ok : bool)
  | EvStat (found : bool)
  | EvSetCurrent (content : gostring)
  | EvSetLastModTime (t : Z).

Record St := {
  mgr : BaseFileManager;
  disk : Storage;
  trace : list event;
}.

(** Methods are state transformers over the receiver, its backing location
    and the trace. *)
Definition M (A : Type) : Type := St -> A * St.

Definition ret {A} (a : A) : M A := fun s => (a, s).

Definition bind {A B} (m : M A) (k : A -> M B) : M B :=
  fun s => let '(a, s') := m s in k a s'.

Notation "x <- m ;; k" := (bind m (fun x => k))
  (at level 100, m at next level, right associativity).
Notation "m ;;; k" := (bind m (fun _ => k))
  (at level 100, right associativity).

Definition get : M BaseFileManager := fun s => (mgr s, s).

Definition log (e : event) : M unit :=
  fun s => (tt, {| mgr := mgr s; disk := disk s; trace := trace s ++ [e] |}).

Definition setDisk (d : Storage) : M unit :=
  fun s => (tt, {| mgr := mgr s; disk := d; trace := trace s |}).

Definition setMgr (b : BaseFileManager) : M unit :=
  fun s => (tt, {| mgr := b; disk := disk s; trace := trace s |}).

(** [os.Stat]: the modification time, or [None] for an error. *)
Definition os_Stat : M (option Z) :=
  fun s =>
    let r := option_map modTime (file (disk s)) in
    (log (EvStat (bool_decide (is_Some r))) ;;; ret r) s.

(** [os.ReadFile]. *)
Definition os_ReadFile : M (option gostring) :=
  fun s =>
    let r := if readable (disk s) then option_map data (file (disk s))
             else None in
    (log (EvReadFile (bool_decide (is_Some r))) ;;; ret r) s.

(** [os.MkdirAll] on the parent directory. *)
Definition os_MkdirAll : M bool :=
  fun s => (log (EvMkdirAll (dirOk (disk s))) ;;; ret (dirOk (disk s))) s.

(** [os.WriteFile]: on success the blob holds [content], stamped with the
    clock.  The failure modelled is the one met when the file is opened (a
    missing directory, a permission), before anything is written; a write
    that fails midway, which can leave a truncated file, is not modelled. *)
Definition os_WriteFile (content : gostring) : M bool :=
  fun s =>
    let d := disk s in
    if writable d then
      (log (EvWriteFile content true) ;;;
       setDisk {| file := Some {| data := content; modTime := clock d |};
                  dirOk := dirOk d; readable := readable d;
                  writable := writable d; clock := clock d |} ;;;
       ret true) s
    else (log (EvWriteFile content false) ;;; ret false) s.

(** [bfm.current = content]. *)
Definition setCurrent (content : gostring) : M unit :=
  b <- get ;;
  setMgr {| filePath := filePath b; current := content;
            lastModTime := lastModTime b; tokenCounter := tokenCounter b;
            tokenBudget := tokenBudget b |} ;;;
  log (EvSetCurrent content).

(** [bfm.lastModTime = t]. *)
Definition setLastModTime (t : Z) : M unit :=
  b <- get ;;
  setMgr {| filePath := filePath b; current := current b;
            lastModTime := t; tokenCounter := tokenCounter b;
            tokenBudget := tokenBudget b |} ;;;
  log (EvSetLastModTime t).

Inductive error :=
  | FileNotFoundError (path : string)
  | FileReadError (path : string)
  | FileWriteError (path : string).   (* "failed to write file ..." *)

(** The zero [time.Time]; instants are counted from it. *)
Definition zeroTime : Z := 0.

(** [NewBaseFileManager] (its [os.MkdirAll] is best effort and its error is
    dropped, so only the receiver is built here). *)
Definition NewBaseFileManager `{unicode.Tables} (filePath : string)
    : BaseFileManager :=
  {| filePath := filePath; current := []; lastModTime := zeroTime;
     tokenCounter := token.asTokenCounter token.NewSimpleTokenCounter;
     tokenBudget := None |}.

(** [Exists]. *)
Definition Exists : M bool :=
  r <- os_Stat ;; ret (bool_decide (is_Some r)).

(** [if stat, err := os.Stat(path); err == nil { lastModTime = ModTime }]. *)
Definition refreshModTime : M unit :=
  st <- os_Stat ;;
  match st with
  | Some t => setLastModTime t
  | None => ret tt
  end.

(** [Load]: the content read and the error ([None] is [nil]). *)
Definition Load : M (gostring * option error) :=
  ex <- Exists ;;
  b <- get ;;
  if negb ex then ret ([], Some (FileNotFoundError (filePath b)))
  else
    r <- os_ReadFile ;;
    match r with
    | None => ret ([], Some (FileReadError (filePath b)))
    | Some bytes =>
        let content := strings.TrimSpace bytes in
        setCurrent content ;;;
        refreshModTime ;;;
        ret (content, None)
    end.

(** [Save]. *)
Definition Save (content : gostring) : M (option error) :=
  b <- get ;;
  okDir <- os_MkdirAll ;;
  if negb okDir then ret (Some (FileWriteError (filePath b)))
  else
    okWrite <- os_WriteFile content ;;
    if negb okWrite then ret (Some (FileWriteError (filePath b)))
    else
      setCurrent content ;;;
      refreshModTime ;;;
      ret None.

(** [GetModTime]. *)
Definition GetModTime : M (Z * option error) :=
  st <- os_Stat ;;
  b <- get ;;
  match st with
  | None => ret (zeroTime, Some (FileNotFoundError (filePath b)))
  | Some t => ret (t, None)
  end.

(** [IsModified]. *)
Definition IsModified : M bool :=
  r <- GetModTime ;;
  b <- get ;;
  match snd r with
  | Some _ => ret false
  | None => ret (lastModTime b <? fst r)
  end.

(** [GetCurrent]. *)
Definition GetCurrent : M gostring :=
  modified <- IsModified ;;
  b <- get ;;
  if modified || isEmpty (current b) then
    r <- Load ;;
    match snd r with
    | None => ret (fst r)
    | Some _ => b' <- get ;; ret (current b')
    end
  else ret (current b).

(** [Update]. *)
Definition Update (content : gostring) : M (option error) := Save content.

(** [SetTokenBudget]. *)
Definition SetTokenBudget (b : BaseFileManager)
    (budget : option token.TokenBudgetManager) : BaseFileManager :=
  {| filePath := filePath b; current := current b;
     lastModTime := lastModTime b; tokenCounter := tokenCounter b;
     tokenBudget := budget |}.

(** *** Truncation without a budget manager *)

(** The binary search of [truncateLineByCharacters] over [left..right].
    Each round shrinks the interval, so [fuel] rounds suffice once
    [fuel] exceeds [right - left]. *)
Fixpoint searchLoop (fuel : nat) (c : token.TokenCounter) (limit : Z)
    (runes : gostring) (left right bestEnd : Z) : Z :=
  if left <=? right then
    match fuel with
    | O => bestEnd
    | S fuel' =>
        let mid := Z.quot (left + right) 2 in
        if mid =? 0 then searchLoop fuel' c limit runes (mid + 1) right bestEnd
        else
          let candidate := firstn (Z.to_nat mid) runes in
          let tokenCount := token.Count c candidate in
          if tokenCount <=? limit
          then searchLoop fuel' c limit runes (mid + 1) right mid
          else searchLoop fuel' c limit runes left (mid - 1) bestEnd
    end
  else bestEnd.

(** [truncateLineByCharacters]. *)
Definition truncateLineByCharacters (c : token.TokenCounter)
    (line : gostring) (limit : Z) : gostring :=
  if limit <=? 0 then []
  else
    let right := Z.of_nat (length line) in
    let bestEnd := searchLoop (S (length line)) c limit line 0 right 0 in
    if bestEnd =? 0 then [] else firstn (Z.to_nat bestEnd) line.

(** [truncateLineByWords]. *)
Definition truncateLineByWords (c : token.TokenCounter) (line : gostring)
    (limit : Z) : gostring :=
  if limit <=? 0 then []
  else
    let words := strings.Fields line in
    let result :=
      if 1 <? Z.of_nat (length words)
      then token.wordLoop c limit words [] 0 else [] in
    if 0 <? Z.of_nat (length result) then strings.Join result [sp]
    else truncateLineByCharacters c line limit.

(** The loop of [simpleTokenTruncate] over the remaining lines. *)
Fixpoint simpleLineLoop (c : token.TokenCounter) (limit : Z)
    (lines : list gostring) (result : list gostring) (totalTokens : Z)
    : list gostring * Z :=
  match lines with
  | [] => (result, totalTokens)
  | line :: rest =>
      let lineTokens := token.Count c line in
      if totalTokens + lineTokens >? limit then
        if totalTokens <? limit then
          let remainingTokens := limit - totalTokens in
          let truncatedLine := truncateLineByWords c line remainingTokens in
          if negb (isEmpty truncatedLine) then
            (result ++ [truncatedLine],
             totalTokens + token.Count c truncatedLine)
          else (result, totalTokens)
        else (result, totalTokens)
      else simpleLineLoop c limit rest (result ++ [line])
                          (totalTokens + lineTokens)
  end.

(** [simpleTokenTruncate]. *)
Definition simpleTokenTruncate (c : token.TokenCounter) (text : gostring)
    (limit : Z) : gostring * Z :=
  if limit <=? 0 then ([], 0)
  else
    let '(result, totalTokens) :=
      simpleLineLoop c limit (strings.Split text nl) [] 0 in
    (strings.Join result [nl], totalTokens).

(** [BaseFileManager.TruncateToLimit]. *)
Definition TruncateToLimit (b : BaseFileManager) (text : gostring)
    (limit : Z) : gostring * Z :=
  match tokenBudget b with
  | Some tbm => token.TruncateToTokenLimit tbm text "default"
  | None =>
      let currentTokens := token.Count (tokenCounter b) text in
      if currentTokens <=? limit then (text, currentTokens)
      else simpleTokenTruncate (tokenCounter b) text limit
  end.

(** Run a method on a receiver and its backing location, from an empty
    trace. *)
Definition run {A} (m : M A) (b : BaseFileManager) (d : Storage) : A * St :=
  m {| mgr := b; disk := d; trace := [] |}.

(** [filepath.Join] of a directory and a file name (paths only label the
    managers here, so no cleaning is modelled). *)
Definition filepath_Join (dir name : string) : string :=
  if bool_decide (dir = EmptyString) then name
  else String.append dir (String.append "/" name).

(** *** The index reader (managers/index.go) *)

Record ChapterSummary := {
  ChapterID : gostring;
  Title : gostring;
  Summary : gostring;
  WordCount : Z;
  Timestamp : gostring;
}.

Record IndexJSON := {
  Version : gostring;
  LastUpdate : gostring;
  Chapters : Z;
  Summaries : list ChapterSummary;
}.

(** The fields of [IndexReader] besides the embedded [*BaseFileManager],
    which is the receiver held in the state. *)
Record IndexReader := {
  novelDir : string;
  titlePath : string;
  indexPath : string;
  indexData : option IndexJSON;
}.

(** [json.Unmarshal] into an [IndexJSON]; [None] is a decoding error. *)
Definition Unmarshal := gostring -> option IndexJSON.

Definition setIndexData (ir : IndexReader) (d : option IndexJSON)
    : IndexReader :=
  {| novelDir := novelDir ir; titlePath := titlePath ir;
     indexPath := indexPath ir; indexData := d |}.

(** [IndexReader.load] ([loadTitle] does nothing). *)
Definition ir_load (unmarshal : Unmarshal) (ir : IndexReader)
    : M IndexReader :=
  r <- Load ;;
  match snd r with
  | None =>
      if negb (isEmpty (fst r)) then
        match unmarshal (fst r) with
        | Some parsed => ret (setIndexData ir (Some parsed))
        | None => ret ir
        end
      else ret ir
  | Some _ => ret ir
  end.

(** [indexData == nil || len(indexData.Summaries) == 0]. *)
Definition noSummaries (ir : IndexReader) : bool :=
  match indexData ir with
  | None => true
  | Some d => match Summaries d with [] => true | _ => false end
  end.

(** The [strings.Builder] loop of [GetSummary], [i] being the index. *)
Fixpoint writeSummaries (first : bool) (l : list ChapterSummary)
    : gostring :=
  match l with
  | [] => []
  | chapterSummary :: rest =>
      (if first then [] else [nl; nl]) ++ ChapterID chapterSummary
      ++ runes ": " ++ Summary chapterSummary ++ writeSummaries false rest
  end.

(** [IndexReader.GetSummary]. *)
Definition GetSummary (unmarshal : Unmarshal) (ir : IndexReader)
    : M (gostring * IndexReader) :=
  ir' <- (if noSummaries ir then ir_load unmarshal ir else ret ir) ;;
  if noSummaries ir' then ret ([], ir')
  else
    match indexData ir' with
    | Some d => ret (writeSummaries true (Summaries d), ir')
    | None => ret ([], ir')
    end.

(** [IndexReader.GetSummaryWithTokenLimit]. *)
Definition GetSummaryWithTokenLimit (unmarshal : Unmarshal)
    (ir : IndexReader) (maxTokens : Z) : M (gostring * Z * IndexReader) :=
  r <- GetSummary unmarshal ir ;;
  let summary := fst r in
  if isEmpty summary then ret ([], 0, snd r)
  else
    b <- get ;;
    ret (TruncateToLimit b summary maxTokens, snd r).

(** [NewIndexReader]: the receiver and the reader after the first [load]. *)
Definition NewIndexReader `{unicode.Tables} (unmarshal : Unmarshal)
    (dir : string) (d : Storage) : IndexReader * St :=
  let indexPath := filepath_Join dir "index.json" in
  let titlePath := filepath_Join dir "title" in
  run (ir_load unmarshal {| novelDir := dir; titlePath := titlePath;
                            indexPath := indexPath; indexData := None |})
      (NewBaseFileManager indexPath) d.

(** [st.mgr.SetTokenBudget(budget)]. *)
Definition withTokenBudget (s : St)
    (budget : option token.TokenBudgetManager) : St :=
  {| mgr := SetTokenBudget (mgr s) budget; disk := disk s;
     trace := trace s |}.

(** [NewIndexReaderWithTokenBudget]. *)
Definition NewIndexReaderWithTokenBudget `{unicode.Tables}
    (unmarshal : Unmarshal) (dir : string) (d : Storage)
    (tokenBudget : token.TokenBudgetManager) : IndexReader * St :=
  let '(reader, s) := NewIndexReader unmarshal dir d in
  (reader, withTokenBudget s (Some tokenBudget)).

(** [IndexReader.GetTitle]: a fresh manager on the title file, [titleDisk]
    being the state of that file. *)
Definition GetTitle `{unicode.Tables} (ir : IndexReader)
    (titleDisk : Storage) : gostring :=
  let r := fst (run Load (NewBaseFileManager (titlePath ir)) titleDisk) in
  match snd r with
  | None => strings.TrimSpace (fst r)
  | Some _ => []
  end.

(** *** The worldview and character managers *)

(** [WorldviewManager.load]. *)
Definition wm_load : M unit :=
  r <- Load ;;
  if isEmpty (fst r) then setCurrent [] else ret tt.

(** [NewWorldviewManagerWithTokenBudget]. *)
Definition NewWorldviewManagerWithTokenBudget `{unicode.Tables}
    (dir : string) (d : Storage) (tokenBudget : token.TokenBudgetManager)
    : St :=
  let s := snd (run wm_load
                    (NewBaseFileManager (filepath_Join dir "worldview.md")) d) in
  withTokenBudget s (Some tokenBudget).

(** [GetCurrentWithTokenLimit] of [WorldviewManager] and of
    [CharacterManager], [component] being the name each passes. *)
Definition GetCurrentWithTokenLimit (component : string) (maxTokens : Z)
    : M (gostring * Z) :=
  cur <- GetCurrent ;;
  if isEmpty cur then ret ([], 0)
  else
    b <- get ;;
    match tokenBudget b with
    | Some tbm => ret (token.TruncateToTokenLimit tbm cur component)
    | None => ret (TruncateToLimit b cur maxTokens)
    end.

(** [CharacterManager.load]. *)
Definition cm_load : M unit :=
  r <- Load ;;
  if negb (isEmpty (fst r)) then setCurrent (strings.TrimSpace (fst r))
  else ret tt.

(** [NewCharacterManagerWithTokenBudget]: the constructor appends
    "character.md" to the directory it is given. *)
Definition NewCharacterManagerWithTokenBudget `{unicode.Tables}
    (dir : string) (d : Storage) (tokenBudget : token.TokenBudgetManager)
    : St :=
  let s := snd (run cm_load
                    (NewBaseFileManager (filepath_Join dir "character.md")) d) in
  withTokenBudget s (Some tokenBudget).

(** *** The other methods of the base manager (managers/base.go) *)

(** [GetTokenCount]. *)
Definition GetTokenCount : M Z :=
  b <- get ;;
  if isEmpty (current b) then
    r <- Load ;;
    b' <- get ;;
    match snd r with
    | None => ret (token.Count (tokenCounter b') (fst r))
    | Some _ => ret 0
    end
  else ret (token.Count (tokenCounter b) (current b)).

(** [EstimateTokens]. *)
Definition EstimateTokens : M Z :=
  b <- get ;;
  if isEmpty (current b) then
    r <- Load ;;
    b' <- get ;;
    match snd r with
    | None => ret (token.EstimateTokens (tokenCounter b') (fst r))
    | Some _ => ret 0
    end
  else ret (token.EstimateTokens (tokenCounter b) (current b)).

(** [EnsureFileExists]. *)
Definition EnsureFileExists : M (option error) :=
  ex <- Exists ;;
  if ex then ret None else Save [].

(** [ValidateContent]: the count it takes is dropped, and every content is
    accepted. *)
Definition ValidateContent (content : gostring) : M (option error) :=
  ret None.

(** Errors besides those of the store: [NewInvalidConfigError] and
    [fmt.Errorf], by message. *)
Inductive failure :=
  | ContentError (err : error)
  | InvalidConfigError (message : gostring)
  | Errorf (message : gostring).

(** An [error] returned as it is by a method that can fail otherwise. *)
Definition passError (err : option error) : option failure :=
  option_map ContentError err.

(** *** The other methods of the index reader (managers/index.go) *)

(** [IndexReader.SetTitle]: a fresh manager on the title file; the error
    and the state of that file afterwards. *)
Definition SetTitle `{unicode.Tables} (ir : IndexReader) (title : gostring)
    (titleDisk : Storage) : option error * Storage :=
  let trimmedTitle := strings.TrimSpace title in
  let r := run (Save trimmedTitle) (NewBaseFileManager (titlePath ir))
               titleDisk in
  (fst r, disk (snd r)).

(** [IndexReader.HasTitle]. *)
Definition HasTitle `{unicode.Tables} (ir : IndexReader)
    (titleDisk : Storage) : bool :=
  fst (run Exists (NewBaseFileManager (titlePath ir)) titleDisk).

(** [IndexReader.HasSummary]. *)
Definition HasSummary (ir : IndexReader) : M bool :=
  ex <- Exists ;;
  ret (ex && negb (noSummaries ir)).

(** [indexData == nil]. *)
Definition noIndexData (ir : IndexReader) : bool :=
  match indexData ir with None => true | Some _ => false end.

(** [IndexReader.GetChapterCount]. *)
Definition GetChapterCount (unmarshal : Unmarshal) (ir : IndexReader)
    : M (Z * IndexReader) :=
  ir' <- (if noIndexData ir then ir_load unmarshal ir else ret ir) ;;
  match indexData ir' with
  | None => ret (0, ir')
  | Some d => ret (Chapters d, ir')
  end.

(** [IndexReader.GetLatestChapter]; [None] is the [nil] pointer. *)
Definition GetLatestChapter (unmarshal : Unmarshal) (ir : IndexReader)
    : M (option ChapterSummary * IndexReader) :=
  ir' <- (if noSummaries ir then ir_load unmarshal ir else ret ir) ;;
  if noSummaries ir' then ret (None, ir')
  else
    match indexData ir' with
    | Some d => ret (last (Summaries d), ir')
    | None => ret (None, ir')
    end.

(** [IndexReader.GetChapterSummaries]. *)
Definition GetChapterSummaries (unmarshal : Unmarshal) (ir : IndexReader)
    : M (list ChapterSummary * IndexReader) :=
  ir' <- (if noIndexData ir then ir_load unmarshal ir else ret ir) ;;
  match indexData ir' with
  | None => ret ([], ir')
  | Some d => ret (Summaries d, ir')
  end.

(** [IndexReader.GetRecentChapters]; [None] is the panic of the slice
    expression [summaries[start:]]. *)
Definition GetRecentChapters (unmarshal : Unmarshal) (ir : IndexReader)
    (count : Z) : M (option (list ChapterSummary) * IndexReader) :=
  r <- GetChapterSummaries unmarshal ir ;;
  let summaries := fst r in
  if Z.of_nat (length summaries) =? 0 then ret (Some [], snd r)
  else if Z.of_nat (length summaries) <=? count
  then ret (Some summaries, snd r)
  else
    let start := Z.of_nat (length summaries) - count in
    ret (sliceFrom summaries start, snd r).

(** [IndexReader.GetRecentSummary]; [None] is the panic of
    [GetRecentChapters]. *)
Definition GetRecentSummary (unmarshal : Unmarshal) (ir : IndexReader)
    (count : Z) : M (option gostring * IndexReader) :=
  r <- GetRecentChapters unmarshal ir count ;;
  match fst r with
  | None => ret (None, snd r)
  | Some recentChapters =>
      if Z.of_nat (length recentChapters) =? 0 then ret (Some [], snd r)
      else ret (Some (writeSummaries true recentChapters), snd r)
  end.

(** [IndexReader.RefreshIndex]; the error is always [nil]. *)
Definition RefreshIndex (unmarshal : Unmarshal) (ir : IndexReader)
    : M IndexReader :=
  modified <- IsModified ;;
  if modified then ir_load unmarshal ir else ret ir.

(** [IndexReader.ValidateIndex]; [None] is the [nil] error. *)
Definition ValidateIndex (ir : IndexReader) : option failure :=
  match indexData ir with
  | None => Some (ContentError (FileNotFoundError (indexPath ir)))
  | Some d =>
      if isEmpty (Version d)
      then Some (InvalidConfigError (runes "index version is empty"))
      else if negb (Chapters d =? Z.of_nat (length (Summaries d)))
      then Some (InvalidConfigError (runes "chapter count mismatch in index"))
      else None
  end.

(** [IndexReader.GetIndexContent]. *)
Definition GetIndexContent : M gostring :=
  r <- Load ;; ret (fst r).

(** [IndexReader.FormatIndexSummary]. *)
Definition FormatIndexSummary `{unicode.Tables} (unmarshal : Unmarshal)
    (ir : IndexReader) (titleDisk : Storage) : M (gostring * IndexReader) :=
  let title := GetTitle ir titleDisk in
  let title := if isEmpty title then runes "未知小说" else title in
  r <- GetSummary unmarshal ir ;;
  let summary := fst r in
  let summary := if isEmpty summary then runes "暂无章节摘要" else summary in
  ret (runes "《" ++ title ++ runes "》" ++ [nl; nl] ++ summary, snd r).

(** *** The index manager (managers/index.go, [IndexManager]) *)

(** [json.MarshalIndent] of an [IndexJSON]; [None] is an encoding error. *)
Definition Marshal := IndexJSON -> option gostring.

(** The three readings of [time.Now().Format(time.RFC3339)] that
    [UpdateSummary] can take, in the order of the code. *)
Record Clock := {
  atCreation : gostring;
  atTimestamp : gostring;
  atLastUpdate : gostring;
}.

(** The loop looking for the chapter: the index of the first summary with
    the same [ChapterID], [None] being -1. *)
Definition existingIndex (summaries : list ChapterSummary)
    (chapterID : gostring) : option nat :=
  fst <$> list_find (fun existingSummary =>
                       ChapterID existingSummary = chapterID) summaries.

(** [IndexManager.UpdateSummary]: the error and the reader afterwards.
    The index record is changed in place before it is saved, so the reader
    holds the changed record whether the save succeeds or not. *)
Definition UpdateSummary (unmarshal : Unmarshal) (marshal : Marshal)
    (now : Clock) (summary : ChapterSummary) (ir : IndexReader)
    : M (option failure * IndexReader) :=
  ir <- ir_load unmarshal ir ;;
  let d := match indexData ir with
           | Some d => d
           | None => {| Version := runes "1.0"; LastUpdate := atCreation now;
                        Chapters := 0; Summaries := [] |}
           end in
  let timestampStr := if isEmpty (Timestamp summary) then atTimestamp now
                      else Timestamp summary in
  let standardSummary :=
    {| ChapterID := ChapterID summary; Title := Title summary;
       Summary := Summary summary; WordCount := WordCount summary;
       Timestamp := timestampStr |} in
  let d :=
    match existingIndex (Summaries d) (ChapterID summary) with
    | Some i =>
        {| Version := Version d; LastUpdate := LastUpdate d;
           Chapters := Chapters d;
           Summaries := <[i := standardSummary]> (Summaries d) |}
    | None =>
        let summaries := Summaries d ++ [standardSummary] in
        {| Version := Version d; LastUpdate := LastUpdate d;
           Chapters := Z.of_nat (length summaries);
           Summaries := summaries |}
    end in
  let d := {| Version := Version d; LastUpdate := atLastUpdate now;
              Chapters := Chapters d; Summaries := Summaries d |} in
  let ir := setIndexData ir (Some d) in
  match marshal d with
  | None =>
      ret (Some (InvalidConfigError (runes "failed to marshal index data")),
           ir)
  | Some jsonData =>
      err <- Save jsonData ;;
      ret (passError err, ir)
  end.

(** *** The other methods of the worldview manager *)

(** [NewWorldviewManager]. *)
Definition NewWorldviewManager `{unicode.Tables} (dir : string)
    (d : Storage) : St :=
  snd (run wm_load (NewBaseFileManager (filepath_Join dir "worldview.md")) d).

(** [UpdateWorldview]. *)
Definition UpdateWorldview (newWorldview : gostring) : M (option error) :=
  Update newWorldview.

(** [HasWorldview] and [HasCharacters]: [Exists() && GetCurrent() != ""]. *)
Definition hasContent : M bool :=
  ex <- Exists ;;
  if ex then cur <- GetCurrent ;; ret (negb (isEmpty cur)) else ret false.

Definition HasWorldview : M bool := hasContent.

(** [ValidateWorldview]. *)
Definition ValidateWorldview (content : gostring) : M (option failure) :=
  err <- ValidateContent content ;;
  match err with
  | Some err => ret (Some (ContentError err))
  | None =>
      if len content >? 10000
      then ret (Some (Errorf (runes "worldview content is too long")))
      else ret None
  end.

(** [AppendToWorldview]. *)
Definition AppendToWorldview (additionalContent : gostring)
    : M (option failure) :=
  if isEmpty additionalContent then ret None
  else
    cur <- GetCurrent ;;
    if isEmpty cur then
      err <- Update additionalContent ;; ret (passError err)
    else
      let updated := cur ++ [nl; nl] ++ additionalContent in
      err <- ValidateWorldview updated ;;
      match err with
      | Some err => ret (Some err)
      | None => err <- Update updated ;; ret (passError err)
      end.

(** [ClearWorldview] and [ClearCharacters]. *)
Definition ClearWorldview : M (option error) := Update [].

(** *** The other methods of the character manager (managers/character.go) *)

(** [NewCharacterManager]. *)
Definition NewCharacterManager `{unicode.Tables} (dir : string)
    (d : Storage) : St :=
  snd (run cm_load (NewBaseFileManager (filepath_Join dir "character.md")) d).

(** [UpdateCharacter]. *)
Definition UpdateCharacter (characterInfo : gostring) : M (option error) :=
  let trimmed := strings.TrimSpace characterInfo in
  Update trimmed.

Definition HasCharacters : M bool := hasContent.

(** A line that heads a character: it starts with "##" once trimmed. *)
Definition isHeading (line : gostring) : bool :=
  strings.HasPrefix (strings.TrimSpace line) (runes "##").

(** [GetCharacterCount]. *)
Definition GetCharacterCount : M Z :=
  cur <- GetCurrent ;;
  if isEmpty cur then ret 0
  else
    let lines := strings.Split cur nl in
    let count :=
      fold_left (fun count line => if isHeading line then count + 1 else count)
                lines 0 in
    if (count =? 0) && negb (isEmpty cur) then ret 1 else ret count.

(** [ValidateCharacter]. *)
Definition ValidateCharacter (characterInfo : gostring)
    : M (option failure) :=
  err <- ValidateContent characterInfo ;;
  match err with
  | Some err => ret (Some (ContentError err))
  | None =>
      if len characterInfo >? 8000
      then ret (Some (InvalidConfigError
                        (runes "character content is too long")))
      else ret None
  end.

(** [AddCharacter]. *)
Definition AddCharacter (name description : gostring)
    : M (option failure) :=
  if isEmpty name
  then ret (Some (InvalidConfigError
                    (runes "character name cannot be empty")))
  else
    cur <- GetCurrent ;;
    let characterEntry :=
      [nl; nl] ++ runes "## " ++ name ++ [nl] ++ description in
    let updated := if isEmpty cur then runes "# 角色设定" ++ characterEntry
                   else cur ++ characterEntry in
    err <- ValidateCharacter updated ;;
    match err with
    | Some err => ret (Some err)
    | None => err <- Update updated ;; ret (passError err)
    end.

(** The loop of [UpdateCharacterByName] over the remaining lines, [i] being
    the index of the first of them and [lastIndex] that of the last line of
    the text; it carries the lines written so far and the flag
    [inTargetCharacter]. *)
Fixpoint rewriteLoop (name newDescription : gostring) (lastIndex i : Z)
    (lines updated : list gostring) (inTargetCharacter : bool)
    : list gostring * bool :=
  match lines with
  | [] => (updated, inTargetCharacter)
  | line :: rest =>
      let trimmedLine := strings.TrimSpace line in
      let heading := strings.HasPrefix trimmedLine (runes "##") in
      let characterName :=
        strings.TrimSpace (strings.TrimPrefix trimmedLine (runes "##")) in
      if heading && eqString characterName name then
        rewriteLoop name newDescription lastIndex (i + 1) rest
                    (updated ++ [line]) true
      else
        let inTargetCharacter :=
          if heading then false else inTargetCharacter in
        if inTargetCharacter then
          if heading then
            rewriteLoop name newDescription lastIndex (i + 1) rest
                        (updated ++ [newDescription; line]) false
          else if i =? lastIndex then
            rewriteLoop name newDescription lastIndex (i + 1) rest
                        (updated ++ [newDescription]) inTargetCharacter
          else if isEmpty trimmedLine then
            rewriteLoop name newDescription lastIndex (i + 1) rest
                        (updated ++ [line]) inTargetCharacter
          else
            rewriteLoop name newDescription lastIndex (i + 1) rest
                        updated inTargetCharacter
        else
          rewriteLoop name newDescription lastIndex (i + 1) rest
                      (updated ++ [line]) inTargetCharacter
  end.

(** The text [UpdateCharacterByName] makes of a non-empty [current]. *)
Definition rewriteCharacter (name newDescription current : gostring)
    : gostring :=
  let lines := strings.Split current nl in
  let '(updated, inTargetCharacter) :=
    rewriteLoop name newDescription (Z.of_nat (length lines) - 1) 0 lines []
                false in
  let updated := if inTargetCharacter then updated ++ [newDescription]
                 else updated in
  strings.Join updated [nl].

(** [UpdateCharacterByName]. *)
Definition UpdateCharacterByName (name newDescription : gostring)
    : M (option failure) :=
  if isEmpty name
  then ret (Some (InvalidConfigError
                    (runes "character name cannot be empty")))
  else
    cur <- GetCurrent ;;
    if isEmpty cur then AddCharacter name newDescription
    else
      let result := rewriteCharacter name newDescription cur in
      err <- ValidateCharacter result ;;
      match err with
      | Some err => ret (Some err)
      | None => err <- Update result ;; ret (passError err)
      end.

End managers.

(** ** The plan manager (managers/planner.go)

    [PlannerContentManager] embeds a [*BaseFileManager], the receiver held
    in the state, and holds a pointer to its [PlannerState].  The methods
    change the record behind that pointer in place, so the record is passed
    along and returned. *)

Module planner.

Import managers.

Record PlanEntry := {
  Chapter : gostring;
  Plan : gostring;
  Content : gostring;
  Finished : bool;
}.

Record PlannerState := {
  Chapters : Z;
  Plans : list PlanEntry;
  UpdatedAt : gostring;
}.

(** [json.Unmarshal] into and [json.MarshalIndent] of a [PlannerState];
    [None] is an error. *)
Definition Unmarshal := gostring -> option PlannerState.
Definition Marshal := PlannerState -> option gostring.

Definition setPlans (ps : PlannerState) (plans : list PlanEntry)
    : PlannerState :=
  {| Chapters := Chapters ps; Plans := plans; UpdatedAt := UpdatedAt ps |}.

Definition setUpdatedAt (ps : PlannerState) (t : gostring) : PlannerState :=
  {| Chapters := Chapters ps; Plans := Plans ps; UpdatedAt := t |}.

(** [PlannerContentManager.load]; [state] is [None] before the first load,
    and [now] is [time.Now().Format(time.RFC3339)]. *)
Definition load (unmarshal : Unmarshal) (now : gostring)
    (state : option PlannerState) : M PlannerState :=
  r <- managers.Load ;;
  let state :=
    match snd r with
    | None =>
        if negb (isEmpty (fst r)) then
          match unmarshal (fst r) with
          | Some parsed => Some parsed
          | None => state
          end
        else state
    | Some _ => state
    end in
  match state with
  | Some state => ret state
  | None => ret {| Chapters := 0; Plans := []; UpdatedAt := now |}
  end.

(** [NewPlannerContentManager]. *)
Definition NewPlannerContentManager `{unicode.Tables} (unmarshal : Unmarshal)
    (now : gostring) (dir : string) (d : Storage) : PlannerState * St :=
  run (load unmarshal now None)
      (NewBaseFileManager (filepath_Join dir "planner.json")) d.

(** [NewPlannerContentManagerWithTokenBudget]. *)
Definition NewPlannerContentManagerWithTokenBudget `{unicode.Tables}
    (unmarshal : Unmarshal) (now : gostring) (dir : string) (d : Storage)
    (tokenBudget : token.TokenBudgetManager) : PlannerState * St :=
  let '(state, s) := NewPlannerContentManager unmarshal now dir d in
  (state, withTokenBudget s (Some tokenBudget)).

(** [PlannerContentManager.Load]; its error is always [nil]. *)
Definition Load (unmarshal : Unmarshal) (now : gostring)
    (state : PlannerState) : M PlannerState :=
  modified <- IsModified ;;
  if modified then load unmarshal now (Some state) else ret state.

(** [PlannerContentManager.Save] of the record the manager holds: the time
    stamp is set on the record before anything can fail. *)
Definition Save (marshal : Marshal) (now : gostring) (ps : PlannerState)
    : M (option failure * PlannerState) :=
  let ps := setUpdatedAt ps now in
  match marshal ps with
  | None =>
      b <- get ;;
      ret (Some (ContentError (FileWriteError (filePath b))), ps)
  | Some data =>
      err <- managers.Save data ;;
      ret (passError err, ps)
  end.

(** The loop of [UpsertPlan]: the first entry of the chapter is rewritten;
    the flag is [found]. *)
Fixpoint upsertLoop (chapter plan content : gostring) (finished : bool)
    (plans : list PlanEntry) : list PlanEntry * bool :=
  match plans with
  | [] => ([], false)
  | entry :: rest =>
      if eqString (Chapter entry) chapter then
        ({| Chapter := Chapter entry; Plan := plan; Content := content;
            Finished := finished |} :: rest, true)
      else
        let '(rest', found) :=
          upsertLoop chapter plan content finished rest in
        (entry :: rest', found)
  end.

(** [UpsertPlan]. *)
Definition UpsertPlan (unmarshal : Unmarshal) (marshal : Marshal)
    (now : gostring) (chapter plan content : gostring) (finished : bool)
    (state : PlannerState) : M (option failure * PlannerState) :=
  if isEmpty chapter
  then ret (Some (InvalidConfigError (runes "plan chapter cannot be empty")),
            state)
  else
    state <- Load unmarshal now state ;;
    let '(plans, found) :=
      upsertLoop chapter plan content finished (Plans state) in
    let plans :=
      if found then plans
      else plans ++ [{| Chapter := chapter; Plan := plan; Content := content;
                        Finished := false |}] in
    Save marshal now (setPlans state plans).

(** The first entry of a chapter. *)
Fixpoint findPlan (chapter : gostring) (plans : list PlanEntry)
    : option PlanEntry :=
  match plans with
  | [] => None
  | entry :: rest =>
      if eqString (Chapter entry) chapter then Some entry
      else findPlan chapter rest
  end.

(** [GetPlan]. *)
Definition GetPlan (unmarshal : Unmarshal) (now : gostring)
    (chapter : gostring) (state : PlannerState)
    : M (gostring * bool * PlannerState) :=
  state <- Load unmarshal now state ;;
  match findPlan chapter (Plans state) with
  | Some entry => ret (Plan entry, true, state)
  | None => ret ([], false, state)
  end.

(** [GetPlanEntry]: a copy of the entry. *)
Definition GetPlanEntry (unmarshal : Unmarshal) (now : gostring)
    (chapter : gostring) (state : PlannerState)
    : M (option PlanEntry * PlannerState) :=
  state <- Load unmarshal now state ;;
  ret (findPlan chapter (Plans state), state).

(** [a < b] on strings: byte-wise in Go, which on valid UTF-8 is the order
    of the code points. *)
Fixpoint ltString (a b : gostring) : bool :=
  match a, b with
  | _, [] => false
  | [], _ :: _ => true
  | x :: a', y :: b' => (x <? y) || ((x =? y) && ltString a' b')
  end.

(** [sort.Slice] by chapter.  The sort is not stable: Go does not specify
    the order of entries of equal chapter; the insertion sort here keeps
    their stored order. *)
Fixpoint insertPlan (entry : PlanEntry) (sorted : list PlanEntry)
    : list PlanEntry :=
  match sorted with
  | [] => [entry]
  | e :: rest =>
      if ltString (Chapter e) (Chapter entry) then e :: insertPlan entry rest
      else entry :: e :: rest
  end.

Definition sortPlans (plans : list PlanEntry) : list PlanEntry :=
  fold_right insertPlan [] plans.

(** [GetAllPlans]: a sorted copy; the stored plans keep their order. *)
Definition GetAllPlans (unmarshal : Unmarshal) (now : gostring)
    (state : PlannerState) : M (list PlanEntry * PlannerState) :=
  state <- Load unmarshal now state ;;
  ret (sortPlans (Plans state), state).

(** The [strings.Builder] loop of [GetPlansWithTokenLimit]. *)
Fixpoint writePlans (first : bool) (plans : list PlanEntry) : gostring :=
  match plans with
  | [] => []
  | entry :: rest =>
      (if first then [] else [nl; nl])
      ++ runes "章节: " ++ Chapter entry
      ++ [nl] ++ runes "规划: " ++ Plan entry
      ++ (if negb (isEmpty (Content entry))
          then [nl] ++ runes "内容: " ++ Content entry else [])
      ++ [nl] ++ runes "状态: "
      ++ (if Finished entry then runes "已完成" else runes "未完成")
      ++ writePlans false rest
  end.

(** [GetPlansWithTokenLimit]. *)
Definition GetPlansWithTokenLimit (unmarshal : Unmarshal) (now : gostring)
    (maxTokens : Z) (state : PlannerState)
    : M (gostring * Z * PlannerState) :=
  r <- GetAllPlans unmarshal now state ;;
  let plans := fst r in
  if Z.of_nat (length plans) =? 0 then ret ([], 0, snd r)
  else
    let planText := writePlans true plans in
    b <- get ;;
    match tokenBudget b with
    | Some tbm => ret (token.TruncateToTokenLimit tbm planText "plan", snd r)
    | None => ret (TruncateToLimit b planText maxTokens, snd r)
    end.

(** The loop of [DeletePlan]: the plans without the first entry of the
    chapter, [None] when there is none. *)
Fixpoint deleteFirst (chapter : gostring) (plans : list PlanEntry)
    : option (list PlanEntry) :=
  match plans with
  | [] => None
  | entry :: rest =>
      if eqString (Chapter entry) chapter then Some rest
      else option_map (cons entry) (deleteFirst chapter rest)
  end.

(** [DeletePlan]: nothing is saved when the chapter has no entry. *)
Definition DeletePlan (unmarshal : Unmarshal) (marshal : Marshal)
    (now : gostring) (chapter : gostring) (state : PlannerState)
    : M (option failure * PlannerState) :=
  state <- Load unmarshal now state ;;
  match deleteFirst chapter (Plans state) with
  | Some plans => Save marshal now (setPlans state plans)
  | None => ret (None, state)
  end.

(** The loops of [UpdatePlanContent] and [SetPlanFinished]: apply [change]
    to the first entry of the chapter, [None] when there is none. *)
Fixpoint changeFirst (chapter : gostring) (change : PlanEntry -> PlanEntry)
    (plans : list PlanEntry) : option (list PlanEntry) :=
  match plans with
  | [] => None
  | entry :: rest =>
      if eqString (Chapter entry) chapter then Some (change entry :: rest)
      else option_map (cons entry) (changeFirst chapter change rest)
  end.

Definition notFound (chapter : gostring) : failure :=
  InvalidConfigError (runes "plan entry not found: " ++ chapter).

(** [UpdatePlanContent]. *)
Definition UpdatePlanContent (unmarshal : Unmarshal) (marshal : Marshal)
    (now : gostring) (chapter content : gostring) (state : PlannerState)
    : M (option failure * PlannerState) :=
  state <- Load unmarshal now state ;;
  match changeFirst chapter
          (fun entry => {| Chapter := Chapter entry; Plan := Plan entry;
                           Content := content; Finished := Finished entry |})
          (Plans state) with
  | Some plans => Save marshal now (setPlans state plans)
  | None => ret (Some (notFound chapter), state)
  end.

(** [SetPlanFinished]. *)
Definition SetPlanFinished (unmarshal : Unmarshal) (marshal : Marshal)
    (now : gostring) (chapter : gostring) (finished : bool)
    (state : PlannerState) : M (option failure * PlannerState) :=
  state <- Load unmarshal now state ;;
  match changeFirst chapter
          (fun entry => {| Chapter := Chapter entry; Plan := Plan entry;
                           Content := Content entry; Finished := finished |})
          (Plans state) with
  | Some plans => Save marshal now (setPlans state plans)
  | None => ret (Some (notFound chapter), state)
  end.

(** [GetUnfinishedPlans]. *)
Definition GetUnfinishedPlans (unmarshal : Unmarshal) (now : gostring)
    (state : PlannerState) : M (list PlanEntry * PlannerState) :=
  r <- GetAllPlans unmarshal now state ;;
  ret (List.filter (fun plan => negb (Finished plan)) (fst r), snd r).

(** [GetFirstUnfinishedPlan]. *)
Definition GetFirstUnfinishedPlan (unmarshal : Unmarshal) (now : gostring)
    (state : PlannerState) : M (option PlanEntry * PlannerState) :=
  r <- GetAllPlans unmarshal now state ;;
  ret (List.find (fun plan => negb (Finished plan)) (fst r), snd r).

(** [ClearAllPlans]. *)
Definition ClearAllPlans (unmarshal : Unmarshal) (marshal : Marshal)
    (now : gostring) (state : PlannerState)
    : M (option failure * PlannerState) :=
  state <- Load unmarshal now state ;;
  Save marshal now (setPlans state []).

(** The loop of [ValidatePlanner], [i] being the index of the first of the
    remaining entries. *)
Fixpoint validateLoop (i : Z) (plans : list PlanEntry) : option failure :=
  match plans with
  | [] => None
  | entry :: rest =>
      if isEmpty (Chapter entry)
      then Some (InvalidConfigError
                   (runes "plan entry at index " ++ strconv.Itoa i
                    ++ runes " has empty chapter"))
      else validateLoop (i + 1) rest
  end.

(** [ValidatePlanner]. *)
Definition ValidatePlanner (unmarshal : Unmarshal) (now : gostring)
    (state : PlannerState) : M (option failure * PlannerState) :=
  state <- Load unmarshal now state ;;
  ret (validateLoop 0 (Plans state), state).

End planner.

(** ** Package [content]: the context builder (context_builder.go) *)

Module content.

Record ContextData := {
  Title : gostring;
  Summary : gostring;
  Worldview : gostring;
  Characters : gostring;
  Chapter : gostring;
  Plan : gostring;
}.

(** What the builder finds under the novel directory: the state of each
    file a [BaseFileManager] opens, and the answers of the chapter and
    planner managers, whose decoding of their JSON files is not modelled. *)
Record Novel := {
  titleFile : managers.Storage;
  indexFile : managers.Storage;
  worldviewFile : managers.Storage;
  characterFile : managers.Storage;   (* at [NovelDir/character.md/character.md] *)
  unmarshalIndex : managers.Unmarshal;
  latestChapter : option gostring;    (* [GetLatestChapterContent]; [None] is an error *)
  planText : gostring;                (* the text [GetPlansWithTokenLimit] builds; empty without plans *)
  plansForContext : gostring;         (* [FormatPlansForContext] *)
}.

(** [fmt.Sprintf] restricted to the verb [%s]. *)
Fixpoint Sprintf (format : gostring) (args : list gostring) : gostring :=
  match format with
  | [] => []
  | r :: rest =>
      match rest with
      | r' :: rest' =>
          if (r =? 0x25) && (r' =? 0x73) then
            match args with
            | a :: args' => a ++ Sprintf rest' args'
            | [] => runes "%!s(MISSING)" ++ Sprintf rest' []
            end
          else r :: Sprintf rest args
      | [] => [r]
      end
  end.

(** [ContextBuilder.FormatContext]. *)
Definition FormatContext (ctx : ContextData) : gostring :=
  Sprintf
    (runes "章节标题: %s

章节摘要:
%s

世界观:
%s

角色信息:
%s

当前章节:
%s

规划信息:
%s")
    [Title ctx; Summary ctx; Worldview ctx; Characters ctx; Chapter ctx;
     Plan ctx].

Definition orDefault (s placeholder : gostring) : gostring :=
  if isEmpty s then placeholder else s.

(** [ContextBuilder.BuildTokenAwareContext] (logging left out). *)
Definition BuildTokenAwareContext `{unicode.Tables} (NovelDir : string)
    (world : Novel) (tokenPercentages : option token.TokenPercentages)
    (maxTokens : Z) : token.error + ContextData :=
  match token.NewTokenBudgetManager maxTokens tokenPercentages with
  | inl err => inl err
  | inr tokenBudget =>
      let allocation := token.GetAllocatedTokens tokenBudget in
      (* title and summary *)
      let '(title, summary) :=
        if negb (bool_decide (NovelDir = EmptyString)) then
          let '(indexReader, s) :=
            managers.NewIndexReaderWithTokenBudget (unmarshalIndex world)
              NovelDir (indexFile world) tokenBudget in
          match allocation !! "index" with
          | Some indexTokens =>
              (managers.GetTitle indexReader (titleFile world),
               fst (fst (fst (managers.GetSummaryWithTokenLimit
                                (unmarshalIndex world) indexReader
                                indexTokens s))))
          | None =>
              (managers.GetTitle indexReader (titleFile world),
               fst (fst (managers.GetSummary (unmarshalIndex world)
                                             indexReader s)))
          end
        else ([], []) in
      let title := orDefault title (runes "无章节标题") in
      let summary := orDefault summary (runes "暂无章节摘要") in
      (* worldview *)
      let wm := managers.NewWorldviewManagerWithTokenBudget NovelDir
                  (worldviewFile world) tokenBudget in
      let worldview :=
        match allocation !! "worldview" with
        | Some worldviewTokens =>
            fst (fst (managers.GetCurrentWithTokenLimit "worldview"
                        worldviewTokens wm))
        | None => fst (managers.GetCurrent wm)
        end in
      let worldview := orDefault worldview (runes "暂无世界观设定") in
      (* characters *)
      let characterPath := managers.filepath_Join NovelDir "character.md" in
      let cm := managers.NewCharacterManagerWithTokenBudget characterPath
                  (characterFile world) tokenBudget in
      let characters :=
        match allocation !! "character" with
        | Some characterTokens =>
            fst (fst (managers.GetCurrentWithTokenLimit "character"
                        characterTokens cm))
        | None => fst (managers.GetCurrent cm)
        end in
      (* latest chapter *)
      let chapter :=
        match allocation !! "chapters" with
        | Some _ =>
            match latestChapter world with
            | Some text =>
                fst (token.TruncateToTokenLimit tokenBudget text "chapters")
            | None => []
            end
        | None =>
            match latestChapter world with
            | Some text => text
            | None => []
            end
        end in
      (* plans *)
      let plan :=
        match allocation !! "plan" with
        | Some planTokens =>
            if isEmpty (planText world) then []
            else fst (token.TruncateToTokenLimit tokenBudget
                        (planText world) "plan")
        | None => plansForContext world
        end in
      inr {| Title := title; Summary := summary; Worldview := worldview;
             Characters := characters; Chapter := chapter; Plan := plan |}
  end.

(** [ContextBuilder.GetContextAsMap]; every value of the map is a string. *)
Definition GetContextAsMap (ctx : ContextData) : gmap string gostring :=
  <["title" := Title ctx]> (<["summary" := Summary ctx]>
  (<["worldview" := Worldview ctx]> (<["characters" := Characters ctx]>
  (<["chapter" := Chapter ctx]> (<["plan" := Plan ctx]>
  (<["context" := FormatContext ctx]> ∅)))))).

(** [ContextBuilder.BuildFullContext] (logging left out); its error is
    always [nil]. *)
Definition BuildFullContext `{unicode.Tables} (NovelDir : string)
    (world : Novel) : ContextData :=
  (* title and summary *)
  let '(title, summary) :=
    if negb (bool_decide (NovelDir = EmptyString)) then
      let '(indexReader, s) :=
        managers.NewIndexReader (unmarshalIndex world) NovelDir
                                (indexFile world) in
      (managers.GetTitle indexReader (titleFile world),
       fst (fst (managers.GetSummary (unmarshalIndex world) indexReader s)))
    else ([], []) in
  let title := orDefault title (runes "无章节标题") in
  let summary := orDefault summary (runes "暂无章节摘要") in
  (* worldview *)
  let wm := managers.NewWorldviewManager NovelDir (worldviewFile world) in
  let worldview := fst (managers.GetCurrent wm) in
  let worldview := orDefault worldview (runes "暂无世界观设定") in
  (* characters *)
  let characterPath := managers.filepath_Join NovelDir "character.md" in
  let cm := managers.NewCharacterManager characterPath
              (characterFile world) in
  let characters := fst (managers.GetCurrent cm) in
  (* latest chapter *)
  let chapter :=
    match latestChapter world with
    | Some text => text
    | None => []
    end in
  (* plans *)
  let plan := plansForContext world in
  {| Title := title; Summary := summary; Worldview := worldview;
     Characters := characters; Chapter := chapter; Plan := plan |}.

End content.

(** ** Package [generators]: the token-aware generator *)

Module generators.

Record GeneratorConfig := {
  NovelDir : string;
  MaxTokens : Z;
  TokenPercentages : option token.TokenPercentages;
}.

(** [DefaultGeneratorConfig] (the content weights and priorities, which no
    method below reads, are left out). *)
Definition DefaultGeneratorConfig (novelDir : string) : GeneratorConfig :=
  {| NovelDir := novelDir; MaxTokens := 8000;
     TokenPercentages := Some token.DefaultTokenPercentages |}.

(** What the generator finds under the novel directory: the state of each
    file a manager opens, the decoders of the two JSON files, the answer of
    [ChapterManager.GetChapterCount], which lists the directory, and the
    clock. *)
Record Files := {
  worldviewFile : managers.Storage;
  characterFile : managers.Storage;
  indexFile : managers.Storage;
  plannerFile : managers.Storage;
  unmarshalIndex : managers.Unmarshal;
  unmarshalPlanner : planner.Unmarshal;
  chapterCount : Z;
  now : gostring;
}.

(** The generator: its budget manager and the managers it holds, each with
    its backing location (metrics and lock left out). *)
Record TokenAwareGenerator := {
  config : GeneratorConfig;
  tokenBudget : token.TokenBudgetManager;
  worldviewManager : managers.St;
  characterManager : managers.St;
  indexReader : managers.IndexReader * managers.St;
  plannerManager : planner.PlannerState * managers.St;
  lastContent : gostring;
  lastTokenCount : Z;
}.

Inductive error :=
  | ErrNovelDir               (* "novel directory cannot be empty" *)
  | ErrBudget (err : token.error).

(** [NewTokenAwareGenerator] with [initializeManagers]; a [nil] [config] is
    [None]. *)
Definition NewTokenAwareGenerator `{unicode.Tables}
    (config : option GeneratorConfig) (env : Files)
    : error + TokenAwareGenerator :=
  let config := default (DefaultGeneratorConfig "") config in
  if bool_decide (NovelDir config = EmptyString) then inl ErrNovelDir
  else
    match token.NewTokenBudgetManager (MaxTokens config)
                                      (TokenPercentages config) with
    | inl err => inl (ErrBudget err)
    | inr tokenBudget =>
        inr {| config := config;
               tokenBudget := tokenBudget;
               worldviewManager :=
                 managers.NewWorldviewManagerWithTokenBudget
                   (NovelDir config) (worldviewFile env) tokenBudget;
               characterManager :=
                 managers.NewCharacterManagerWithTokenBudget
                   (NovelDir config) (characterFile env) tokenBudget;
               indexReader :=
                 managers.NewIndexReaderWithTokenBudget
                   (unmarshalIndex env) (NovelDir config) (indexFile env)
                   tokenBudget;
               plannerManager :=
                 planner.NewPlannerContentManagerWithTokenBudget
                   (unmarshalPlanner env) (now env) (NovelDir config)
                   (plannerFile env) tokenBudget;
               lastContent := []; lastTokenCount := 0 |}
    end.

(** [formatComponent]. *)
Definition formatComponent (componentType : string) (content : gostring)
    : gostring :=
  if bool_decide (componentType = "worldview")
  then runes "=== 世界观设定 ===" ++ [nl] ++ content
  else if bool_decide (componentType = "characters")
  then runes "=== 角色信息 ===" ++ [nl] ++ content
  else if bool_decide (componentType = "plans")
  then runes "=== 章节规划 ===" ++ [nl] ++ content
  else if bool_decide (componentType = "chapters")
  then runes "=== 章节内容 ===" ++ [nl] ++ content
  else if bool_decide (componentType = "index")
  then runes "=== 章节摘要 ===" ++ [nl] ++ content
  else content.

Definition priorities : list string :=
  ["worldview"; "characters"; "plans"; "chapters"; "index"].

(** The loop of [aggregateComponents] over the remaining priorities. *)
Fixpoint aggregateLoop (components : gmap string gostring)
    (order : list string) (parts : list gostring) : list gostring :=
  match order with
  | [] => parts
  | component :: rest =>
      match components !! component with
      | Some content =>
          if negb (isEmpty content)
          then aggregateLoop components rest
                             (parts ++ [formatComponent component content])
          else aggregateLoop components rest parts
      | None => aggregateLoop components rest parts
      end
  end.

(** [aggregateComponents]. *)
Definition aggregateComponents (components : gmap string gostring)
    : gostring :=
  strings.Join (aggregateLoop components priorities []) [nl; nl].

(** [generateChapterContent]; its error is always [nil]. *)
Definition generateChapterContent (env : Files) (tag : TokenAwareGenerator)
    (maxTokens : Z) : gostring :=
  if chapterCount env =? 0 then runes "暂无章节内容"
  else
    let content :=
      runes "当前共有 " ++ strconv.Itoa (chapterCount env)
      ++ runes " 个章节" in
    fst (token.TruncateToTokenLimit (tokenBudget tag) content "chapters").

(** [generateContent]: the content, its token count and the generator
    afterwards; its error is always [nil]. *)
Definition generateContent (env : Files) (tag : TokenAwareGenerator)
    (maxTokens : Z) : gostring * Z * TokenAwareGenerator :=
  let allocation := token.GetAllocatedTokens (tokenBudget tag) in
  let components : gmap string gostring := ∅ in
  (* worldview *)
  let '(components, wm) :=
    match allocation !! "worldview" with
    | Some worldviewTokens =>
        let '(r, s) := managers.GetCurrentWithTokenLimit
                         "worldview" worldviewTokens (worldviewManager tag) in
        (<["worldview" := fst r]> components, s)
    | None => (components, worldviewManager tag)
    end in
  (* characters *)
  let '(components, cm) :=
    match allocation !! "character" with
    | Some characterTokens =>
        let '(r, s) := managers.GetCurrentWithTokenLimit
                         "character" characterTokens (characterManager tag) in
        (<["characters" := fst r]> components, s)
    | None => (components, characterManager tag)
    end in
  (* chapters *)
  let components :=
    match allocation !! "chapters" with
    | Some chapterTokens =>
        <["chapters" := generateChapterContent env tag chapterTokens]>
          components
    | None => components
    end in
  (* plans *)
  let '(components, pm) :=
    match allocation !! "plan" with
    | Some planTokens =>
        let '(r, s) := planner.GetPlansWithTokenLimit
                         (unmarshalPlanner env) (now env) planTokens
                         (fst (plannerManager tag))
                         (snd (plannerManager tag)) in
        (<["plans" := fst (fst r)]> components, (snd r, s))
    | None => (components, plannerManager tag)
    end in
  (* index *)
  let '(components, ir) :=
    match allocation !! "index" with
    | Some indexTokens =>
        let '(r, s) := managers.GetSummaryWithTokenLimit
                         (unmarshalIndex env) (fst (indexReader tag))
                         indexTokens (snd (indexReader tag)) in
        (<["index" := fst (fst r)]> components, (snd r, s))
    | None => (components, indexReader tag)
    end in
  let aggregated := aggregateComponents components in
  let '(finalContent, finalTokens) :=
    token.TruncateToTokenLimit (tokenBudget tag) aggregated "default" in
  (finalContent, finalTokens,
   {| config := config tag; tokenBudget := tokenBudget tag;
      worldviewManager := wm; characterManager := cm; indexReader := ir;
      plannerManager := pm; lastContent := lastContent tag;
      lastTokenCount := lastTokenCount tag |}).

(** [GenerateWithTokenLimit]: the content and its count are cached on the
    generator; its error is always [nil]. *)
Definition GenerateWithTokenLimit (env : Files) (tag : TokenAwareGenerator)
    (maxTokens : Z) : gostring * Z * TokenAwareGenerator :=
  let '(content, tokenCount, tag) := generateContent env tag maxTokens in
  (content, tokenCount,
   {| config := config tag; tokenBudget := tokenBudget tag;
      worldviewManager := worldviewManager tag;
      characterManager := characterManager tag;
      indexReader := indexReader tag; plannerManager := plannerManager tag;
      lastContent := content; lastTokenCount := tokenCount |}).

(** [Generate]. *)
Definition Generate (env : Files) (tag : TokenAwareGenerator)
    : gostring * TokenAwareGenerator :=
  let '(content, _, tag) :=
    GenerateWithTokenLimit env tag (MaxTokens (config tag)) in
  (content, tag).

(** [TokenAwareGenerator.GetTokenCount]: the cached count, or the count of
    a fresh generation when nothing is cached. *)
Definition GetTokenCount (env : Files) (tag : TokenAwareGenerator)
    : Z * TokenAwareGenerator :=
  if negb (isEmpty (lastContent tag)) then (lastTokenCount tag, tag)
  else
    let '(_, tag) := Generate env tag in
    (lastTokenCount tag, tag).

(** [TokenAwareGenerator.SetTokenBudget]. *)
Definition SetTokenBudget (tag : TokenAwareGenerator)
    (budget : token.TokenBudgetManager) : TokenAwareGenerator :=
  {| config := config tag; tokenBudget := budget;
     worldviewManager :=
       managers.withTokenBudget (worldviewManager tag) (Some budget);
     characterManager :=
       managers.withTokenBudget (characterManager tag) (Some budget);
     indexReader :=
       (fst (indexReader tag),
        managers.withTokenBudget (snd (indexReader tag)) (Some budget));
     plannerManager :=
       (fst (plannerManager tag),
        managers.withTokenBudget (snd (plannerManager tag)) (Some budget));
     lastContent := lastContent tag; lastTokenCount := lastTokenCount tag |}.

End generators.

(** ** Vocabulary of the statements *)

(** The estimates of the pieces of a list, each piece counted on its own. *)
Definition sumCounts (c : token.TokenCounter) (pieces : list gostring) : Z :=
  fold_right (fun piece acc => token.Count c piece + acc) 0 pieces.

(** A word: not empty, and free of spaces. *)
Definition isWord (w : gostring) : Prop :=
  w <> [] /\ forallb (fun r => negb (unicode.IsSpace r)) w = true.

(** The sum of the ceilings of an allocation. *)
Definition sumAlloc (allocation : gmap string Z) : Z :=
  map_fold (fun _ tokens acc => tokens + acc) 0 allocation.

(** What the second loop of [AllocateTokens] makes of one entry. *)
Definition adjusted (ratio : float) (tokens : Z) : Z :=
  Z.max 1 (Binary64.toInt (Binary64.ofInt tokens * ratio)%float).

(** The estimate of the first [k] code points of a line. *)
Definition prefixEstimate (c : token.TokenCounter) (line : gostring)
    (k : Z) : Z :=
  token.Count c (firstn (Z.to_nat k) line).

(** The state of the binary search: every prefix longer than [right]
    overflows, and [bestEnd] fits and is the longest that fits among those
    shorter than [left]. *)
Definition searchState (c : token.TokenCounter) (limit : Z)
    (line : gostring) (left right bestEnd : Z) : Prop :=
  0 <= left /\ right <= Z.of_nat (length line)
  /\ bestEnd <= Z.of_nat (length line)
  /\ 0 <= bestEnd < Z.max 1 left
  /\ (0 < bestEnd -> prefixEstimate c line bestEnd <= limit)
  /\ (forall k, 0 < k < left -> prefixEstimate c line k <= limit ->
                k <= bestEnd)
  /\ (forall k, right < k <= Z.of_nat (length line) ->
                limit < prefixEstimate c line k).

(** A method that leaves the receiver's budget manager in place. *)
Definition keepsBudget {A} (m : managers.M A) : Prop :=
  forall s, managers.tokenBudget (managers.mgr (snd (m s)))
            = managers.tokenBudget (managers.mgr s).

(** The budget managers a program can hold: the fields are unexported, so a
    manager comes from [NewTokenBudgetManager] and changes only through
    [UpdatePercentages]. *)
Inductive built `{unicode.Tables} : token.TokenBudgetManager -> Prop :=
  | built_new maxTokens percentages tbm :
      token.NewTokenBudgetManager maxTokens percentages = inr tbm ->
      built tbm
  | built_update tbm newPercentages :
      built tbm ->
      built (snd (token.UpdatePercentages tbm newPercentages)).

(** The budget after a series of requests to [UseTokens], in order. *)
Definition spend (tb : token.TokenBudget) (counts : list Z)
    : token.TokenBudget :=
  fold_left (fun tb count => snd (token.UseTokens tb count)) counts tb.

(** The code points of a list of words, all told. *)
Definition totalLength (words : list gostring) : Z :=
  fold_right (fun w n => Z.of_nat (length w) + n) 0 words.

(** A line that heads the character [name]: "##" and the name, up to white
    space. *)
Definition headsCharacter (name line : gostring) : bool :=
  managers.isHeading line
  && eqString (strings.TrimSpace
                 (strings.TrimPrefix (strings.TrimSpace line) (runes "##")))
              name.

(** A line of white space only. *)
Definition isBlank (line : gostring) : bool :=
  isEmpty (strings.TrimSpace line).

(** The estimate of a text that consists of the words [words]. *)
Definition wordsEstimate `{unicode.Tables} (words : list gostring) : Z :=
  token.tokensOf token.NewSimpleTokenCounter
                 (fold_left token.countWord words token.tally0).

(** *** Binary64 arithmetic

    The operations on [float64] are specified by the Standard Library on
    [spec_float], the format's numbers written as sign, mantissa and
    exponent.  The statements below read them as rationals. *)

(** Powers of two, as rationals. *)
Definition pow2 (e : Z) : Q := (2 ^ e)%Q.

(** Where a real [y] lies between the integers [m] and [m + 1]. *)
Definition located (m : Z) (l : location) (y : Q) : Prop :=
  match l with
  | loc_Exact => (y == inject_Z m)%Q
  | loc_Inexact Lt => (inject_Z m < y /\ y < inject_Z m + (1 # 2))%Q
  | loc_Inexact Eq => (y == inject_Z m + (1 # 2))%Q
  | loc_Inexact Gt => (inject_Z m + (1 # 2) < y /\ y < inject_Z m + 1)%Q
  end.

(** The relative and the absolute error of one rounding. *)
Definition eps64 : Q := pow2 (-53).
Definition tiny64 : Q := pow2 (-1075).

(** The magnitude of a finite number. *)
Definition magnitude (r : spec_float) : Q :=
  match r with
  | S754_finite _ m e => inject_Z (Zpos m) * pow2 e
  | _ => 0
  end.

(** [r] is what rounding the magnitude [x] under the sign [s] may give: a
    finite number within the rounding error, or the infinity when [x] is at
    the top of the range. *)
Definition rounds (s : bool) (x : Q) (r : spec_float) : Prop :=
  match r with
  | S754_zero s' | S754_finite s' _ _ =>
      s' = s /\ (Qabs (magnitude r - x) <= eps64 * x + tiny64)%Q
  | S754_infinity s' => s' = s /\ (pow2 1023 <= x)%Q
  | S754_nan => False
  end.

(** The exact value of a finite [float64]; 0 stands for the others. *)
Definition valueOf (x : float) : Q :=
  match Prim2SF x with
  | S754_finite s m e => inject_Z (cond_Zopp s (Zpos m)) * pow2 e
  | _ => 0
  end.

(** A finite number that is not negative; the zeros of both signs count. *)
Definition finiteNonneg (x : float) : Prop :=
  match Prim2SF x with
  | S754_zero _ | S754_finite false _ _ => True
  | _ => False
  end.

(** [f] is what an operation whose exact result is [x >= 0] returns: a
    finite number within the rounding error of [x], or +Inf when [x] is at
    the top of the range. *)
Definition nearly (x : Q) (f : float) : Prop :=
  (finiteNonneg f /\ (Qabs (valueOf f - x) <= eps64 * x + tiny64)%Q)
  \/ (Prim2SF f = S754_infinity false /\ (pow2 1023 <= x)%Q).

(** A weight the allocator can work with: a number from 0 to 2. *)
Definition weightOk (w : float) : bool :=
  (0 <=? w)%float && (w <=? 2)%float.

(** Percentages that are numbers: no field is a NaN. *)
Definition areNumbers (tp : token.TokenPercentages) : bool :=
  negb (is_nan (token.Plan tp)) && negb (is_nan (token.Character tp))
  && negb (is_nan (token.Worldview tp)) && negb (is_nan (token.Chapters tp))
  && negb (is_nan (token.Index tp)).

(** A number that is +Inf, or finite and at least [t]. *)
Definition atLeast (t : Q) (f : float) : Prop :=
  Prim2SF f = S754_infinity false
  \/ (finiteNonneg f /\ (t <= valueOf f)%Q).

(** The estimator as the specification words it: one contribution per
    whitespace-delimited token, summed, and a single floor. *)
Module spec.

(** "CJK-dominant": more than 50% of the code points in the CJK ranges. *)
Definition cjkDominant (word : gostring) : bool :=
  Z.of_nat (length word) <? 2 * token.countIf token.isChinese word.

(** "numeric-dominant": more than 70% digits. *)
Definition numericDominant `{unicode.Tables} (word : gostring) : bool :=
  7 * Z.of_nat (length word) <? 10 * token.countIf unicode.IsDigit word.

Definition punctCount `{unicode.Tables} (word : gostring) : Z :=
  token.countIf unicode.IsPunct word.

(** The contribution of one token, in tokens. *)
Definition contribution `{unicode.Tables} (word : gostring) : Q :=
  if cjkDominant word then inject_Z (Z.of_nat (length word)) * (15 # 10)
  else if numericDominant word then 5 # 10
  else (75 # 100) + (33 # 100) * inject_Z (punctCount word).

(** "Sum, floor to integer." *)
Definition estimate `{unicode.Tables} (text : gostring) : Z :=
  Qfloor (fold_right Qplus 0%Q (map contribution (strings.Fields text))).

(** The four totals the code accumulates, read off the token list. *)
Definition isNumeric `{unicode.Tables} (word : gostring) : bool :=
  negb (cjkDominant word) && numericDominant word.

Definition isOther `{unicode.Tables} (word : gostring) : bool :=
  negb (cjkDominant word) && negb (numericDominant word).

Definition cjkCodePoints (words : list gostring) : Z :=
  fold_right Z.add 0
    (map (fun w => Z.of_nat (length w)) (List.filter cjkDominant words)).

Definition numericTokens `{unicode.Tables} (words : list gostring) : Z :=
  Z.of_nat (length (List.filter isNumeric words)).

Definition otherTokens `{unicode.Tables} (words : list gostring) : Z :=
  Z.of_nat (length (List.filter isOther words)).

Definition otherPunctuation `{unicode.Tables} (words : list gostring) : Z :=
  fold_right Z.add 0 (map punctCount (List.filter isOther words)).

End spec.

(** ** Concrete scenarios *)

Module scenario.

(** The counter every manager is built with. *)
Definition simple : token.TokenCounter :=
  token.asTokenCounter token.NewSimpleTokenCounter.

(** 300 repeats of a phrase of four ideographs: 1200 code points and no
    white space. *)
Definition cjk1200 : gostring := concat (repeat (runes "天地玄黄") 300).

(** All of the budget on one category. *)
Definition planOnly : token.TokenPercentages :=
  {| token.Plan := 1; token.Character := 0; token.Worldview := 0;
     token.Chapters := 0; token.Index := 0 |}%float.

(** The manager [NewTokenBudgetManager] builds from a total and valid
    percentages. *)
Definition managerOf `{unicode.Tables} (maxTokens : Z)
    (tp : token.TokenPercentages) : token.TokenBudgetManager :=
  {| token.maxTokens := maxTokens; token.percentages := tp;
     token.counter := token.asTokenCounter token.NewSimpleTokenCounter;
     token.budget := token.NewTokenBudget maxTokens (token.ToMap tp) |}.

(** Half of the budget on each of two categories, none on the others. *)
Definition halves : token.TokenPercentages :=
  {| token.Plan := 0.5; token.Character := 0.5; token.Worldview := 0;
     token.Chapters := 0; token.Index := 0 |}%float.

(** Nearly all of the budget on one category, a ten-thousandth on each of
    the others. *)
Definition skewed : token.TokenPercentages :=
  {| token.Plan := 0.9996; token.Character := 0.0001;
     token.Worldview := 0.0001; token.Chapters := 0.0001;
     token.Index := 0.0001 |}.

(** The weights of the specification's allocation scenario. *)
Definition specWeights : token.TokenPercentages :=
  {| token.Plan := 0.6; token.Character := 0.03;
     token.Worldview := 0.04; token.Chapters := 0.3;
     token.Index := 0.03 |}.

(** A fifth of the budget on each category. *)
Definition fifths : token.TokenPercentages :=
  {| token.Plan := 0.2; token.Character := 0.2; token.Worldview := 0.2;
     token.Chapters := 0.2; token.Index := 0.2 |}.

(** All of the budget on one category, and nearly one percent more. *)
Definition brimful : token.TokenPercentages :=
  {| token.Plan := 1.009; token.Character := 0; token.Worldview := 0;
     token.Chapters := 0; token.Index := 0 |}.

(** The categories with a weight other than zero. *)
Definition nonzeroCategories (weights : gmap string float) : Z :=
  map_fold (fun _ w n => if (w =? 0)%float then n else n + 1) 0 weights.

(** A location where every call succeeds, holding [text] last modified at
    [t], or nothing. *)
Definition holding (text : gostring) (t : Z) : managers.Storage :=
  {| managers.file := Some {| managers.data := text; managers.modTime := t |};
     managers.dirOk := true; managers.readable := true;
     managers.writable := true; managers.clock := t + 1 |}.

Definition absent : managers.Storage :=
  {| managers.file := None; managers.dirOk := true;
     managers.readable := true; managers.writable := true;
     managers.clock := 1 |}.

(** The same location once reading it fails. *)
Definition unreadable (d : managers.Storage) : managers.Storage :=
  {| managers.file := managers.file d; managers.dirOk := managers.dirOk d;
     managers.readable := false; managers.writable := managers.writable d;
     managers.clock := managers.clock d |}.

(** A manager that loaded "old" at time 5. *)
Definition cachedOld : managers.BaseFileManager :=
  {| managers.filePath := "worldview.md"; managers.current := runes "old";
     managers.lastModTime := 5; managers.tokenCounter := simple;
     managers.tokenBudget := None |}.

(** A novel directory with no title, no index, no worldview and no
    characters, a latest chapter "C" and the plan text "P". *)
Definition bareNovel : content.Novel :=
  {| content.titleFile := absent; content.indexFile := absent;
     content.worldviewFile := absent; content.characterFile := absent;
     content.unmarshalIndex := fun _ => None;
     content.latestChapter := Some (runes "C");
     content.planText := runes "P";
     content.plansForContext := runes "暂无章节规划" |}.

(** The same directory with an index file, which the decoder reads as one
    chapter summary. *)
Definition indexedNovel : content.Novel :=
  {| content.titleFile := absent;
     content.indexFile := holding (runes "{summaries: [ch1]}") 3;
     content.worldviewFile := absent; content.characterFile := absent;
     content.unmarshalIndex := fun _ =>
       Some {| managers.Version := runes "1";
               managers.LastUpdate := [];
               managers.Chapters := 1;
               managers.Summaries :=
                 [{| managers.ChapterID := runes "ch1";
                     managers.Title := runes "Dawn";
                     managers.Summary := runes "the hero leaves home";
                     managers.WordCount := 4;
                     managers.Timestamp := [] |}] |};
     content.latestChapter := Some (runes "C");
     content.planText := runes "P";
     content.plansForContext := runes "暂无章节规划" |}.

(** A budget of 10 tokens with no weights. *)
Definition tenTokens : token.TokenBudget := token.NewTokenBudget 10 ∅.

(** The summary of a chapter, by its identifier and its text. *)
Definition chapterOf (id text : string) : managers.ChapterSummary :=
  {| managers.ChapterID := runes id; managers.Title := runes "Dawn";
     managers.Summary := runes text; managers.WordCount := 4;
     managers.Timestamp := [] |}.

(** An index of three chapters. *)
Definition threeChapters : managers.IndexJSON :=
  {| managers.Version := runes "1.0"; managers.LastUpdate := [];
     managers.Chapters := 3;
     managers.Summaries :=
       [chapterOf "ch1" "the hero leaves home";
        chapterOf "ch2" "the hero crosses the sea";
        chapterOf "ch3" "the hero returns"] |}.

(** A reader of the directory "novel" holding [index]. *)
Definition readerOf (index : option managers.IndexJSON)
    : managers.IndexReader :=
  {| managers.novelDir := "novel"; managers.titlePath := "novel/title";
     managers.indexPath := "novel/index.json";
     managers.indexData := index |}.

(** A manager that has loaded nothing, on the location [d]. *)
Definition freshOn (d : managers.Storage) : managers.St :=
  {| managers.mgr := managers.NewBaseFileManager "novel/file";
     managers.disk := d; managers.trace := [] |}.

(** A location where writing fails. *)
Definition readOnly (d : managers.Storage) : managers.Storage :=
  {| managers.file := managers.file d; managers.dirOk := managers.dirOk d;
     managers.readable := managers.readable d; managers.writable := false;
     managers.clock := managers.clock d |}.

Definition threeInstants : managers.Clock :=
  {| managers.atCreation := runes "2025-01-01T00:00:00Z";
     managers.atTimestamp := runes "2025-01-01T00:00:01Z";
     managers.atLastUpdate := runes "2025-01-01T00:00:02Z" |}.

(** A novel directory that holds a worldview and three chapter files, and
    neither characters, nor index, nor plans. *)
Definition generatorFiles : generators.Files :=
  {| generators.worldviewFile := holding (runes "a world of islands") 1;
     generators.characterFile := absent;
     generators.indexFile := absent;
     generators.plannerFile := absent;
     generators.unmarshalIndex := fun _ => None;
     generators.unmarshalPlanner := fun _ => None;
     generators.chapterCount := 3;
     generators.now := runes "2025-01-01T00:00:00Z" |}.

(** The generator [NewTokenAwareGenerator] builds on that directory from
    the default configuration. *)
Definition defaultGenerator : generators.TokenAwareGenerator :=
  let tokenBudget := managerOf 8000 token.DefaultTokenPercentages in
  {| generators.config := generators.DefaultGeneratorConfig "novel";
     generators.tokenBudget := tokenBudget;
     generators.worldviewManager :=
       managers.NewWorldviewManagerWithTokenBudget
         "novel" (generators.worldviewFile generatorFiles) tokenBudget;
     generators.characterManager :=
       managers.NewCharacterManagerWithTokenBudget
         "novel" (generators.characterFile generatorFiles) tokenBudget;
     generators.indexReader :=
       managers.NewIndexReaderWithTokenBudget
         (generators.unmarshalIndex generatorFiles) "novel"
         (generators.indexFile generatorFiles) tokenBudget;
     generators.plannerManager :=
       planner.NewPlannerContentManagerWithTokenBudget
         (generators.unmarshalPlanner generatorFiles)
         (generators.now generatorFiles) "novel"
         (generators.plannerFile generatorFiles) tokenBudget;
     generators.lastContent := []; generators.lastTokenCount := 0 |}.

(** Two plans, the first finished. *)
Definition twoPlans : planner.PlannerState :=
  {| planner.Chapters := 2;
     planner.Plans :=
       [{| planner.Chapter := runes "ch1"; planner.Plan := runes "leave";
           planner.Content := []; planner.Finished := true |};
        {| planner.Chapter := runes "ch2"; planner.Plan := runes "cross";
           planner.Content := []; planner.Finished := false |}];
     planner.UpdatedAt := runes "2025-01-01T00:00:00Z" |}.

(** A character sheet with two characters. *)
Definition twoCharacters : gostring := runes "# Cast

## Ann
old

## Bob
a sailor".

End scenario.

(** * Properties *)

Import token.

(** ** Lists of words and lines *)

Section Strings.

Import strings.

Lemma fieldsFrom_word (x w s : gostring) :
  forallb (fun r => negb (unicode.IsSpace r)) x = true ->
  fieldsFrom w (x ++ s) = fieldsFrom (w ++ x) s.
Proof.
  revert w; induction x as [|r x IH]; intros w Hx; simpl in *.
  - by rewrite app_nil_r.
  - apply andb_prop in Hx as [Hr Hx].
    apply negb_true_iff in Hr; rewrite Hr.
    rewrite IH by done. by rewrite <- app_assoc.
Qed.

(** Scanning through a separator that is a space closes the word in
    progress and starts afresh. *)
Lemma fieldsFrom_sep (a b w : gostring) (sep : rune) :
  unicode.IsSpace sep = true ->
  fieldsFrom w (a ++ sep :: b) = fieldsFrom w a ++ Fields b.
Proof.
  intros Hsep; revert w; induction a as [|r a IH]; intros w; simpl.
  - by rewrite Hsep.
  - destruct (unicode.IsSpace r); rewrite IH; [|done].
    by rewrite app_assoc.
Qed.

Lemma Join_cons2 (e e' : gostring) (rest : list gostring) (sep : gostring) :
  Join (e :: e' :: rest) sep = e ++ sep ++ Join (e' :: rest) sep.
Proof. done. Qed.

(** The words of joined lines are the words of the lines, in order. *)
Lemma Fields_Join (lines : list gostring) (sep : rune) :
  unicode.IsSpace sep = true ->
  Fields (Join lines [sep]) = concat (map Fields lines).
Proof.
  intros Hsep; induction lines as [|e [|e' rest] IH].
  - done.
  - simpl. by rewrite app_nil_r.
  - rewrite Join_cons2. unfold Fields at 1.
    change (fieldsFrom [] (e ++ sep :: Join (e' :: rest) [sep])
            = concat (map Fields (e :: e' :: rest))).
    rewrite fieldsFrom_sep by done. by rewrite IH.
Qed.

Lemma fieldsFrom_words (w s : gostring) :
  forallb (fun r => negb (unicode.IsSpace r)) w = true ->
  Forall isWord (fieldsFrom w s).
Proof.
  revert w; induction s as [|r s IH]; intros w Hw; simpl.
  - destruct w; constructor; [|constructor]. by split.
  - destruct (unicode.IsSpace r) eqn:Hr.
    + apply Forall_app; split; [|by apply IH].
      destruct w; constructor; [|constructor]. by split.
    + apply IH. rewrite forallb_app, Hw. simpl. by rewrite Hr.
Qed.

Lemma Fields_words (s : gostring) : Forall isWord (Fields s).
Proof. by apply fieldsFrom_words. Qed.

Lemma Fields_of_word (w : gostring) : isWord w -> Fields w = [w].
Proof.
  intros [Hne Hw]. unfold Fields.
  rewrite <- (app_nil_r w) at 1. rewrite fieldsFrom_word by done.
  simpl. by destruct w.
Qed.

(** Joining words with single spaces and splitting again gives them back. *)
Lemma Fields_Join_words (words : list gostring) :
  Forall isWord words -> Fields (Join words [sp]) = words.
Proof.
  intros Hw. rewrite Fields_Join by done.
  induction Hw as [|w ws Hw _ IH]; [done|].
  simpl. by rewrite Fields_of_word, IH.
Qed.

Lemma Join_words_empty (words : list gostring) :
  Forall isWord words -> Join words [sp] = [] -> words = [].
Proof.
  intros Hw Hj. destruct Hw as [|w [|w' ws] [Hne _] _]; [done| |].
  - by simpl in Hj.
  - rewrite Join_cons2 in Hj. by destruct w.
Qed.

Lemma splitFrom_nonempty (sep : rune) (piece s : gostring) :
  splitFrom sep piece s <> [].
Proof.
  revert piece; induction s as [|r s IH]; intros piece; simpl; [done|].
  by destruct (r =? sep).
Qed.

(** Joining the pieces of a split restores the string. *)
Lemma Join_splitFrom (sep : rune) (piece s : gostring) :
  Join (splitFrom sep piece s) [sep] = piece ++ s.
Proof.
  revert piece; induction s as [|r s IH]; intros piece; simpl.
  - by rewrite app_nil_r.
  - destruct (r =? sep) eqn:Hr.
    + apply Z.eqb_eq in Hr as ->.
      pose proof (splitFrom_nonempty sep [] s) as Hne.
      specialize (IH []).
      destruct (splitFrom sep [] s) as [|e rest]; [done|].
      rewrite Join_cons2, IH. done.
    + rewrite IH. by rewrite <- app_assoc.
Qed.

Lemma Join_Split (s : gostring) (sep : rune) : Join (Split s sep) [sep] = s.
Proof. apply Join_splitFrom. Qed.

(** The words of a text are the words of its lines, in order. *)
Lemma Fields_by_lines (text : gostring) :
  Fields text = concat (map Fields (Split text nl)).
Proof.
  rewrite <- (Join_Split text nl) at 1. by apply Fields_Join.
Qed.

End Strings.

(** ** The truncator of the budget manager *)

(** Split a conjunction into its parts, and nothing else. *)
Ltac conjs := repeat match goal with |- _ /\ _ => split end.

Section Truncator.

Variable c : TokenCounter.

Lemma sumCounts_app (a b : list gostring) :
  sumCounts c (a ++ b) = sumCounts c a + sumCounts c b.
Proof. induction a as [|x a IH]; simpl; lia. Qed.

(** The word loop keeps a prefix of the words, and the separate estimates
    of the kept words stay within the limit. *)
Lemma wordLoop_spec (limit : Z) (words acc : list gostring) (tot : Z) :
  exists ws rest,
    words = ws ++ rest /\
    wordLoop c limit words acc tot = acc ++ ws /\
    (tot <= limit -> tot + sumCounts c ws <= limit).
Proof.
  revert acc tot; induction words as [|w words IH]; intros acc tot; simpl.
  - exists [], []. rewrite ?app_nil_r. simpl.
    split; [done|]. split; [done|lia].
  - destruct (tot + Count c w >? limit) eqn:Hgt.
    + exists [], (w :: words). rewrite ?app_nil_r. simpl.
      split; [done|]. split; [done|lia].
    + destruct (IH (acc ++ [w]) (tot + Count c w))
        as (ws & rest & -> & Hr & Hs).
      exists (w :: ws), rest. rewrite Hr, <- app_assoc. simpl.
      split; [done|]. split; [done|]. intros _.
      assert (tot + Count c w <= limit) by lia. lia.
Qed.

(** The line loop keeps whole leading lines and, of the first line that
    does not fit, leading words joined by single spaces. *)
Lemma lineLoop_spec (limit : Z) (lines acc : list gostring) (tot : Z) :
  tot <= limit ->
  exists kept rest words,
    lines = kept ++ rest /\
    words `prefix_of` strings.Fields (hd [] rest) /\
    Forall isWord words /\
    lineLoop c limit lines acc tot =
      (acc ++ kept ++ strings.emit (strings.Join words [sp]),
       tot + sumCounts c kept
       + (if isEmpty (strings.Join words [sp]) then 0
          else Count c (strings.Join words [sp]))) /\
    tot + sumCounts c kept <= limit /\
    sumCounts c words <= limit - (tot + sumCounts c kept).
Proof.
  revert acc tot; induction lines as [|line lines IH]; intros acc tot Htot.
  - exists [], [], []. simpl. rewrite ?app_nil_r.
    conjs; [done | apply prefix_nil | done | f_equal; lia | lia | lia].
  - simpl. destruct (tot + Count c line >? limit) eqn:Hgt.
    + destruct (tot <? limit) eqn:Hlt.
      * unfold truncateLineByTokens.
        assert ((limit - tot <=? 0) = false) as -> by lia.
        destruct (wordLoop_spec (limit - tot) (strings.Fields line) [] 0)
          as (ws & rest & Hsplit & Hloop & Hsum).
        rewrite Hloop. simpl app.
        assert (Forall isWord ws) as Hws.
        { pose proof (Fields_words line) as Hall.
          rewrite Hsplit in Hall. by apply Forall_app in Hall as [? _]. }
        exists [], (line :: lines), ws. simpl hd. simpl app.
        destruct (strings.Join ws [sp]) eqn:Hj; simpl.
        -- apply Join_words_empty in Hj as ->; [|done].
           rewrite ?app_nil_r.
           conjs; [done | apply prefix_nil | done | f_equal; lia
                  | lia | simpl; lia].
        -- conjs; [done | rewrite Hsplit; by apply prefix_app_r | done
                  | f_equal; lia | lia | lia].
      * exists [], (line :: lines), []. simpl. rewrite ?app_nil_r.
        conjs; [done | apply prefix_nil | done | f_equal; lia | lia | lia].
    + destruct (IH (acc ++ [line]) (tot + Count c line))
        as (kept & rest & ws & -> & Hpre & Hws & Hloop & Hk & Hw); [lia|].
      exists (line :: kept), rest, ws. rewrite Hloop. simpl.
      conjs; [done | done | done | | lia | lia].
      f_equal; [by rewrite <- app_assoc | lia].
Qed.

(** C1 (amended).  For every text and every ceiling >= 0, [truncateText]
    returns leading whole lines of the text, verbatim, optionally followed
    by leading words of the next line joined by single spaces.  Hence the
    sequence of whitespace-delimited words of the result is a prefix of that
    of the text (the result itself is a code-point prefix only up to the
    white space of the partial line).  The estimates of the kept lines, each
    line estimated on its own, sum to at most the ceiling, and the estimates
    of the kept words, each word on its own, fit in what the lines left. *)
Theorem truncateText_keeps_leading_words (text : gostring) (ceiling : Z) :
  0 <= ceiling ->
  exists kept rest words,
    strings.Split text nl = kept ++ rest /\
    words `prefix_of` strings.Fields (hd [] rest) /\
    fst (truncateText c text ceiling) =
      strings.Join (kept ++ strings.emit (strings.Join words [sp])) [nl] /\
    sumCounts c kept <= ceiling /\
    sumCounts c words <= ceiling - sumCounts c kept /\
    strings.Fields (fst (truncateText c text ceiling))
      `prefix_of` strings.Fields text.
Proof.
  intros Hc. unfold truncateText.
  destruct (lineLoop_spec ceiling (strings.Split text nl) [] 0 Hc)
    as (kept & rest & ws & Hsplit & Hpre & Hws & Hloop & Hk & Hw).
  rewrite Hloop. simpl fst. simpl snd. simpl app.
  exists kept, rest, ws.
  conjs; [done | done | done | lia | lia |].
  rewrite (Fields_by_lines text), Hsplit, map_app, concat_app.
  rewrite Fields_Join by done. rewrite map_app, concat_app.
  apply prefix_app.
  destruct (strings.Join ws [sp]) eqn:Hj.
  - apply prefix_nil.
  - simpl. rewrite <- Hj, Fields_Join_words, app_nil_r by done.
    destruct rest as [|line rest]; simpl in *.
    + by apply prefix_nil_inv in Hpre as ->; apply prefix_nil.
    + by apply prefix_app_r.
Qed.

End Truncator.

Import scenario.

(** C1, witness: the theorem at the text "中 文 字" and the ceiling 2. *)
Lemma truncateText_keeps_leading_words_witness :
  0 <= 2 /\
  exists kept rest words,
    strings.Split (runes "中 文 字") nl = kept ++ rest /\
    words `prefix_of` strings.Fields (hd [] rest) /\
    fst (truncateText simple (runes "中 文 字") 2) =
      strings.Join (kept ++ strings.emit (strings.Join words [sp])) [nl] /\
    sumCounts simple kept <= 2 /\
    sumCounts simple words <= 2 - sumCounts simple kept /\
    strings.Fields (fst (truncateText simple (runes "中 文 字") 2))
      `prefix_of` strings.Fields (runes "中 文 字").
Proof.
  split; [lia|].
  apply (truncateText_keeps_leading_words simple (runes "中 文 字") 2). lia.
Defined.

(** C1, counterexample.  With the ceiling 1 the text "a  b c" (two spaces
    after "a", estimate 2) comes back as "a b c": every word counts 0 on
    its own, so all are kept, rejoined by single spaces.  The result is
    re-estimated at 2 and reported as 2, both above the ceiling, and it is
    not a prefix of the text.  Likewise "中 文 字" with the ceiling 2 comes
    back as "中 文", estimated and reported at 3. *)
Lemma truncateText_exceeds_ceiling :
  Count simple (runes "a  b c") = 2
  /\ truncateText simple (runes "a  b c") 1 = (runes "a b c", 2)
  /\ truncateToCeiling simple (runes "a  b c") 1 = (runes "a b c", 2)
  /\ Count simple (runes "a b c") = 2
  /\ ~ (runes "a b c" `prefix_of` runes "a  b c")
  /\ truncateText simple (runes "中 文 字") 2 = (runes "中 文", 3)
  /\ Count simple (runes "中 文") = 3.
Proof.
  conjs; try (vm_compute; reflexivity).
  intros [k Hk]. vm_compute in Hk. discriminate Hk.
Qed.

(** C2, at the scenario's input.  The budget manager's truncator has no
    code-point fallback: the single unbroken word of 1200 ideographs
    (estimate 1800) overflows the ceiling 50 at the line level and at the
    word level, and nothing is returned.  So it is through the manager built
    from the default percentages and the total 1000, which allocates 50 to
    "index". *)
Lemma truncateText_cjk_returns_nothing :
  length cjk1200 = 1200%nat
  /\ strings.Fields cjk1200 = [cjk1200]
  /\ Count simple cjk1200 = 1800
  /\ truncateLineByTokens simple cjk1200 50 = []
  /\ truncateText simple cjk1200 50 = ([], 0)
  /\ truncateToCeiling simple cjk1200 50 = ([], 0)
  /\ GetTokenAllocation (managerOf 1000 DefaultTokenPercentages) "index" = 50
  /\ AllocateTokens (NewTokenBudget 1000 (ToMap DefaultTokenPercentages))
       !! "index" = Some 50
  /\ TruncateToTokenLimit (managerOf 1000 DefaultTokenPercentages) cjk1200
                          "index" = ([], 0).
Proof. conjs; vm_compute; reflexivity. Qed.

(** C7 (amended).  Under a positive ceiling a text whose estimate is within
    the ceiling comes back unchanged with its estimate (an empty text with
    the count 0); under a ceiling that is zero or negative the result is the
    empty string and 0, whatever the text. *)
Theorem TruncateToTokenLimit_short_input (tbm : TokenBudgetManager)
    (component : string) (text : gostring) :
  (0 < GetTokenAllocation tbm component ->
   Count (counter tbm) text <= GetTokenAllocation tbm component ->
   TruncateToTokenLimit tbm text component =
     (text, if isEmpty text then 0 else Count (counter tbm) text))
  /\ (GetTokenAllocation tbm component <= 0 ->
      TruncateToTokenLimit tbm text component = ([], 0)).
Proof.
  unfold TruncateToTokenLimit, truncateToCeiling. split.
  - intros Hpos Hle. destruct text as [|r text]; simpl; [done|].
    assert ((GetTokenAllocation tbm component <=? 0) = false) as -> by lia.
    assert ((Count (counter tbm) (r :: text)
             <=? GetTokenAllocation tbm component) = true) as -> by lia.
    done.
  - intros Hle. destruct text as [|r text]; simpl; [done|].
    by assert ((GetTokenAllocation tbm component <=? 0) = true) as -> by lia.
Qed.

(** C7, counterexample.  With all of a budget of 100 on "plan", the
    category "index" is allocated 0.  The text "a" has the estimate 0, which
    is within that ceiling, and still the empty string is returned, not
    "a". *)
Lemma TruncateToTokenLimit_zero_ceiling_drops_text :
  NewTokenBudgetManager 100 (Some planOnly) = inr (managerOf 100 planOnly)
  /\ GetTokenAllocation (managerOf 100 planOnly) "index" = 0
  /\ Count (counter (managerOf 100 planOnly)) (runes "a") = 0
  /\ TruncateToTokenLimit (managerOf 100 planOnly) (runes "a") "index"
     = ([], 0)
  /\ truncateToCeiling simple (runes "a") 0 = ([], 0).
Proof. conjs; [reflexivity|vm_compute; reflexivity..]. Qed.

(** C7, witness: "hello world" (estimate 1) under the ceiling 150 that the
    default percentages give "plan" out of 1000. *)
Lemma TruncateToTokenLimit_short_input_witness :
  0 < GetTokenAllocation (managerOf 1000 DefaultTokenPercentages) "plan"
  /\ Count simple (runes "hello world")
     <= GetTokenAllocation (managerOf 1000 DefaultTokenPercentages) "plan"
  /\ TruncateToTokenLimit (managerOf 1000 DefaultTokenPercentages)
       (runes "hello world") "plan"
     = (runes "hello world", 1).
Proof.
  assert (0 < GetTokenAllocation (managerOf 1000 DefaultTokenPercentages)
                                 "plan") as Hpos
    by (vm_compute; reflexivity).
  assert (Count (counter (managerOf 1000 DefaultTokenPercentages))
                (runes "hello world")
          <= GetTokenAllocation (managerOf 1000 DefaultTokenPercentages)
                                "plan") as Hle
    by (vm_compute; discriminate).
  conjs; [exact Hpos | exact Hle |].
  exact (proj1 (TruncateToTokenLimit_short_input
                  (managerOf 1000 DefaultTokenPercentages) "plan"
                  (runes "hello world")) Hpos Hle).
Defined.

(** ** The estimator *)

Section Estimator.

Context `{unicode.Tables}.

Lemma countIf_shift (p : rune -> bool) (word : gostring) (n : Z) :
  fold_left (fun n r => if p r then n + 1 else n) word n
  = n + countIf p word.
Proof.
  unfold countIf. revert n; induction word as [|r word IH]; intros n; simpl.
  - lia.
  - rewrite IH, (IH (if p r then 0 + 1 else 0)). destruct (p r); lia.
Qed.

Lemma countIf_bounds (p : rune -> bool) (word : gostring) :
  0 <= countIf p word <= Z.of_nat (length word).
Proof.
  induction word as [|r word IH]; [unfold countIf; simpl; lia|].
  unfold countIf in *. simpl. rewrite countIf_shift. unfold countIf.
  destruct (p r); lia.
Qed.

(** A share [count/total] of code points exceeds [num/den] exactly when the
    cross products say so. *)
Lemma share_above (count total : Z) (num den : positive) :
  0 <= count <= total ->
  Qgtb (inject_Z count / inject_Z total) (Zpos num # den)
  = (Zpos num * total <? Zpos den * count).
Proof.
  intros Hc. unfold Qgtb, Qle_bool.
  destruct total as [|t|t]; [| |lia].
  - assert (count = 0) as -> by lia. simpl. lia.
  - unfold Qdiv, Qinv, Qmult, inject_Z. simpl Qnum. simpl Qden.
    destruct (Zpos num * Zpos t <? Zpos den * count) eqn:Hlt.
    + apply negb_true_iff, Z.leb_gt. lia.
    + apply negb_false_iff, Z.leb_le. lia.
Qed.

Lemma isChineseWord_cjkDominant (word : gostring) :
  isChineseWord word = spec.cjkDominant word.
Proof.
  unfold isChineseWord, spec.cjkDominant, utf8.RuneCountInString.
  rewrite (share_above _ _ 5 10) by apply countIf_bounds.
  pose proof (countIf_bounds isChinese word).
  destruct (Z.ltb_spec (Z.of_nat (length word)) (2 * countIf isChinese word));
    lia.
Qed.

Lemma isNumberWord_numericDominant (word : gostring) :
  isNumberWord word = spec.numericDominant word.
Proof.
  unfold isNumberWord, spec.numericDominant, utf8.RuneCountInString.
  by rewrite (share_above _ _ 7 10) by apply countIf_bounds.
Qed.

(** The loop over the words adds, to each counter, the total of its class
    of words. *)
Lemma fold_countWord (words : list gostring) (t : tally) :
  fold_left countWord words t =
    {| chineseChars := chineseChars t + spec.cjkCodePoints words;
       englishWords := englishWords t + spec.otherTokens words;
       numbers := numbers t + spec.numericTokens words;
       punctuation := punctuation t + spec.otherPunctuation words |}.
Proof.
  revert t; induction words as [|w words IH]; intros t.
  - destruct t. simpl. f_equal; unfold spec.cjkCodePoints,
      spec.otherTokens, spec.numericTokens, spec.otherPunctuation;
      simpl; lia.
  - simpl fold_left. rewrite IH. unfold countWord.
    rewrite isChineseWord_cjkDominant, isNumberWord_numericDominant.
    unfold spec.cjkCodePoints, spec.otherTokens, spec.numericTokens,
      spec.otherPunctuation, spec.isNumeric, spec.isOther,
      utf8.RuneCountInString.
    simpl List.filter.
    destruct (spec.cjkDominant w), (spec.numericDominant w); simpl;
      rewrite ?countIf_shift; f_equal; unfold spec.punctCount; lia.
Qed.

Lemma sum_nonneg (l : list Z) :
  Forall (fun x => 0 <= x) l -> 0 <= fold_right Z.add 0 l.
Proof. induction 1; simpl; lia. Qed.

Lemma cjkCodePoints_nonneg (words : list gostring) :
  0 <= spec.cjkCodePoints words.
Proof.
  apply sum_nonneg, Forall_forall. intros x Hx.
  apply list_elem_of_In, in_map_iff in Hx as (w & <- & _). lia.
Qed.

Lemma otherPunctuation_nonneg (words : list gostring) :
  0 <= spec.otherPunctuation words.
Proof.
  apply sum_nonneg, Forall_forall. intros x Hx.
  apply list_elem_of_In, in_map_iff in Hx as (w & <- & _).
  apply countIf_bounds.
Qed.

(** [int(float64(n) * (num/den))] for a count [n]. *)
Lemma Qtrunc_scaled (n : Z) (num den : positive) :
  0 <= n -> Qtrunc (inject_Z n * (Zpos num # den)) = (n * Zpos num) / Zpos den.
Proof.
  intros Hn. unfold Qtrunc, Qmult, inject_Z. simpl Qnum. simpl Qden.
  apply Z.quot_div_nonneg; lia.
Qed.

(** The closing formula with the ratios 1.5 and 0.75, on counters that are
    not negative. *)
Lemma tokensOf_simple (t : tally) :
  0 <= chineseChars t -> 0 <= englishWords t -> 0 <= numbers t ->
  0 <= punctuation t ->
  tokensOf NewSimpleTokenCounter t =
    (3 * chineseChars t) / 2 + (3 * englishWords t) / 4
    + numbers t / 2 + punctuation t / 3.
Proof.
  intros Hc He Hn Hp. unfold tokensOf, NewSimpleTokenCounter. simpl.
  rewrite !Qtrunc_scaled, !Z.quot_div_nonneg by lia.
  rewrite <- (Z.div_mul_cancel_r (3 * chineseChars t) 2 5) by lia.
  rewrite <- (Z.div_mul_cancel_r (3 * englishWords t) 4 25) by lia.
  do 2 f_equal; f_equal; f_equal; lia.
Qed.

(** C6 (amended).  The estimate is a sum of four floors, not the floor of
    one sum: floor(1.5 x C) + floor(0.75 x E) + floor(N / 2) + floor(P / 3),
    where C is the number of code points in the CJK-dominant tokens (more
    than half ideographs), N the number of numeric-dominant tokens among
    the others (more than 70% digits), E the number of remaining tokens and
    P the number of punctuation code points in those remaining tokens. *)
Theorem SimpleCount_sum_of_floors (text : gostring) :
  SimpleCount NewSimpleTokenCounter text =
    (3 * spec.cjkCodePoints (strings.Fields text)) / 2
    + (3 * spec.otherTokens (strings.Fields text)) / 4
    + spec.numericTokens (strings.Fields text) / 2
    + spec.otherPunctuation (strings.Fields text) / 3.
Proof.
  unfold SimpleCount. destruct text as [|r text]; [done|]. simpl isEmpty.
  rewrite fold_countWord.
  pose proof (cjkCodePoints_nonneg (strings.Fields (r :: text))).
  pose proof (otherPunctuation_nonneg (strings.Fields (r :: text))).
  rewrite tokensOf_simple;
    cbn [chineseChars englishWords numbers punctuation tally0];
    rewrite ?Z.add_0_l; try done;
    unfold spec.otherTokens, spec.numericTokens; lia.
Qed.

End Estimator.

(** C6, counterexample.  On "中 1" the code gives floor(1.5) + floor(1/2)
    = 1, the formula of the claim floor(1.5 + 0.5) = 2. *)
Lemma SimpleCount_is_not_one_floor :
  SimpleCount NewSimpleTokenCounter (runes "中 1") = 1
  /\ spec.estimate (runes "中 1") = 2
  /\ map spec.contribution (strings.Fields (runes "中 1"))
     = [(15 # 10)%Q; (5 # 10)%Q].
Proof. conjs; vm_compute; reflexivity. Qed.

(** ** Binary64 arithmetic

    What one rounding does to a magnitude ([binary_round_aux]), then what
    the operations of the code return: a finite number within the rounding
    error of the exact result. *)

Section Pow2.

Lemma pow2_pos e : (0 < pow2 e)%Q.
Proof. apply Qpower_0_lt. reflexivity. Qed.

Lemma pow2_add a b : (pow2 (a + b) == pow2 a * pow2 b)%Q.
Proof. apply Qpower_plus. discriminate. Qed.

Lemma pow2_0 : (pow2 0 == 1)%Q.
Proof. reflexivity. Qed.

Lemma pow2_1 : (pow2 1 == 2)%Q.
Proof. reflexivity. Qed.

Lemma pow2_succ e : (pow2 (e + 1) == 2 * pow2 e)%Q.
Proof. rewrite pow2_add, pow2_1. ring. Qed.

Lemma pow2_pred e : (pow2 (e - 1) == pow2 e / 2)%Q.
Proof.
  assert (pow2 e == 2 * pow2 (e - 1))%Q as ->.
  { rewrite <- pow2_succ. by replace (e - 1 + 1) with e by lia. }
  field.
Qed.

Lemma pow2_Z e : 0 <= e -> (pow2 e == inject_Z (2 ^ e))%Q.
Proof. intros He. unfold pow2. by rewrite Zpower_Qpower. Qed.

Lemma pow2_le a b : a <= b -> (pow2 a <= pow2 b)%Q.
Proof. intros Hab. apply Qpower_le_compat_l; [done|]. unfold Qle; simpl; lia. Qed.

Lemma pow2_lt a b : a < b -> (pow2 a < pow2 b)%Q.
Proof.
  intros Hab. apply Qlt_le_trans with (pow2 (a + 1)).
  - rewrite pow2_succ. pose proof (pow2_pos a). lra.
  - apply pow2_le. lia.
Qed.

Lemma pow2_neq e : ~ (pow2 e == 0)%Q.
Proof. pose proof (pow2_pos e). lra. Qed.

Lemma pow2_sub a b : (pow2 (a - b) == pow2 a / pow2 b)%Q.
Proof.
  assert (pow2 a == pow2 (a - b) * pow2 b)%Q as ->.
  { rewrite <- pow2_add. by replace (a - b + b) with a by lia. }
  field. apply pow2_neq.
Qed.

End Pow2.

Section Shifting.

Lemma located_proper m l y y' : (y == y')%Q -> located m l y -> located m l y'.
Proof. intros Hy. destruct l as [|[]]; simpl; rewrite Hy; done. Qed.

Lemma inject_Z_xO p : (inject_Z (Zpos p~0) == 2 * inject_Z (Zpos p))%Q.
Proof. unfold Qeq. simpl. lia. Qed.

Lemma inject_Z_xI p : (inject_Z (Zpos p~1) == 2 * inject_Z (Zpos p) + 1)%Q.
Proof. unfold Qeq. simpl. lia. Qed.

(** One step to the right halves the real and keeps track of where it
    lies. *)
Lemma shr_1_located r y :
  0 <= shr_m r -> located (shr_m r) (loc_of_shr_record r) y ->
  0 <= shr_m (shr_1 r)
  /\ located (shr_m (shr_1 r)) (loc_of_shr_record (shr_1 r)) (y * (1 # 2)).
Proof.
  destruct r as [m r s]. simpl. intros Hm Hl.
  destruct m as [|p|p]; [| |lia].
  - split; [simpl; lia|].
    destruct r, s; simpl in *; change (inject_Z 0) with 0%Q in *; lra.
  - destruct p as [p|p|].
    + split; [simpl; lia|]. pose proof (inject_Z_xI p) as Hp.
      destruct r, s; simpl in *; lra.
    + split; [simpl; lia|]. pose proof (inject_Z_xO p) as Hp.
      destruct r, s; simpl in *; lra.
    + split; [simpl; lia|].
      destruct r, s; simpl in *; change (inject_Z 0) with 0%Q in *;
        change (inject_Z 1) with 1%Q in *; lra.
Qed.

Lemma pow2_opp_1 : (pow2 (-1) == 1 # 2)%Q.
Proof. reflexivity. Qed.

Lemma iter_shr_1 (p : positive) : forall r y,
  0 <= shr_m r -> located (shr_m r) (loc_of_shr_record r) y ->
  0 <= shr_m (SpecFloat.iter_pos shr_1 p r)
  /\ located (shr_m (SpecFloat.iter_pos shr_1 p r))
             (loc_of_shr_record (SpecFloat.iter_pos shr_1 p r)) (y * pow2 (- Zpos p)).
Proof.
  induction p as [p IH|p IH|]; intros r y Hm Hl; cbn [SpecFloat.iter_pos].
  - destruct (shr_1_located r y Hm Hl) as [H1 H2].
    destruct (IH _ _ H1 H2) as [H3 H4].
    destruct (IH _ _ H3 H4) as [H5 H6].
    split; [done|]. eapply located_proper; [|exact H6].
    replace (- Zpos p~1) with (-1 + (- Zpos p + - Zpos p)) by lia.
    rewrite !pow2_add, pow2_opp_1. ring.
  - destruct (IH _ _ Hm Hl) as [H3 H4].
    destruct (IH _ _ H3 H4) as [H5 H6].
    split; [done|]. eapply located_proper; [|exact H6].
    replace (- Zpos p~0) with (- Zpos p + - Zpos p) by lia.
    rewrite pow2_add. ring.
  - destruct (shr_1_located r y Hm Hl) as [H1 H2].
    split; [done|]. eapply located_proper; [|exact H2].
    reflexivity.
Qed.

Lemma digits2_pos_bounds (m : positive) :
  2 ^ (Zpos (digits2_pos m) - 1) <= Zpos m < 2 ^ Zpos (digits2_pos m).
Proof.
  induction m as [m IH|m IH|]; simpl digits2_pos.
  - rewrite Pos2Z.inj_succ.
    replace (Z.succ (Zpos (digits2_pos m)) - 1)
      with (Z.succ (Zpos (digits2_pos m) - 1)) by lia.
    rewrite !Z.pow_succ_r by lia. lia.
  - rewrite Pos2Z.inj_succ.
    replace (Z.succ (Zpos (digits2_pos m)) - 1)
      with (Z.succ (Zpos (digits2_pos m) - 1)) by lia.
    rewrite !Z.pow_succ_r by lia. lia.
  - simpl. lia.
Qed.

Lemma Zdigits2_bounds (m : Z) :
  0 < m -> 2 ^ (Zdigits2 m - 1) <= m < 2 ^ Zdigits2 m.
Proof. destruct m; [lia| |lia]. intros _. apply digits2_pos_bounds. Qed.

Lemma Zdigits2_nonneg (m : Z) : 0 <= Zdigits2 m.
Proof. destruct m; simpl; lia. Qed.

Lemma Zdigits2_le (m k : Z) : 0 <= m < 2 ^ k -> 0 <= k -> Zdigits2 m <= k.
Proof.
  intros [Hm Hk] Hk0. destruct (Z.eq_dec m 0) as [->|]; [done|].
  pose proof (Zdigits2_bounds m ltac:(lia)) as [Hd _].
  pose proof (Zdigits2_nonneg m).
  destruct (Z.le_gt_cases (Zdigits2 m) k) as [|Hgt]; [done|].
  assert (2 ^ k <= 2 ^ (Zdigits2 m - 1)) by (apply Z.pow_le_mono_r; lia).
  lia.
Qed.

Lemma Zdigits2_ge (m k : Z) : 2 ^ k <= m -> 0 <= k -> k + 1 <= Zdigits2 m.
Proof.
  intros Hm Hk.
  assert (0 < m) by (pose proof (Z.pow_pos_nonneg 2 k); lia).
  pose proof (Zdigits2_bounds m ltac:(lia)) as [_ Hd].
  pose proof (Zdigits2_nonneg m).
  destruct (Z.le_gt_cases (k + 1) (Zdigits2 m)) as [|Hgt]; [done|].
  assert (2 ^ Zdigits2 m <= 2 ^ k) by (apply Z.pow_le_mono_r; lia).
  lia.
Qed.

Lemma shr_record_of_loc_m m l : shr_m (shr_record_of_loc m l) = m.
Proof. by destruct l as [|[]]. Qed.

Lemma loc_of_shr_record_of_loc m l :
  loc_of_shr_record (shr_record_of_loc m l) = l.
Proof. by destruct l as [|[]]. Qed.

(** [shr_fexp] brings the exponent up to the one of the format, when it is
    below, and keeps the real in place. *)
Lemma shr_fexp_spec mx ex lx y :
  0 <= mx -> located mx lx y ->
  let r := fst (shr_fexp prec emax mx ex lx) in
  let e' := snd (shr_fexp prec emax mx ex lx) in
  e' = Z.max ex (fexp prec emax (Zdigits2 mx + ex))
  /\ 0 <= shr_m r
  /\ located (shr_m r) (loc_of_shr_record r) (y * pow2 (ex - e'))
  /\ (fexp prec emax (Zdigits2 mx + ex) <= ex ->
      r = shr_record_of_loc mx lx).
Proof.
  intros Hm Hl. unfold shr_fexp, shr.
  set (f := fexp prec emax (Zdigits2 mx + ex)).
  destruct (f - ex) as [|p|p] eqn:Hn; simpl.
  - rewrite shr_record_of_loc_m, loc_of_shr_record_of_loc.
    split; [lia|]. split; [done|]. split; [|done].
    eapply located_proper; [|exact Hl].
    replace (ex - ex) with 0 by lia. rewrite pow2_0. ring.
  - destruct (iter_shr_1 p (shr_record_of_loc mx lx) y) as [H1 H2].
    { by rewrite shr_record_of_loc_m. }
    { by rewrite shr_record_of_loc_m, loc_of_shr_record_of_loc. }
    split; [lia|]. split; [done|]. split; [|lia].
    by replace (ex - (ex + Zpos p)) with (- Zpos p) by lia.
  - rewrite shr_record_of_loc_m, loc_of_shr_record_of_loc.
    split; [lia|]. split; [done|]. split; [|done].
    eapply located_proper; [|exact Hl].
    replace (ex - ex) with 0 by lia. rewrite pow2_0. ring.
Qed.

Lemma round_nearest_even_spec m l y :
  located m l y ->
  m <= round_nearest_even m l <= m + 1
  /\ (Qabs (inject_Z (round_nearest_even m l) - y) <= 1 # 2)%Q
  /\ (l = loc_Exact -> round_nearest_even m l = m).
Proof.
  intros Hl.
  assert (forall z : Q, (- (1 # 2) <= z)%Q -> (z <= 1 # 2)%Q ->
                        (Qabs z <= 1 # 2)%Q) as Habs.
  { intros z H1 H2. apply Qabs_Qle_condition. split; lra. }
  destruct l as [|[]]; cbn [located round_nearest_even] in *.
  - split; [lia|]. split; [|done]. apply Habs; lra.
  - destruct (Z.even m).
    + split; [lia|]. split; [|done]. apply Habs; lra.
    + split; [lia|]. split; [|done]. rewrite inject_Z_plus.
      change (inject_Z 1) with 1%Q. apply Habs; lra.
  - split; [lia|]. split; [|done]. apply Habs; lra.
  - split; [lia|]. split; [|done]. rewrite inject_Z_plus.
    change (inject_Z 1) with 1%Q. apply Habs; lra.
Qed.

End Shifting.

Section Rounding.

Lemma rounds_proper s x x' r : (x == x')%Q -> rounds s x r -> rounds s x' r.
Proof.
  intros Hx. destruct r; cbn [rounds magnitude]; [| |done|];
    intros H; by rewrite <- Hx.
Qed.

Lemma located_bounds m l y :
  located m l y -> (inject_Z m <= y /\ y < inject_Z m + 1)%Q.
Proof. destruct l as [|[]]; cbn [located]; lra. Qed.

Lemma fexp_eq e : fexp prec emax e = Z.max (e - 53) (-1074).
Proof. reflexivity. Qed.

Lemma Qabs_bound (z b : Q) : (- b <= z)%Q -> (z <= b)%Q -> (Qabs z <= b)%Q.
Proof. intros. apply Qabs_Qle_condition. split; lra. Qed.

Lemma Qabs_bound_inv (z b : Q) : (Qabs z <= b)%Q -> (- b <= z /\ z <= b)%Q.
Proof. intros H. by apply Qabs_Qle_condition in H. Qed.

Lemma inject_Z_lt_pow2 (m k : Z) :
  0 <= k -> (inject_Z m < pow2 k)%Q -> m < 2 ^ k.
Proof. intros Hk H. rewrite pow2_Z in H by done. by rewrite Zlt_Qlt. Qed.

Lemma inject_Z_ge_pow2 (m k : Z) :
  0 <= k -> 2 ^ k <= m -> (pow2 k <= inject_Z m)%Q.
Proof. intros Hk H. rewrite pow2_Z by done. by rewrite <- Zle_Qle. Qed.

(** The mantissa after the second alignment of [binary_round_aux]. *)
Lemma shr_fexp_rounded (m1 e' : Z) :
  0 <= m1 <= 2 ^ 53 -> -1074 <= e' ->
  let r := fst (shr_fexp prec emax m1 e' loc_Exact) in
  let e'' := snd (shr_fexp prec emax m1 e' loc_Exact) in
  (m1 < 2 ^ 53 /\ shr_m r = m1 /\ e'' = e')
  \/ (m1 = 2 ^ 53 /\ shr_m r = 2 ^ 52 /\ e'' = e' + 1).
Proof.
  intros Hm He.
  destruct (Z.eq_dec m1 (2 ^ 53)) as [->|Hne].
  - right. unfold shr_fexp. change (Zdigits2 (2 ^ 53)) with 54.
    rewrite fexp_eq. replace (Z.max (54 + e' - 53) (-1074) - e') with 1 by lia.
    split; [done|]. split; [|done]. vm_compute. reflexivity.
  - left. split; [lia|].
    assert (Zdigits2 m1 <= 53) by (apply Zdigits2_le; lia).
    destruct (shr_fexp_spec m1 e' loc_Exact (inject_Z m1)) as (H1 & _ & _ & H4);
      [lia|reflexivity|].
    rewrite fexp_eq in *. rewrite H4 by lia. split; [done|].
    cbv zeta. rewrite H1. lia.
Qed.

Lemma binary_round_aux_rounds sx mx ex lx y :
  0 <= mx -> located mx lx y ->
  ex <= fexp prec emax (Zdigits2 mx + ex)
  \/ (lx = loc_Exact /\ ex <= emax - prec) ->
  rounds sx (y * pow2 ex) (binary_round_aux prec emax sx mx ex lx).
Proof.
  intros Hm Hl Hex. unfold binary_round_aux.
  destruct (shr_fexp_spec mx ex lx y Hm Hl) as (He' & Hm' & Hl' & Hns).
  destruct (shr_fexp prec emax mx ex lx) as [r' e'] eqn:E1.
  cbn [fst snd] in *.
  set (d := Zdigits2 mx) in *. set (f := fexp prec emax (d + ex)) in *.
  assert (f = Z.max (d + ex - 53) (-1074)) as Hf by apply fexp_eq.
  pose proof (Zdigits2_nonneg mx) as Hd0. fold d in Hd0.
  destruct (round_nearest_even_spec _ _ _ Hl') as (Hm1 & Herr & Hexact).
  set (m1 := round_nearest_even (shr_m r') (loc_of_shr_record r')) in *.
  destruct (located_bounds _ _ _ Hl) as [Hy0 Hy1].
  destruct (located_bounds _ _ _ Hl') as [Hy0' Hy1'].
  set (y' := (y * pow2 (ex - e'))%Q) in *.
  assert (y * pow2 ex == y' * pow2 e')%Q as Hx.
  { unfold y'. rewrite <- Qmult_assoc, <- pow2_add.
    by replace (ex - e' + e') with ex by lia. }
  pose proof (pow2_pos e') as Hpe'. pose proof (pow2_pos ex) as Hpex.
  (* the magnitude of the real *)
  assert (0 < mx -> (pow2 (d - 1 + ex) <= y * pow2 ex)%Q) as Hxlow.
  { intros Hpos. pose proof (Zdigits2_bounds mx Hpos) as [Hlo _]. fold d in Hlo.
    assert (1 <= d).
    { destruct mx; try lia. unfold d. simpl. lia. }
    rewrite pow2_add.
    apply Qmult_le_compat_r; [|lra].
    apply Qle_trans with (inject_Z mx); [|done].
    apply inject_Z_ge_pow2; lia. }
  (* the first mantissa has at most 53 digits *)
  assert (shr_m r' < 2 ^ 53) as Hm53.
  { apply inject_Z_lt_pow2; [lia|].
    apply Qle_lt_trans with y'; [done|].
    assert (inject_Z mx + 1 <= pow2 d)%Q as Hmd.
    { destruct (Z.eq_dec mx 0) as [->|].
      - unfold d. simpl. change (inject_Z 0) with 0%Q. rewrite pow2_0. lra.
      - pose proof (Zdigits2_bounds mx ltac:(lia)) as [_ Hhi]. fold d in Hhi.
        rewrite pow2_Z by lia. change 1%Q with (inject_Z 1).
        rewrite <- inject_Z_plus, <- Zle_Qle. lia. }
    apply Qlt_le_trans with (pow2 d * pow2 (ex - e'))%Q.
    - unfold y'. apply Qmult_lt_compat_r; [apply pow2_pos|lra].
    - rewrite <- pow2_add. apply pow2_le. lia. }
  (* the error of the rounding, on the scale of the real *)
  assert (Qabs (inject_Z m1 * pow2 e' - y * pow2 ex) <= pow2 e' * (1 # 2))%Q
    as Herr'.
  { rewrite Hx.
    assert (inject_Z m1 * pow2 e' - y' * pow2 e'
            == (inject_Z m1 - y') * pow2 e')%Q as -> by ring.
    rewrite Qabs_Qmult, (Qabs_pos (pow2 e')) by lra.
    rewrite (Qmult_comm (pow2 e')).
    apply Qmult_le_compat_r; [done|lra]. }
  assert (0 <= y * pow2 ex)%Q as Hx0.
  { apply Qmult_le_0_compat; [|lra]. apply Qle_trans with (inject_Z mx); [|done].
    change 0%Q with (inject_Z 0). by rewrite <- Zle_Qle. }
  assert (ex <= f ->
          (pow2 e' * (1 # 2) <= eps64 * (y * pow2 ex) + tiny64)%Q) as HcaseA.
  { intros Hle. assert (e' = f) as -> by lia.
    destruct (Z.le_gt_cases (d + ex - 53) (-1074)) as [Hsub|Hnorm].
    - assert (f = -1074) as -> by lia.
      assert (pow2 (-1074) * (1 # 2) == tiny64)%Q as -> by reflexivity.
      assert (0 <= eps64 * (y * pow2 ex))%Q;
        [apply Qmult_le_0_compat; [done|lra]|lra].
    - assert (f = d + ex - 53) as Hf' by lia.
      assert (0 < mx) as Hpos.
      { destruct (Z.eq_dec mx 0) as [Hz|]; [|lia].
        subst mx. unfold d in *. simpl in *. lia. }
      specialize (Hxlow Hpos).
      assert (pow2 f * (1 # 2) == eps64 * pow2 (d - 1 + ex))%Q as ->.
      { unfold eps64. rewrite <- pow2_add, <- pow2_opp_1, <- pow2_add.
        by replace (f + -1) with (-53 + (d - 1 + ex)) by lia. }
      assert (0 <= tiny64)%Q by done.
      assert (eps64 * pow2 (d - 1 + ex) <= eps64 * (y * pow2 ex))%Q;
        [|lra].
      rewrite !(Qmult_comm eps64). apply Qmult_le_compat_r; [done|done]. }
  assert (Qabs (inject_Z m1 * pow2 e' - y * pow2 ex)
          <= eps64 * (y * pow2 ex) + tiny64)%Q as Hbound.
  { destruct (Z.le_gt_cases ex f) as [Hle|Hgt].
    - eapply Qle_trans; [exact Herr'|]. by apply HcaseA.
    - destruct Hex as [Hex|[-> Hex]]; [lia|].
      rewrite (Hns ltac:(lia)) in *. cbn [shr_record_of_loc shr_m loc_of_shr_record] in *.
      assert (e' = ex) as -> by lia.
      assert (m1 = mx) as -> by (by apply Hexact).
      cbn [located] in Hl.
      assert (inject_Z mx * pow2 ex - y * pow2 ex == 0)%Q as ->
        by (rewrite Hl; ring).
      assert (0 <= eps64 * (y * pow2 ex))%Q
        by (apply Qmult_le_0_compat; [done|lra]).
      assert (0 <= tiny64)%Q by done.
      change (Qabs 0) with 0%Q. lra. }
  (* the second alignment *)
  destruct (shr_fexp_rounded m1 e' ltac:(lia) ltac:(lia)) as
    [(Hlt & Hm'' & He'')|(Heq & Hm'' & He'')];
    destruct (shr_fexp prec emax m1 e' loc_Exact) as [r'' e''] eqn:E2;
    cbn [fst snd] in *; rewrite Hm''.
  - subst e''. destruct m1 as [|p|p] eqn:Ep; [| |lia].
    + split; [done|]. cbn [magnitude].
      assert (inject_Z 0 * pow2 e' - y * pow2 ex == 0 - y * pow2 ex)%Q as Hz
        by (change (inject_Z 0) with 0%Q; ring).
      by rewrite <- Hz.
    + destruct (Z.leb_spec e' (emax - prec)) as [Hfin|Hinf].
      * split; [done|]. exact Hbound.
      * split; [done|]. change (emax - prec) with 971 in *.
        destruct (Z.le_gt_cases ex f) as [Hle|Hgt].
        -- assert (e' = f) by lia. assert (f = d + ex - 53) by lia.
           assert (0 < mx) as Hpos.
           { destruct (Z.eq_dec mx 0) as [Hz|]; [|lia].
             subst mx. unfold d in *. simpl in *. lia. }
           eapply Qle_trans; [|exact (Hxlow Hpos)]. apply pow2_le. lia.
        -- destruct Hex as [Hex|[-> Hex]]; [lia|].
           change (emax - prec) with 971 in *. lia.
  - subst e''. change (2 ^ 52) with (Zpos (2 ^ 52)%positive).
    assert (inject_Z (Zpos (2 ^ 52)%positive) * pow2 (e' + 1)
            == inject_Z m1 * pow2 e')%Q as Hval.
    { rewrite Heq, pow2_succ.
      change (inject_Z (2 ^ 53)) with (2 * inject_Z (Zpos (2 ^ 52)%positive))%Q.
      ring. }
    cbv iota beta.
    destruct (Z.leb_spec (e' + 1) (emax - prec)) as [Hfin|Hinf].
    + split; [done|]. cbn [magnitude]. by rewrite Hval.
    + split; [done|]. change (emax - prec) with 971 in *.
      destruct (Z.le_gt_cases ex f) as [Hle|Hgt].
      * assert (e' = f) by lia. assert (f = d + ex - 53) by lia.
        assert (0 < mx) as Hpos.
        { destruct (Z.eq_dec mx 0) as [Hz|]; [|lia].
          subst mx. unfold d in *. simpl in *. lia. }
        eapply Qle_trans; [|exact (Hxlow Hpos)]. apply pow2_le. lia.
      * destruct Hex as [Hex|[-> Hex]]; [lia|].
        rewrite (Hns ltac:(lia)) in *.
        cbn [shr_record_of_loc shr_m loc_of_shr_record] in *.
        assert (m1 = mx) as Hmx by (by apply Hexact). lia.
Qed.

End Rounding.

Section Operations.

Lemma Zdigits2_unique (m d : Z) :
  0 <= d -> 2 ^ (d - 1) <= m < 2 ^ d -> 0 < m -> Zdigits2 m = d.
Proof.
  intros Hd [Hlo Hhi] Hm.
  assert (Zdigits2 m <= d) by (apply Zdigits2_le; lia).
  destruct (Z.eq_dec d 0) as [->|]; [simpl in *; lia|].
  assert (d - 1 + 1 <= Zdigits2 m) by (apply Zdigits2_ge; lia).
  lia.
Qed.

Lemma Zdigits2_shift (m k : Z) :
  0 < m -> 0 <= k -> Zdigits2 (m * 2 ^ k) = Zdigits2 m + k.
Proof.
  intros Hm Hk. pose proof (Zdigits2_bounds m Hm) as [Hlo Hhi].
  pose proof (Zdigits2_nonneg m).
  assert (1 <= Zdigits2 m).
  { destruct m; try lia. simpl. lia. }
  pose proof (Z.pow_pos_nonneg 2 k ltac:(lia) Hk).
  apply Zdigits2_unique; [lia| |nia].
  replace (Zdigits2 m + k - 1) with (Zdigits2 m - 1 + k) by lia.
  rewrite !Z.pow_add_r by lia. nia.
Qed.

Lemma Pos_iter_xO (m d : positive) :
  Zpos (Pos.iter xO m d) = Zpos m * 2 ^ Zpos d.
Proof.
  induction d as [|d IH] using Pos.peano_ind.
  - simpl. lia.
  - rewrite Pos.iter_succ, Pos2Z.inj_succ, Z.pow_succ_r by lia.
    rewrite Pos2Z.inj_xO, IH. lia.
Qed.

Lemma shl_align_spec (mx : positive) (ex ex' : Z) :
  snd (shl_align mx ex ex') = Z.min ex ex'
  /\ Zpos (fst (shl_align mx ex ex'))
     = Zpos mx * 2 ^ (ex - Z.min ex ex').
Proof.
  unfold shl_align. destruct (ex' - ex) as [|p|p] eqn:Hd; cbn [fst snd].
  - split; [lia|]. replace (ex - Z.min ex ex') with 0 by lia. lia.
  - split; [lia|]. replace (ex - Z.min ex ex') with 0 by lia. lia.
  - split; [lia|]. rewrite Pos_iter_xO. f_equal. f_equal. lia.
Qed.

Lemma shifted_value (m k e : Z) :
  0 <= k ->
  (inject_Z (m * 2 ^ k) * pow2 (e - k) == inject_Z m * pow2 e)%Q.
Proof.
  intros Hk. rewrite inject_Z_mult, <- pow2_Z by done.
  rewrite <- Qmult_assoc, <- pow2_add. by replace (k + (e - k)) with e by lia.
Qed.

(** [binary_round] rounds the magnitude [m * 2^e]. *)
Lemma binary_round_rounds (s : bool) (m : positive) (e : Z) :
  rounds s (inject_Z (Zpos m) * pow2 e) (binary_round prec emax s m e).
Proof.
  unfold binary_round.
  destruct (shl_align_spec m e (fexp prec emax (Zpos (digits2_pos m) + e)))
    as [He Hm].
  destruct (shl_align m e _) as [mz ez]. cbn [fst snd] in *.
  change (Zpos (digits2_pos m)) with (Zdigits2 (Zpos m)) in *.
  set (f := fexp prec emax (Zdigits2 (Zpos m) + e)) in *.
  rewrite <- He in Hm.
  assert (inject_Z (Zpos mz) * pow2 ez == inject_Z (Zpos m) * pow2 e)%Q as Hv.
  { rewrite Hm. rewrite <- (shifted_value (Zpos m) (e - ez) e) by lia.
    by replace (e - (e - ez)) with ez by lia. }
  apply (rounds_proper _ _ _ _ Hv).
  apply binary_round_aux_rounds; [lia|reflexivity|]. left.
  rewrite Hm, Zdigits2_shift by lia.
  replace (Zdigits2 (Zpos m) + (e - ez) + ez)
    with (Zdigits2 (Zpos m) + e) by lia.
  fold f. lia.
Qed.

(** [binary_normalize] rounds the integer [m] scaled by [2^e]. *)
Lemma binary_normalize_rounds (m e : Z) (szero : bool) :
  m <> 0 ->
  rounds (m <? 0) (inject_Z (Z.abs m) * pow2 e)
         (binary_normalize prec emax m e szero).
Proof.
  intros Hm. destruct m as [|p|p]; [done| |]; cbn [binary_normalize Z.abs].
  - apply binary_round_rounds.
  - apply binary_round_rounds.
Qed.

(** Exact results: a magnitude that fits the format is not changed. *)
Lemma binary_round_exact (s : bool) (m : positive) (e : Z) :
  Zpos m < 2 ^ 53 -> -1074 <= e -> e + Zdigits2 (Zpos m) <= 1024 ->
  exists m' e',
    binary_round prec emax s m e = S754_finite s m' e'
    /\ (inject_Z (Zpos m') * pow2 e' == inject_Z (Zpos m) * pow2 e)%Q
    /\ e' <= e.
Proof.
  intros Hm He Htop. unfold binary_round.
  destruct (shl_align_spec m e (fexp prec emax (Zpos (digits2_pos m) + e)))
    as [Hez Hmz].
  destruct (shl_align m e _) as [mz ez]. cbn [fst snd] in *.
  change (Zpos (digits2_pos m)) with (Zdigits2 (Zpos m)) in *.
  assert (Zdigits2 (Zpos m) <= 53) as Hd by (apply Zdigits2_le; lia).
  pose proof (Zdigits2_nonneg (Zpos m)).
  rewrite fexp_eq in *.
  assert (ez = Z.max (Zdigits2 (Zpos m) + e - 53) (-1074)) as Hez' by lia.
  rewrite <- Hez in Hmz.
  assert (Zdigits2 (Zpos mz) + ez = Zdigits2 (Zpos m) + e) as Hdz.
  { rewrite Hmz, Zdigits2_shift by lia. lia. }
  assert (inject_Z (Zpos mz) * pow2 ez == inject_Z (Zpos m) * pow2 e)%Q as Hv.
  { rewrite Hmz. rewrite <- (shifted_value (Zpos m) (e - ez) e) by lia.
    by replace (e - (e - ez)) with ez by lia. }
  exists mz, ez. split; [|split; [done|lia]].
  unfold binary_round_aux.
  destruct (shr_fexp_spec (Zpos mz) ez loc_Exact (inject_Z (Zpos mz)))
    as (He' & _ & _ & Hns); [lia|reflexivity|].
  rewrite fexp_eq, Hdz in *.
  destruct (shr_fexp prec emax (Zpos mz) ez loc_Exact) as [r' e'].
  cbn [fst snd] in *. rewrite Hns by lia.
  cbn [shr_record_of_loc shr_m loc_of_shr_record round_nearest_even].
  assert (e' = ez) as -> by lia.
  destruct (shr_fexp_spec (Zpos mz) ez loc_Exact (inject_Z (Zpos mz)))
    as (He'' & _ & _ & Hns'); [lia|reflexivity|].
  rewrite fexp_eq, Hdz in *.
  destruct (shr_fexp prec emax (Zpos mz) ez loc_Exact) as [r'' e''].
  cbn [fst snd] in *. rewrite Hns' by lia.
  cbn [shr_record_of_loc shr_m].
  assert (e'' = ez) as -> by lia.
  destruct (Z.leb_spec ez (emax - prec)) as [|Hbig]; [done|].
  change (emax - prec) with 971 in Hbig. lia.
Qed.

(** Multiplication of two finite numbers. *)
Lemma SFmul_rounds (sx sy : bool) (mx my : positive) (ex ey : Z) :
  bounded prec emax mx ex = true -> bounded prec emax my ey = true ->
  rounds (xorb sx sy)
         ((inject_Z (Zpos mx) * pow2 ex) * (inject_Z (Zpos my) * pow2 ey))
         (SF64mul (S754_finite sx mx ex) (S754_finite sy my ey)).
Proof.
  intros Hx Hy. unfold SF64mul, SFmul.
  assert (inject_Z (Zpos (mx * my)) * pow2 (ex + ey)
          == (inject_Z (Zpos mx) * pow2 ex) * (inject_Z (Zpos my) * pow2 ey))%Q
    as Hv.
  { rewrite Pos2Z.inj_mul, inject_Z_mult, pow2_add. ring. }
  apply (rounds_proper _ _ _ _ Hv).
  apply binary_round_aux_rounds; [lia|reflexivity|].
  unfold bounded, canonical_mantissa in *.
  apply andb_prop in Hx as [Hcx Hbx]. apply andb_prop in Hy as [Hcy Hby].
  apply Z.eqb_eq in Hcx, Hcy. apply Z.leb_le in Hbx, Hby.
  change (Zpos (digits2_pos mx)) with (Zdigits2 (Zpos mx)) in *.
  change (Zpos (digits2_pos my)) with (Zdigits2 (Zpos my)) in *.
  rewrite fexp_eq in *. change (emax - prec) with 971 in *.
  destruct (Z.le_gt_cases (ex + ey) 971) as [Hle|Hgt]; [by right|left].
  pose proof (Zdigits2_bounds (Zpos mx) ltac:(lia)) as [Hlx _].
  pose proof (Zdigits2_bounds (Zpos my) ltac:(lia)) as [Hly _].
  assert (Zdigits2 (Zpos mx) = 53) as Hdx by lia.
  assert (Zdigits2 (Zpos my) = 53) as Hdy by lia.
  rewrite Hdx in Hlx. rewrite Hdy in Hly.
  assert (104 + 1 <= Zdigits2 (Zpos (mx * my))).
  { apply Zdigits2_ge; [|lia]. rewrite Pos2Z.inj_mul.
    change (2 ^ 104) with (2 ^ (53 - 1) * 2 ^ (53 - 1)). nia. }
  lia.
Qed.

Lemma aligned_value (mx : positive) (ex ez : Z) :
  ez <= ex ->
  (inject_Z (Zpos (fst (shl_align mx ex ez))) * pow2 ez
   == inject_Z (Zpos mx) * pow2 ex)%Q.
Proof.
  intros He. destruct (shl_align_spec mx ex ez) as [_ ->].
  replace (Z.min ex ez) with ez by lia.
  rewrite <- (shifted_value (Zpos mx) (ex - ez) ex) by lia.
  by replace (ex - (ex - ez)) with ez by lia.
Qed.

(** Addition of two positive finite numbers. *)
Lemma SFadd_rounds (mx my : positive) (ex ey : Z) :
  rounds false
         (inject_Z (Zpos mx) * pow2 ex + inject_Z (Zpos my) * pow2 ey)
         (SF64add (S754_finite false mx ex) (S754_finite false my ey)).
Proof.
  unfold SF64add, SFadd. cbn [cond_Zopp].
  set (ez := Z.min ex ey).
  pose proof (aligned_value mx ex ez ltac:(lia)) as Hx.
  pose proof (aligned_value my ey ez ltac:(lia)) as Hy.
  destruct (shl_align mx ex ez) as [ax ?], (shl_align my ey ez) as [ay ?].
  cbn [fst] in *. cbn [Z.add binary_normalize].
  assert (inject_Z (Zpos (ax + ay)) * pow2 ez
          == inject_Z (Zpos mx) * pow2 ex + inject_Z (Zpos my) * pow2 ey)%Q
    as Hv.
  { rewrite <- Hx, <- Hy, Pos2Z.inj_add, inject_Z_plus. ring. }
  apply (rounds_proper _ _ _ _ Hv). apply binary_round_rounds.
Qed.

(** Subtraction of a smaller positive finite number from a larger. *)
Lemma SFsub_rounds (mx my : positive) (ex ey : Z) :
  (inject_Z (Zpos my) * pow2 ey < inject_Z (Zpos mx) * pow2 ex)%Q ->
  rounds false
         (inject_Z (Zpos mx) * pow2 ex - inject_Z (Zpos my) * pow2 ey)
         (SF64sub (S754_finite false mx ex) (S754_finite false my ey)).
Proof.
  intros Hlt. unfold SF64sub, SFsub. cbn [cond_Zopp].
  set (ez := Z.min ex ey).
  pose proof (aligned_value mx ex ez ltac:(lia)) as Hx.
  pose proof (aligned_value my ey ez ltac:(lia)) as Hy.
  destruct (shl_align mx ex ez) as [ax ?], (shl_align my ey ez) as [ay ?].
  cbn [fst] in *.
  assert (inject_Z (Zpos ax - Zpos ay) * pow2 ez
          == inject_Z (Zpos mx) * pow2 ex - inject_Z (Zpos my) * pow2 ey)%Q
    as Hv.
  { rewrite <- Hx, <- Hy. unfold Z.sub.
    rewrite inject_Z_plus, inject_Z_opp. ring. }
  assert (0 < Zpos ax - Zpos ay) as Hpos.
  { rewrite <- Hx, <- Hy in Hlt. pose proof (pow2_pos ez).
    assert (inject_Z (Zpos ay) < inject_Z (Zpos ax))%Q as H'.
    { apply Qmult_lt_r with (pow2 ez); done. }
    rewrite <- Zlt_Qlt in H'. lia. }
  destruct (Zpos ax - Zpos ay) as [|p|p] eqn:Hd; [lia| |lia].
  cbn [binary_normalize].
  apply (rounds_proper _ _ _ _ Hv). apply binary_round_rounds.
Qed.

(** The difference of two positive numbers, the smaller first. *)
Lemma SFsub_rounds_below (mx my : positive) (ex ey : Z) :
  (inject_Z (Zpos mx) * pow2 ex < inject_Z (Zpos my) * pow2 ey)%Q ->
  rounds true
         (inject_Z (Zpos my) * pow2 ey - inject_Z (Zpos mx) * pow2 ex)
         (SF64sub (S754_finite false mx ex) (S754_finite false my ey)).
Proof.
  intros Hlt. unfold SF64sub, SFsub. cbn [cond_Zopp].
  set (ez := Z.min ex ey).
  pose proof (aligned_value mx ex ez ltac:(lia)) as Hx.
  pose proof (aligned_value my ey ez ltac:(lia)) as Hy.
  destruct (shl_align mx ex ez) as [ax ?], (shl_align my ey ez) as [ay ?].
  cbn [fst] in *.
  assert (inject_Z (Zpos ay - Zpos ax) * pow2 ez
          == inject_Z (Zpos my) * pow2 ey - inject_Z (Zpos mx) * pow2 ex)%Q
    as Hv.
  { rewrite <- Hx, <- Hy. unfold Z.sub.
    rewrite inject_Z_plus, inject_Z_opp. ring. }
  assert (0 < Zpos ay - Zpos ax) as Hpos.
  { rewrite <- Hx, <- Hy in Hlt. pose proof (pow2_pos ez).
    assert (inject_Z (Zpos ax) < inject_Z (Zpos ay))%Q as H'.
    { apply Qmult_lt_r with (pow2 ez); done. }
    rewrite <- Zlt_Qlt in H'. lia. }
  destruct (Zpos ax - Zpos ay) as [|p|p] eqn:Hd; [lia|lia|].
  cbn [binary_normalize].
  assert (Zpos ay - Zpos ax = Zpos p) as Hp by lia.
  rewrite Hp in Hv.
  apply (rounds_proper _ _ _ _ Hv). apply binary_round_rounds.
Qed.

Lemma new_location_located (nb k q : Z) (y : Q) :
  0 < nb -> 0 <= k < nb ->
  (y * inject_Z nb == inject_Z q * inject_Z nb + inject_Z k)%Q ->
  located q (new_location nb k) y.
Proof.
  intros Hnb Hk Hy.
  assert (0 < inject_Z nb)%Q as Hn
    by (change 0%Q with (inject_Z 0); by rewrite <- Zlt_Qlt).
  assert (0 <= inject_Z k)%Q as Hk0
    by (change 0%Q with (inject_Z 0); rewrite <- Zle_Qle; lia).
  assert (inject_Z k < inject_Z nb)%Q as Hk1 by (rewrite <- Zlt_Qlt; lia).
  assert (forall a b : Z, inject_Z (2 * a + b) == 2 * inject_Z a + inject_Z b)%Q
    as H2 by (intros; rewrite inject_Z_plus, inject_Z_mult; reflexivity).
  assert (y == inject_Z q + inject_Z k / inject_Z nb)%Q as Hyq.
  { apply Qmult_inj_r with (inject_Z nb); [lra|]. rewrite Hy. field. lra. }
  set (t := (inject_Z k / inject_Z nb)%Q) in *.
  assert (t * inject_Z nb == inject_Z k)%Q as Ht by (unfold t; field; lra).
  clearbody t.
  assert (forall c : Q, (c * inject_Z nb < inject_Z k -> c < t)%Q) as Hlo.
  { intros c Hc. apply Qmult_lt_r with (inject_Z nb); [done|]. by rewrite Ht. }
  assert (forall c : Q, (inject_Z k < c * inject_Z nb -> t < c)%Q) as Hhi.
  { intros c Hc. apply Qmult_lt_r with (inject_Z nb); [done|]. by rewrite Ht. }
  assert (forall c : Q, (inject_Z k == c * inject_Z nb -> t == c)%Q) as Heq.
  { intros c Hc. apply Qmult_inj_r with (inject_Z nb); [lra|]. by rewrite Ht. }
  assert (k = 0 -> (t == 0)%Q) as Ht0.
  { intros ->. apply Heq. change (inject_Z 0) with 0%Q. ring. }
  assert (k <> 0 -> (0 < t /\ t < 1)%Q) as Ht1.
  { intros Hk'.
    assert (0 < inject_Z k)%Q by (change 0%Q with (inject_Z 0);
                                   rewrite <- Zlt_Qlt; lia).
    split; [apply Hlo|apply Hhi]; lra. }
  assert (2 * k < nb -> (t < 1 # 2)%Q) as Hlt.
  { intros Hc. apply Hhi.
    assert (2 * inject_Z k < inject_Z nb)%Q; [|lra].
    change 2%Q with (inject_Z 2). rewrite <- inject_Z_mult, <- Zlt_Qlt. lia. }
  assert (nb < 2 * k -> (1 # 2 < t)%Q) as Hgt.
  { intros Hc. apply Hlo.
    assert (inject_Z nb < 2 * inject_Z k)%Q; [|lra].
    change 2%Q with (inject_Z 2). rewrite <- inject_Z_mult, <- Zlt_Qlt. lia. }
  assert (2 * k = nb -> (t == 1 # 2)%Q) as Hmid.
  { intros Hc. apply Heq.
    assert (inject_Z nb == 2 * inject_Z k)%Q as ->; [|field].
    rewrite <- Hc, inject_Z_mult. reflexivity. }
  unfold new_location.
  destruct (Z.even nb) eqn:Hev;
    unfold new_location_even, new_location_odd;
    destruct (Z.eqb_spec k 0) as [Hk'|Hk'].
  - specialize (Ht0 Hk'). cbn [located]. lra.
  - specialize (Ht1 Hk').
    destruct (Z.compare_spec (2 * k) nb) as [Hc|Hc|Hc]; cbn [located].
    + specialize (Hmid Hc). lra.
    + specialize (Hlt Hc). lra.
    + specialize (Hgt Hc). lra.
  - specialize (Ht0 Hk'). cbn [located]. lra.
  - specialize (Ht1 Hk').
    assert (2 * k <> nb) as Hodd.
    { intros <-. rewrite Z.even_mul in Hev. done. }
    destruct (Z.compare_spec (2 * k + 1) nb) as [Hc|Hc|Hc]; cbn [located].
    + specialize (Hlt ltac:(lia)). lra.
    + specialize (Hlt ltac:(lia)). lra.
    + specialize (Hgt ltac:(lia)). lra.
Qed.

(** Division of two finite numbers: the quotient [x] is given by
    [x * Y == X]. *)
Lemma SFdiv_rounds (sx sy : bool) (mx my : positive) (ex ey : Z) (x : Q) :
  (x * (inject_Z (Zpos my) * pow2 ey) == inject_Z (Zpos mx) * pow2 ex)%Q ->
  rounds (xorb sx sy) x
         (SF64div (S754_finite sx mx ex) (S754_finite sy my ey)).
Proof.
  intros Hx. unfold SF64div, SFdiv, SFdiv_core_binary.
  set (d1 := Zdigits2 (Zpos mx)). set (d2 := Zdigits2 (Zpos my)).
  set (e' := Z.min (fexp prec emax (d1 + ex - (d2 + ey))) (ex - ey)).
  set (s := ex - ey - e').
  assert (0 <= s) as Hs by (unfold s, e'; lia).
  set (m' := match s with
             | 0 => Zpos mx
             | Zpos _ => Z.shiftl (Zpos mx) s
             | Zneg _ => 0
             end).
  assert (m' = Zpos mx * 2 ^ s) as Hm'.
  { unfold m'. destruct s as [|p|p] eqn:Es; [lia| |lia].
    by rewrite Z.shiftl_mul_pow2. }
  clearbody m'.
  pose proof (Z_div_mod m' (Zpos my) ltac:(lia)) as Hdm.
  destruct (Z.div_eucl m' (Zpos my)) as [q r]. destruct Hdm as [Hq Hr].
  pose proof (Z.pow_pos_nonneg 2 s ltac:(lia) Hs) as Hps.
  assert (0 <= q) as Hq0 by nia.
  pose proof (pow2_pos e') as Hpe. pose proof (pow2_pos ey) as Hpey.
  assert (0 < inject_Z (Zpos my))%Q as Hmy by done.
  set (y := (x * pow2 (- e'))%Q).
  assert (y * pow2 e' == x)%Q as Hy.
  { unfold y. rewrite <- Qmult_assoc, <- pow2_add.
    replace (- e' + e') with 0 by lia. rewrite pow2_0. ring. }
  apply (rounds_proper _ _ _ _ Hy).
  apply binary_round_aux_rounds; [done| |].
  - apply new_location_located; [lia|lia|].
    assert (inject_Z q * inject_Z (Zpos my) + inject_Z r
            == inject_Z (Zpos mx) * pow2 s)%Q as ->.
    { rewrite <- inject_Z_mult, <- inject_Z_plus, (Z.mul_comm q), <- Hq, Hm'.
      by rewrite inject_Z_mult, <- pow2_Z. }
    apply Qmult_inj_r with (pow2 ey); [lra|].
    transitivity (x * (inject_Z (Zpos my) * pow2 ey) * pow2 (- e'))%Q;
      [unfold y; ring|].
    rewrite Hx. rewrite <- !Qmult_assoc, <- !pow2_add.
    by replace (ex + - e') with (s + ey) by (unfold s; lia).
  - left. rewrite fexp_eq.
    destruct (Z.le_gt_cases e' (-1074)) as [|Hbig]; [lia|].
    assert (2 ^ 52 <= q) as Hq52.
    { pose proof (Zdigits2_bounds (Zpos mx) ltac:(lia)) as [Hl1 _].
      pose proof (Zdigits2_bounds (Zpos my) ltac:(lia)) as [_ Hh2].
      fold d1 in Hl1. fold d2 in Hh2.
      assert (1 <= d1) by (unfold d1; simpl; lia).
      assert (1 <= d2) by (unfold d2; simpl; lia).
      unfold e' in Hbig. rewrite fexp_eq in Hbig.
      assert (53 - d1 + d2 <= s) by (unfold s, e'; rewrite fexp_eq; lia).
      assert (2 ^ (52 + d2) <= m') as Hbigm.
      { rewrite Hm'.
        apply Z.le_trans with (2 ^ (d1 - 1 + s)).
        - apply Z.pow_le_mono_r; lia.
        - rewrite Z.pow_add_r by lia. nia. }
      rewrite Z.pow_add_r in Hbigm by lia.
      destruct (Z.le_gt_cases (2 ^ 52) q) as [|Hsmall]; [done|]. nia. }
    assert (52 + 1 <= Zdigits2 q) by (apply Zdigits2_ge; lia).
    lia.
Qed.

End Operations.

Section Primitive.

Lemma valueOf_nonneg f : finiteNonneg f -> (0 <= valueOf f)%Q.
Proof.
  unfold finiteNonneg, valueOf. destruct (Prim2SF f) as [| | |[] m e]; try done.
  intros _. cbn [cond_Zopp]. pose proof (pow2_pos e).
  apply Qmult_le_0_compat; [done|lra].
Qed.

Lemma rounds_nearly (x : Q) (f : float) :
  rounds false x (Prim2SF f) -> nearly x f.
Proof.
  unfold rounds, nearly, finiteNonneg, valueOf, magnitude.
  destruct (Prim2SF f) as [s|s| |s m e]; [| |done|].
  - intros [_ H]. left. done.
  - intros [-> H]. by right.
  - intros [-> H]. left. done.
Qed.

Lemma nearly_zero (f : float) (s : bool) (x : Q) :
  Prim2SF f = S754_zero s -> (x == 0)%Q -> nearly x f.
Proof.
  intros Hf Hx. left. unfold finiteNonneg, valueOf. rewrite Hf.
  split; [done|]. rewrite Hx. vm_compute. discriminate.
Qed.

Lemma nearly_finite (x : Q) (f : float) :
  nearly x f -> (x < pow2 1023)%Q ->
  finiteNonneg f /\ (Qabs (valueOf f - x) <= eps64 * x + tiny64)%Q.
Proof. intros [H|[_ H]] Hx; [done|lra]. Qed.

Lemma finite_bounded f s m e :
  Prim2SF f = S754_finite s m e -> bounded prec emax m e = true.
Proof. intros Hf. pose proof (Prim2SF_valid f) as Hv. by rewrite Hf in Hv. Qed.

(** The product of two numbers that are finite and not negative. *)
Lemma mul_nearly (a b : float) :
  finiteNonneg a -> finiteNonneg b -> nearly (valueOf a * valueOf b) (a * b).
Proof.
  unfold finiteNonneg, valueOf. intros Ha Hb.
  pose proof (FloatAxioms.mul_spec a b) as Hm.
  destruct (Prim2SF a) as [sa| | |[] ma ea] eqn:Ea; try done;
    destruct (Prim2SF b) as [sb| | |[] mb eb] eqn:Eb; try done.
  - eapply nearly_zero; [exact Hm|ring].
  - eapply nearly_zero; [exact Hm|ring].
  - eapply nearly_zero; [exact Hm|ring].
  - apply rounds_nearly. rewrite Hm. cbn [cond_Zopp].
    apply (SFmul_rounds false false);
      [exact (finite_bounded _ _ _ _ Ea)|exact (finite_bounded _ _ _ _ Eb)].
Qed.

(** The sum of two numbers that are finite and not negative. *)
Lemma add_nearly (a b : float) :
  finiteNonneg a -> finiteNonneg b -> nearly (valueOf a + valueOf b) (a + b).
Proof.
  intros Ha Hb. pose proof (FloatAxioms.add_spec a b) as Hm.
  pose proof (valueOf_nonneg _ Ha) as Ha0.
  pose proof (valueOf_nonneg _ Hb) as Hb0.
  unfold finiteNonneg, valueOf in *.
  destruct (Prim2SF a) as [sa| | |[] ma ea] eqn:Ea; try done;
    destruct (Prim2SF b) as [sb| | |[] mb eb] eqn:Eb; try done.
  - eapply (nearly_zero _ (if sa then if sb then true else false
                           else false)); [|ring].
    rewrite Hm. by destruct sa, sb.
  - left. unfold finiteNonneg, valueOf. rewrite Hm. cbn [SF64add SFadd].
    split; [done|]. cbn [cond_Zopp] in *.
    assert (inject_Z (Zpos mb) * pow2 eb - (0 + inject_Z (Zpos mb) * pow2 eb)
            == 0)%Q as -> by ring.
    change (Qabs 0) with 0%Q.
    assert (0 <= eps64 * (0 + inject_Z (Zpos mb) * pow2 eb))%Q
      by (apply Qmult_le_0_compat; [done|lra]).
    assert (0 <= tiny64)%Q by done. lra.
  - left. unfold finiteNonneg, valueOf. rewrite Hm. cbn [SF64add SFadd].
    split; [done|]. cbn [cond_Zopp] in *.
    assert (inject_Z (Zpos ma) * pow2 ea - (inject_Z (Zpos ma) * pow2 ea + 0)
            == 0)%Q as -> by ring.
    change (Qabs 0) with 0%Q.
    assert (0 <= eps64 * (inject_Z (Zpos ma) * pow2 ea + 0))%Q
      by (apply Qmult_le_0_compat; [done|lra]).
    assert (0 <= tiny64)%Q by done. lra.
  - apply rounds_nearly. rewrite Hm. cbn [cond_Zopp]. apply SFadd_rounds.
Qed.

(** The difference of two positive finite numbers, the larger first. *)
Lemma sub_nearly (a b : float) :
  finiteNonneg a -> finiteNonneg b -> (0 < valueOf b)%Q ->
  (valueOf b < valueOf a)%Q ->
  nearly (valueOf a - valueOf b) (a - b).
Proof.
  intros Ha Hb Hb0 Hab. pose proof (FloatAxioms.sub_spec a b) as Hm.
  unfold finiteNonneg, valueOf in *.
  destruct (Prim2SF a) as [sa| | |[] ma ea] eqn:Ea; try done;
    destruct (Prim2SF b) as [sb| | |[] mb eb] eqn:Eb; try done;
    try lra.
  apply rounds_nearly. rewrite Hm. cbn [cond_Zopp] in *.
  by apply SFsub_rounds.
Qed.

(** The quotient of a number that is finite and not negative by a positive
    finite number. *)
Lemma div_nearly (a b : float) (x : Q) :
  finiteNonneg a -> finiteNonneg b -> (0 < valueOf b)%Q ->
  (x * valueOf b == valueOf a)%Q ->
  nearly x (a / b).
Proof.
  intros Ha Hb Hb0 Hx. pose proof (FloatAxioms.div_spec a b) as Hm.
  unfold finiteNonneg, valueOf in *.
  destruct (Prim2SF a) as [sa| | |[] ma ea] eqn:Ea; try done;
    destruct (Prim2SF b) as [sb| | |[] mb eb] eqn:Eb; try done;
    try lra.
  - eapply nearly_zero; [exact Hm|].
    apply Qmult_integral in Hx as [Hx|Hx]; [done|lra].
  - apply rounds_nearly. rewrite Hm. cbn [cond_Zopp] in *.
    by apply (SFdiv_rounds false false).
Qed.

End Primitive.

Section Conversions.

Import Binary64.

Lemma ofInt_exact (n : Z) :
  0 <= n < 2 ^ 53 ->
  finiteNonneg (ofInt n) /\ (valueOf (ofInt n) == inject_Z n)%Q.
Proof.
  intros Hn. unfold ofInt, finiteNonneg, valueOf.
  destruct (Z.leb_spec 0 n) as [_|]; [|lia].
  rewrite of_uint63_spec, Uint63.of_Z_spec.
  rewrite Z.mod_small by (change wB with (2 ^ 63); lia).
  destruct n as [|p|p]; [done| |lia]. cbn [binary_normalize].
  destruct (binary_round_exact false p 0) as (m' & e' & -> & Hv & _);
    [lia|lia| |].
  - assert (Zdigits2 (Zpos p) <= 53) by (apply Zdigits2_le; lia). lia.
  - split; [done|]. cbn [cond_Zopp]. rewrite Hv, pow2_0. ring.
Qed.

Lemma Qfloor_scaled (m : positive) (e : Z) :
  Qfloor (inject_Z (Zpos m) * pow2 e)
  = if 0 <=? e then Zpos m * 2 ^ e else Z.quot (Zpos m) (2 ^ (- e)).
Proof.
  destruct (Z.leb_spec 0 e) as [He|He].
  - rewrite pow2_Z, <- inject_Z_mult by done. apply Qfloor_Z.
  - assert (0 < 2 ^ (- e)) by (apply Z.pow_pos_nonneg; lia).
    rewrite Z.quot_div_nonneg by lia. rewrite Zdiv_Qdiv.
    apply Qfloor_comp. unfold Qdiv.
    apply Qmult_comp; [reflexivity|].
    rewrite <- pow2_Z by lia. unfold pow2.
    rewrite <- Qpower_opp. by replace (- - e) with e by lia.
Qed.

(** Conversion to [int] of a number that is finite, not negative and
    below 2^63 is the floor of its value. *)
Lemma toInt_floor (f : float) :
  finiteNonneg f -> (valueOf f < inject_Z (2 ^ 63))%Q ->
  toInt f = Qfloor (valueOf f).
Proof.
  unfold finiteNonneg, valueOf, toInt.
  destruct (Prim2SF f) as [s| | |[] m e]; try done.
  intros _ Hv. cbn [cond_Zopp] in *. rewrite <- Qfloor_scaled.
  set (v := Qfloor (inject_Z (Zpos m) * pow2 e)).
  assert (0 <= v).
  { unfold v. change 0 with (Qfloor 0). apply Qfloor_resp_le.
    pose proof (pow2_pos e). apply Qmult_le_0_compat; [done|lra]. }
  assert (v < 2 ^ 63).
  { rewrite Zlt_Qlt. eapply Qle_lt_trans; [apply Qfloor_le|exact Hv]. }
  unfold minInt64.
  destruct (Z.leb_spec (- 2 ^ 63) v); [|lia].
  destruct (Z.ltb_spec v (2 ^ 63)); [done|lia].
Qed.

Lemma bounded_digits (m : positive) (e : Z) :
  bounded prec emax m e = true ->
  Zpos m < 2 ^ 53 /\ -1074 <= e <= 971
  /\ (-1074 < e -> 2 ^ 52 <= Zpos m).
Proof.
  intros Hb. unfold bounded, canonical_mantissa in Hb.
  apply andb_prop in Hb as [Hc Hb]. apply Z.eqb_eq in Hc. apply Z.leb_le in Hb.
  change (Zpos (digits2_pos m)) with (Zdigits2 (Zpos m)) in Hc.
  rewrite fexp_eq in Hc. change (emax - prec) with 971 in Hb.
  pose proof (Zdigits2_bounds (Zpos m) ltac:(lia)) as [Hlo Hhi].
  split; [|split; [lia|]].
  - eapply Z.lt_le_trans; [exact Hhi|]. apply Z.pow_le_mono_r; lia.
  - intros He. assert (Zdigits2 (Zpos m) = 53) as Hd by lia.
    by rewrite Hd in Hlo.
Qed.

Lemma scaled_lt (m1 m2 : positive) (e1 e2 : Z) :
  Zpos m1 < 2 ^ 53 -> 2 ^ 52 <= Zpos m2 -> e1 < e2 ->
  (inject_Z (Zpos m1) * pow2 e1 < inject_Z (Zpos m2) * pow2 e2)%Q.
Proof.
  intros H1 H2 He. pose proof (pow2_pos e1). pose proof (pow2_pos e2).
  apply Qlt_le_trans with (pow2 53 * pow2 e1)%Q.
  - apply Qmult_lt_compat_r; [done|]. rewrite pow2_Z by lia.
    by rewrite <- Zlt_Qlt.
  - apply Qle_trans with (pow2 52 * pow2 e2)%Q.
    + rewrite <- !pow2_add. apply pow2_le. lia.
    + apply Qmult_le_compat_r; [|lra]. rewrite pow2_Z by lia.
      by rewrite <- Zle_Qle.
Qed.

(** The order of two positive finite numbers is the order of their
    values. *)
Lemma finite_compare (m1 m2 : positive) (e1 e2 : Z) :
  bounded prec emax m1 e1 = true -> bounded prec emax m2 e2 = true ->
  match SFcompare (S754_finite false m1 e1) (S754_finite false m2 e2) with
  | Some Lt =>
      (inject_Z (Zpos m1) * pow2 e1 < inject_Z (Zpos m2) * pow2 e2)%Q
  | Some Eq =>
      (inject_Z (Zpos m1) * pow2 e1 == inject_Z (Zpos m2) * pow2 e2)%Q
  | Some Gt =>
      (inject_Z (Zpos m2) * pow2 e2 < inject_Z (Zpos m1) * pow2 e1)%Q
  | None => False
  end.
Proof.
  intros H1 H2.
  destruct (bounded_digits _ _ H1) as (Hm1 & He1 & Hn1).
  destruct (bounded_digits _ _ H2) as (Hm2 & He2 & Hn2).
  cbn [SFcompare].
  destruct (Z.compare_spec e1 e2) as [->|Hlt|Hgt].
  - rewrite Pos.compare_cont_spec. cbn [Pos.switch_Eq].
    pose proof (pow2_pos e2).
    destruct (Pos.compare_spec m1 m2) as [->|Hc|Hc].
    + reflexivity.
    + apply Qmult_lt_compat_r; [done|]. rewrite <- Zlt_Qlt. lia.
    + apply Qmult_lt_compat_r; [done|]. rewrite <- Zlt_Qlt. lia.
  - apply scaled_lt; [done| |done]. apply Hn2. lia.
  - apply scaled_lt; [done| |done]. apply Hn1. lia.
Qed.

(** Comparisons of numbers that are finite and not negative. *)
Lemma ltb_value (a b : float) :
  finiteNonneg a -> finiteNonneg b ->
  (a <? b)%float = true <-> (valueOf a < valueOf b)%Q.
Proof.
  intros Ha Hb. rewrite FloatAxioms.ltb_spec.
  pose proof (finite_bounded a) as Ba. pose proof (finite_bounded b) as Bb.
  unfold finiteNonneg, valueOf, SFltb in *.
  destruct (Prim2SF a) as [sa| | |[] ma ea]; try done;
    destruct (Prim2SF b) as [sb| | |[] mb eb]; try done; cbn [cond_Zopp].
  - cbn [SFcompare]. pose proof (pow2_pos eb).
    split; [intros _|done]. apply Qmult_lt_0_compat; [done|lra].
  - cbn [SFcompare]. pose proof (pow2_pos ea).
    assert (0 < inject_Z (Zpos ma) * pow2 ea)%Q
      by (apply Qmult_lt_0_compat; [done|lra]).
    split; [done|lra].
  - pose proof (finite_compare ma mb ea eb (Ba _ _ _ eq_refl)
                  (Bb _ _ _ eq_refl)) as Hc.
    destruct (SFcompare _ _) as [[]|]; [| | |done]; split; try done; lra.
Qed.

Lemma leb_value (a b : float) :
  finiteNonneg a -> finiteNonneg b ->
  (a <=? b)%float = true <-> (valueOf a <= valueOf b)%Q.
Proof.
  intros Ha Hb. rewrite FloatAxioms.leb_spec.
  pose proof (finite_bounded a) as Ba. pose proof (finite_bounded b) as Bb.
  unfold finiteNonneg, valueOf, SFleb in *.
  destruct (Prim2SF a) as [sa| | |[] ma ea]; try done;
    destruct (Prim2SF b) as [sb| | |[] mb eb]; try done; cbn [cond_Zopp].
  - cbn [SFcompare]. pose proof (pow2_pos eb).
    assert (0 < inject_Z (Zpos mb) * pow2 eb)%Q
      by (apply Qmult_lt_0_compat; [done|lra]).
    split; [lra|done].
  - cbn [SFcompare]. pose proof (pow2_pos ea).
    assert (0 < inject_Z (Zpos ma) * pow2 ea)%Q
      by (apply Qmult_lt_0_compat; [done|lra]).
    split; [done|lra].
  - pose proof (finite_compare ma mb ea eb (Ba _ _ _ eq_refl)
                  (Bb _ _ _ eq_refl)) as Hc.
    destruct (SFcompare _ _) as [[]|]; [| | |done]; split; try done; lra.
Qed.

(** A number that is at least 0 is +Inf or finite and not negative; a NaN
    is not. *)
Lemma leb_zero (w : float) :
  (0 <=? w)%float = true ->
  finiteNonneg w \/ Prim2SF w = S754_infinity false.
Proof.
  rewrite FloatAxioms.leb_spec. change (Prim2SF 0) with (S754_zero false).
  unfold finiteNonneg, SFleb.
  destruct (Prim2SF w) as [s|[]| |[] m e]; cbn [SFcompare]; try done;
    auto.
Qed.

(** The weights that pass [weightOk] are finite and at most 2. *)
Lemma weightOk_spec (w : float) :
  weightOk w = true -> finiteNonneg w /\ (valueOf w <= 2)%Q.
Proof.
  unfold weightOk. intros H. apply andb_prop in H as [H0 H2].
  destruct (leb_zero w H0) as [Hw|Hw].
  - split; [done|]. apply (leb_value w 2) in H2; [|done|done].
    eapply Qle_trans; [exact H2|]. vm_compute. discriminate.
  - rewrite FloatAxioms.leb_spec, Hw in H2. done.
Qed.

End Conversions.

(** ** The allocator *)

Section Allocator.

Implicit Types (m allocation : gmap string Z) (weights : gmap string float).

Lemma sumAlloc_empty : sumAlloc ∅ = 0.
Proof. apply map_fold_empty. Qed.

Lemma sumAlloc_insert m (k : string) (x : Z) :
  m !! k = None -> sumAlloc (<[k := x]> m) = x + sumAlloc m.
Proof.
  intros Hk. unfold sumAlloc.
  rewrite map_fold_insert_L; [done| |done]. intros; lia.
Qed.

(** The first loop stores every rounded share and sums them. *)
Lemma allocate_fold (total : Z) weights :
  map_fold (allocateStep total) (∅, 0) weights
  = (roundedShare total <$> weights,
     sumAlloc (roundedShare total <$> weights)).
Proof.
  apply (map_fold_weak_ind
           (fun r w => r = (roundedShare total <$> w,
                            sumAlloc (roundedShare total <$> w)))).
  - by rewrite fmap_empty, sumAlloc_empty.
  - intros k w m r Hk ->. unfold allocateStep. simpl.
    rewrite fmap_insert, sumAlloc_insert by (by rewrite lookup_fmap, Hk).
    f_equal. lia.
Qed.

(** The second loop rewrites every entry in place. *)
Lemma adjust_fold (ratio : float) allocation :
  map_fold (adjustStep ratio) allocation allocation
  = adjusted ratio <$> allocation.
Proof.
  assert (forall m, m ⊆ allocation ->
            map_fold (adjustStep ratio) allocation m
            = (adjusted ratio <$> m) ∪ allocation) as Hgen.
  { intros m. apply (map_fold_weak_ind
      (fun r m => m ⊆ allocation -> r = (adjusted ratio <$> m) ∪ allocation)).
    - intros _. by rewrite fmap_empty, (left_id_L ∅ (∪)).
    - intros k x m' r Hk IH Hsub.
      assert (m' ⊆ allocation) as Hsub'.
      { etrans; [|exact Hsub]. by apply insert_subseteq. }
      rewrite (IH Hsub'). unfold adjustStep.
      assert (allocation !! k = Some x) as Hx.
      { eapply lookup_weaken; [|exact Hsub]. by rewrite lookup_insert_eq. }
      rewrite lookup_total_alt, lookup_union_r, Hx
        by (by rewrite lookup_fmap, Hk).
      simpl. rewrite fmap_insert, <- insert_union_l. f_equal.
      unfold adjusted.
      destruct (Z.ltb_spec (Binary64.toInt (Binary64.ofInt x * ratio)) 1);
        lia. }
  rewrite Hgen by done. apply map_eq. intros k.
  rewrite lookup_union, lookup_fmap. by destruct (allocation !! k).
Qed.

(** [AllocateTokens] in closed form. *)
Lemma AllocateTokens_eq (tb : TokenBudget) :
  AllocateTokens tb =
    if sumAlloc (roundedShare (Total tb) <$> Percentages tb) >? Total tb
    then adjusted (Binary64.ofInt (Total tb)
                   / Binary64.ofInt (sumAlloc (roundedShare (Total tb)
                                                 <$> Percentages tb)))
           <$> (roundedShare (Total tb) <$> Percentages tb)
    else roundedShare (Total tb) <$> Percentages tb.
Proof.
  unfold AllocateTokens. rewrite allocate_fold.
  destruct (_ >? _); [|done]. apply adjust_fold.
Qed.

(** The allocation holds exactly the components of the weights. *)
Lemma AllocateTokens_None (tb : TokenBudget) (k : string) :
  Percentages tb !! k = None -> AllocateTokens tb !! k = None.
Proof.
  intros Hk. rewrite AllocateTokens_eq.
  destruct (_ >? _); by rewrite ?lookup_fmap, Hk.
Qed.

Lemma AllocateTokens_Some (tb : TokenBudget) (k : string) (w : float) :
  Percentages tb !! k = Some w -> is_Some (AllocateTokens tb !! k).
Proof.
  intros Hk. rewrite AllocateTokens_eq.
  destruct (_ >? _); rewrite ?lookup_fmap, Hk; by eexists.
Qed.

End Allocator.

Section Shares.

Import Binary64.

Lemma eps64_value : (eps64 == 1 # 9007199254740992)%Q.
Proof. reflexivity. Qed.

Lemma tiny64_small : (0 <= tiny64 /\ tiny64 <= 1 # 18446744073709551616)%Q.
Proof. split; vm_compute; discriminate. Qed.

Lemma pow2_1023_large : (inject_Z (2 ^ 63) <= pow2 1023)%Q.
Proof. vm_compute. discriminate. Qed.

(** The constant 0.999 of the code, as binary64 has it. *)
Lemma addend_value :
  finiteNonneg 0.999
  /\ (9989 # 10000 <= valueOf 0.999 /\ valueOf 0.999 <= 999 # 1000)%Q.
Proof.
  split; [exact I|]. split; vm_compute; discriminate.
Qed.

Lemma nearly_proper (x x' : Q) (f : float) :
  (x == x')%Q -> nearly x f -> nearly x' f.
Proof. intros Hx [[Hf He]|[Hf He]]; [left|right]; by rewrite <- Hx. Qed.

Lemma product_bound (a b x y : Q) :
  (0 <= x <= a -> 0 <= y <= b -> x * y <= a * b)%Q.
Proof.
  intros [Hx0 Hxa] [Hy0 Hyb].
  apply Qle_trans with (a * y)%Q.
  - apply Qmult_le_compat_r; done.
  - rewrite !(Qmult_comm a). apply Qmult_le_compat_r; [done|lra].
Qed.

(** The rounded share is the floor of a real that lies between
    [total * weight + 0.99] and [total * weight + 1]. *)
Lemma roundedShare_floor (total : Z) (w : float) :
  0 <= total <= 2 ^ 40 -> weightOk w = true ->
  exists P : Q,
    roundedShare total w = Qfloor P
    /\ (inject_Z total * valueOf w + (99 # 100) <= P)%Q
    /\ (P < inject_Z total * valueOf w + 1)%Q.
Proof.
  intros Ht Hw. unfold roundedShare.
  destruct (ofInt_exact total ltac:(lia)) as [Hft Hvt].
  destruct (weightOk_spec w Hw) as [Hfw Hw2].
  pose proof (valueOf_nonneg w Hfw) as Hw0.
  assert (0 <= inject_Z total /\ inject_Z total <= inject_Z (2 ^ 40))%Q
    as [Ht0 Ht40].
  { split; [change 0%Q with (inject_Z 0)|]; rewrite <- Zle_Qle; lia. }
  set (x := (inject_Z total * valueOf w)%Q).
  assert (0 <= x /\ x <= inject_Z (2 ^ 41))%Q as [Hx0 Hx41].
  { split; [by apply Qmult_le_0_compat|].
    change (inject_Z (2 ^ 41)) with (inject_Z (2 ^ 40) * 2)%Q.
    by apply product_bound. }
  pose proof eps64_value as Heps. pose proof tiny64_small as [Htiny0 Htiny].
  pose proof pow2_1023_large as Hbig.
  change (inject_Z (2 ^ 41)) with (2199023255552 # 1)%Q in Hx41.
  change (inject_Z (2 ^ 63)) with (9223372036854775808 # 1)%Q in Hbig.
  (* the product *)
  pose proof (mul_nearly (ofInt total) w Hft Hfw) as Hmul.
  apply nearly_finite in Hmul as [Hf1 He1];
    [|rewrite Hvt; fold x; lra].
  rewrite Hvt in He1. fold x in He1.
  apply Qabs_bound_inv in He1 as [He1l He1u].
  set (p1 := (ofInt total * w)%float) in *.
  (* the sum *)
  destruct addend_value as (Hfc & Hc0 & Hc1).
  pose proof (add_nearly p1 0.999 Hf1 Hfc) as Hadd.
  apply nearly_finite in Hadd as [Hf2 He2].
  2:{ fold x in He1l, He1u. rewrite Heps in He1l, He1u. lra. }
  apply Qabs_bound_inv in He2 as [He2l He2u].
  set (p2 := (p1 + 0.999)%float) in *.
  set (P1 := valueOf p1) in *. set (C := valueOf 0.999) in *.
  set (P2 := valueOf p2) in *.
  rewrite Heps in He1l, He1u, He2l, He2u.
  exists P2. split; [|split].
  - apply toInt_floor; [done|].
    change (inject_Z (2 ^ 63)) with (9223372036854775808 # 1)%Q.
    fold P2. lra.
  - lra.
  - lra.
Qed.

Lemma weight_product (total : Z) (w : float) :
  0 <= total -> weightOk w = true ->
  (0 <= inject_Z total * valueOf w
   /\ inject_Z total * valueOf w <= inject_Z (2 * total))%Q.
Proof.
  intros Ht Hw. destruct (weightOk_spec w Hw) as [Hfw Hw2].
  pose proof (valueOf_nonneg w Hfw) as Hw0.
  assert (0 <= inject_Z total)%Q
    by (change 0%Q with (inject_Z 0); by rewrite <- Zle_Qle).
  split; [by apply Qmult_le_0_compat|].
  rewrite inject_Z_mult, (Qmult_comm (inject_Z 2)).
  apply product_bound; [lra|]. done.
Qed.

(** The rounded share lies between the floor and the ceiling of
    [total * weight]. *)
Lemma roundedShare_between (total : Z) (w : float) :
  0 <= total <= 2 ^ 40 -> weightOk w = true ->
  Qfloor (inject_Z total * valueOf w) <= roundedShare total w
  /\ roundedShare total w <= Qceiling (inject_Z total * valueOf w).
Proof.
  intros Ht Hw.
  destruct (roundedShare_floor total w Ht Hw) as (P & -> & Hlo & Hhi).
  set (x := (inject_Z total * valueOf w)%Q) in *. split.
  - apply Qfloor_resp_le. lra.
  - pose proof (Qfloor_le P). pose proof (Qle_ceiling x).
    assert (inject_Z (Qfloor P) < inject_Z (Qceiling x + 1))%Q as Hlt.
    { rewrite inject_Z_plus. change (inject_Z 1) with 1%Q. lra. }
    rewrite <- Zlt_Qlt in Hlt. lia.
Qed.

Lemma roundedShare_range (total : Z) (w : float) :
  0 <= total <= 2 ^ 40 -> weightOk w = true ->
  0 <= roundedShare total w <= 2 * total.
Proof.
  intros Ht Hw. destruct (roundedShare_between total w Ht Hw) as [Hlo Hhi].
  destruct (weight_product total w ltac:(lia) Hw) as [Hx0 Hx1].
  split.
  - etrans; [|exact Hlo]. change 0 with (Qfloor 0). by apply Qfloor_resp_le.
  - etrans; [exact Hhi|]. rewrite <- (Qceiling_Z (2 * total)).
    by apply Qceiling_resp_le.
Qed.

(** A share of at least one token is allocated at least one. *)
Lemma roundedShare_one (total : Z) (w : float) :
  0 <= total <= 2 ^ 40 -> weightOk w = true ->
  (1 <= inject_Z total * valueOf w)%Q -> 1 <= roundedShare total w.
Proof.
  intros Ht Hw Hx. destruct (roundedShare_between total w Ht Hw) as [Hlo _].
  etrans; [|exact Hlo]. change 1 with (Qfloor 1). by apply Qfloor_resp_le.
Qed.

(** The ratio [float64(total) / float64(sum)] of the rescaling. *)
Lemma ratio_value (total sum : Z) :
  0 < total < sum -> sum < 2 ^ 53 ->
  exists q : Q,
    (q * inject_Z sum == inject_Z total)%Q
    /\ (0 < q /\ q < 1)%Q
    /\ finiteNonneg (ofInt total / ofInt sum)
    /\ (Qabs (valueOf (ofInt total / ofInt sum) - q)
        <= eps64 * q + tiny64)%Q.
Proof.
  intros Ht Hs.
  destruct (ofInt_exact total ltac:(lia)) as [Hft Hvt].
  destruct (ofInt_exact sum ltac:(lia)) as [Hfs Hvs].
  assert (0 < inject_Z total)%Q as Ht0
    by (change 0%Q with (inject_Z 0); rewrite <- Zlt_Qlt; lia).
  assert (inject_Z total < inject_Z sum)%Q as Hts
    by (rewrite <- Zlt_Qlt; lia).
  set (q := (inject_Z total / inject_Z sum)%Q).
  assert (q * inject_Z sum == inject_Z total)%Q as Hq
    by (unfold q; field; lra).
  assert (0 < q /\ q < 1)%Q as [Hq0 Hq1].
  { split.
    - apply Qmult_lt_r with (inject_Z sum); [lra|]. rewrite Hq. lra.
    - apply Qmult_lt_r with (inject_Z sum); [lra|]. rewrite Hq. lra. }
  exists q. split; [done|]. split; [done|].
  apply nearly_finite.
  - apply div_nearly; [done|done|rewrite Hvs; lra|by rewrite Hvs, Hvt].
  - pose proof pow2_1023_large.
    change (inject_Z (2 ^ 63)) with (9223372036854775808 # 1)%Q in *. lra.
Qed.

(** One entry of the rescaling, before it is raised to 1: the floor of a
    real within [value * 2^-51] of [value * total / sum]. *)
Lemma rescaled_value (ratio : float) (q : Q) (value : Z) :
  finiteNonneg ratio -> (0 < q /\ q < 1)%Q ->
  (Qabs (valueOf ratio - q) <= eps64 * q + tiny64)%Q ->
  0 <= value < 2 ^ 52 ->
  exists P : Q,
    toInt (ofInt value * ratio) = Qfloor P
    /\ (inject_Z value * q - inject_Z value * (1 # 2251799813685248)
        - (1 # 18446744073709551616) <= P)%Q
    /\ (P <= inject_Z value * q + inject_Z value * (1 # 2251799813685248)
             + (1 # 18446744073709551616))%Q.
Proof.
  intros Hfr [Hq0 Hq1] Hr Hv.
  destruct (ofInt_exact value ltac:(lia)) as [Hfv Hvv].
  pose proof eps64_value as Heps. pose proof tiny64_small as [Htiny0 Htiny].
  pose proof pow2_1023_large as Hbig.
  change (inject_Z (2 ^ 63)) with (9223372036854775808 # 1)%Q in Hbig.
  assert (0 <= inject_Z value /\ inject_Z value <= inject_Z (2 ^ 52))%Q
    as [Hv0 Hv52].
  { split; [change 0%Q with (inject_Z 0)|]; rewrite <- Zle_Qle; lia. }
  change (inject_Z (2 ^ 52)) with (4503599627370496 # 1)%Q in Hv52.
  apply Qabs_bound_inv in Hr as [Hrl Hru].
  pose proof (valueOf_nonneg ratio Hfr) as Hr0.
  set (R := valueOf ratio) in *. set (A := inject_Z value) in *.
  rewrite Heps in Hrl, Hru.
  (* the product [A * R] against [A * q] *)
  assert (A * R <= A * (q + q * (1 # 9007199254740992) + tiny64))%Q as Hup.
  { rewrite !(Qmult_comm A). apply Qmult_le_compat_r; [lra|done]. }
  assert (A * (q - q * (1 # 9007199254740992) - tiny64) <= A * R)%Q as Hlow.
  { rewrite !(Qmult_comm A). apply Qmult_le_compat_r; [lra|done]. }
  assert (A * q <= A)%Q as Haq.
  { rewrite <- (Qmult_1_r A) at 2. rewrite !(Qmult_comm A).
    apply Qmult_le_compat_r; [lra|done]. }
  assert (0 <= A * q)%Q as Haq0 by (apply Qmult_le_0_compat; lra).
  assert (A * tiny64 <= A * (1 # 18446744073709551616))%Q as Hat.
  { rewrite !(Qmult_comm A). apply Qmult_le_compat_r; done. }
  assert (0 <= A * tiny64)%Q as Hat0 by (by apply Qmult_le_0_compat).
  assert (0 <= A * R)%Q as Har0 by (by apply Qmult_le_0_compat).
  pose proof (mul_nearly (ofInt value) ratio Hfv Hfr) as Hmul.
  apply (nearly_proper _ (A * R)) in Hmul; [|by rewrite Hvv].
  apply nearly_finite in Hmul as [Hfh Heh]; [|lra].
  apply Qabs_bound_inv in Heh as [Hehl Hehu]. rewrite Heps in Hehl, Hehu.
  set (P := valueOf (ofInt value * ratio)) in *.
  exists P. split; [|split].
  - apply toInt_floor; [done|].
    change (inject_Z (2 ^ 63)) with (9223372036854775808 # 1)%Q.
    fold P. lra.
  - lra.
  - lra.
Qed.

End Shares.

Section Conservation.

Import Binary64.

Implicit Types (m allocation raw : gmap string Z)
  (weights : gmap string float).

Lemma sumAlloc_upper (bound : Z) m :
  (forall k a, m !! k = Some a -> a <= bound) ->
  sumAlloc m <= Z.of_nat (size m) * bound.
Proof.
  induction m as [|k a m Hk IH] using map_ind; intros Hb.
  - rewrite sumAlloc_empty, map_size_empty. lia.
  - rewrite sumAlloc_insert, map_size_insert_None by done.
    assert (a <= bound) by (apply (Hb k); by rewrite lookup_insert_eq).
    assert (sumAlloc m <= Z.of_nat (size m) * bound).
    { apply IH. intros k' a' Hk'. apply (Hb k').
      rewrite lookup_insert_ne; [done|]. intros ->. by rewrite Hk in Hk'. }
    lia.
Qed.

Lemma adjusted_upper (ratio : float) (q : Q) (value : Z) :
  finiteNonneg ratio -> (0 < q /\ q < 1)%Q ->
  (Qabs (valueOf ratio - q) <= eps64 * q + tiny64)%Q ->
  0 <= value < 2 ^ 52 ->
  (inject_Z (adjusted ratio value)
   <= (q + (1 # 2251799813685248)) * inject_Z value
      + (1 + (1 # 9223372036854775808)))%Q.
Proof.
  intros Hfr Hq Hr Hv.
  destruct (rescaled_value ratio q value Hfr Hq Hr Hv) as (P & HP & Hlo & Hhi).
  assert (0 <= inject_Z value)%Q
    by (change 0%Q with (inject_Z 0); rewrite <- Zle_Qle; lia).
  assert (0 <= inject_Z value * q)%Q by (apply Qmult_le_0_compat; lra).
  unfold adjusted. rewrite HP. pose proof (Qfloor_le P) as Hfl.
  destruct (Z.max_spec 1 (Qfloor P)) as [[_ ->]|[_ ->]].
  - lra.
  - change (inject_Z 1) with 1%Q. lra.
Qed.

Lemma sum_adjusted_upper (ratio : float) (q : Q) raw :
  finiteNonneg ratio -> (0 < q /\ q < 1)%Q ->
  (Qabs (valueOf ratio - q) <= eps64 * q + tiny64)%Q ->
  (forall k a, raw !! k = Some a -> 0 <= a < 2 ^ 52) ->
  (inject_Z (sumAlloc (adjusted ratio <$> raw))
   <= (q + (1 # 2251799813685248)) * inject_Z (sumAlloc raw)
      + inject_Z (Z.of_nat (size raw)) * (1 + (1 # 9223372036854775808)))%Q.
Proof.
  intros Hfr Hq Hr.
  induction raw as [|k a m Hk IH] using map_ind; intros Hb.
  - rewrite fmap_empty, sumAlloc_empty, map_size_empty.
    change (inject_Z 0) with 0%Q. change (inject_Z (Z.of_nat 0)) with 0%Q.
    lra.
  - rewrite fmap_insert, !sumAlloc_insert, map_size_insert_None
      by (by rewrite ?lookup_fmap, ?Hk).
    assert (0 <= a < 2 ^ 52) as Ha
      by (apply (Hb k); by rewrite lookup_insert_eq).
    pose proof (adjusted_upper ratio q a Hfr Hq Hr Ha) as Hone.
    assert (forall k' a', m !! k' = Some a' -> 0 <= a' < 2 ^ 52) as Hm.
    { intros k' a' Hk'. apply (Hb k'). rewrite lookup_insert_ne; [done|].
      intros ->. by rewrite Hk in Hk'. }
    specialize (IH Hm).
    rewrite Nat2Z.inj_succ. unfold Z.succ.
    rewrite !inject_Z_plus. change (inject_Z 1) with 1%Q. lra.
Qed.

(** The sum of an allocation is at most the total plus one token per
    category. *)
Lemma allocation_sum (total : Z) weights :
  0 < total <= 2 ^ 40 ->
  Z.of_nat (size weights) <= 2 ^ 8 ->
  (forall k w, weights !! k = Some w -> weightOk w = true) ->
  sumAlloc (AllocateTokens (NewTokenBudget total weights))
  <= total + Z.of_nat (size weights).
Proof.
  intros HT Hn Hw. rewrite AllocateTokens_eq. cbn [Total Percentages NewTokenBudget].
  set (raw := roundedShare total <$> weights).
  assert (forall k a, raw !! k = Some a -> 0 <= a <= 2 * total) as Hraw.
  { intros k a. unfold raw. rewrite lookup_fmap.
    destruct (weights !! k) as [w|] eqn:Hk; [|done].
    intros [= <-]. apply roundedShare_range; [lia|]. by apply (Hw k). }
  assert (size raw = size weights) as Hsize by apply map_size_fmap.
  destruct (Z.gtb_spec (sumAlloc raw) total) as [Hgt|Hle]; [|lia].
  assert (sumAlloc raw <= Z.of_nat (size raw) * (2 * total)) as Hsum.
  { apply sumAlloc_upper. intros k a Hk. by apply (Hraw k a). }
  rewrite Hsize in Hsum.
  assert (sumAlloc raw <= 2 ^ 49) as Hs49.
  { change (2 ^ 49) with (2 ^ 8 * (2 * 2 ^ 40)). nia. }
  destruct (ratio_value total (sumAlloc raw) ltac:(lia) ltac:(lia))
    as (q & Hq & Hq01 & Hfr & Hr).
  pose proof (sum_adjusted_upper _ q raw Hfr Hq01 Hr) as Hadj.
  rewrite Hsize in Hadj.
  set (out := sumAlloc (adjusted _ <$> raw)) in *.
  assert (inject_Z out < inject_Z (total + Z.of_nat (size weights) + 1))%Q
    as Hlt; [|rewrite <- Zlt_Qlt in Hlt; lia].
  eapply Qle_lt_trans; [apply Hadj|].
  { intros k a Hk. specialize (Hraw k a Hk). lia. }
  rewrite !inject_Z_plus. change (inject_Z 1) with 1%Q.
  assert (inject_Z (sumAlloc raw) <= inject_Z (2 ^ 49))%Q as HsQ
    by (by rewrite <- Zle_Qle).
  change (inject_Z (2 ^ 49)) with (562949953421312 # 1)%Q in HsQ.
  assert (0 <= inject_Z (Z.of_nat (size weights))
          /\ inject_Z (Z.of_nat (size weights)) <= inject_Z (2 ^ 8))%Q
    as [Hn0 Hn8].
  { split; [change 0%Q with (inject_Z 0)|]; rewrite <- Zle_Qle; lia. }
  change (inject_Z (2 ^ 8)) with (256 # 1)%Q in Hn8.
  set (S := inject_Z (sumAlloc raw)) in *.
  set (N := inject_Z (Z.of_nat (size weights))) in *.
  set (T := inject_Z total) in *.
  lra.
Qed.

End Conservation.

Section Validation.

Import Binary64.

(** A number that is not below zero is +Inf, or finite and not negative. *)
Lemma not_negative (p : float) :
  is_nan p = false -> (p <? 0)%float = false -> atLeast 0 p.
Proof.
  unfold is_nan. rewrite FloatAxioms.eqb_spec, FloatAxioms.ltb_spec.
  change (Prim2SF 0) with (S754_zero false).
  unfold atLeast. pose proof (valueOf_nonneg p) as Hv.
  unfold finiteNonneg, SFeqb, SFltb in *.
  destruct (Prim2SF p) as [s|[]| |[] m e]; cbn [SFcompare]; try done; auto.
Qed.

Lemma atLeast_weaken (t t' : Q) (f : float) :
  (t' <= t)%Q -> atLeast t f -> atLeast t' f.
Proof. intros Ht [H|[H1 H2]]; [by left|right]. split; [done|lra]. Qed.

Lemma add_atLeast (a b : float) (t : Q) :
  atLeast 0 a -> atLeast 0 b -> (0 <= t /\ t <= 4)%Q ->
  atLeast t a \/ atLeast t b ->
  atLeast (t - (1 # 10)) (a + b).
Proof.
  intros Ha Hb Ht Hab.
  assert (Prim2SF a = S754_infinity false \/ Prim2SF b = S754_infinity false
          \/ (finiteNonneg a /\ finiteNonneg b
              /\ (t <= valueOf a + valueOf b)%Q)) as Hcases.
  { destruct Ha as [Ha|[Ha Ha0]]; [by left|].
    destruct Hb as [Hb|[Hb Hb0]]; [by right; left|].
    right; right. split; [done|]. split; [done|].
    destruct Hab as [[Hi|[_ Hv]]|[Hi|[_ Hv]]].
    - unfold finiteNonneg in Ha. by rewrite Hi in Ha.
    - lra.
    - unfold finiteNonneg in Hb. by rewrite Hi in Hb.
    - lra. }
  destruct Hcases as [Hi|[Hi|(Hfa & Hfb & Hsum)]].
  - left. rewrite FloatAxioms.add_spec, Hi.
    destruct Hb as [Hb|[Hb _]]; [by rewrite Hb|].
    unfold finiteNonneg in Hb. by destruct (Prim2SF b) as [|[]| |[]].
  - left. rewrite FloatAxioms.add_spec, Hi.
    destruct Ha as [Ha|[Ha _]]; [by rewrite Ha|].
    unfold finiteNonneg in Ha. by destruct (Prim2SF a) as [|[]| |[]].
  - destruct (add_nearly a b Hfa Hfb) as [[Hf He]|[Hinf _]]; [|by left].
    right. split; [done|].
    apply Qabs_bound_inv in He as [Hel _].
    pose proof eps64_value as Heps. pose proof tiny64_small as [_ Htiny].
    rewrite Heps in Hel. lra.
Qed.

(** The sum of five numbers none of which is negative, when one of them is
    +Inf or at least 2. *)
Lemma sum_atLeast (p1 p2 p3 p4 p5 : float) :
  atLeast 0 p1 -> atLeast 0 p2 -> atLeast 0 p3 -> atLeast 0 p4 ->
  atLeast 0 p5 ->
  atLeast 2 p1 \/ atLeast 2 p2 \/ atLeast 2 p3 \/ atLeast 2 p4
  \/ atLeast 2 p5 ->
  atLeast (16 # 10) (p1 + p2 + p3 + p4 + p5).
Proof.
  intros H1 H2 H3 H4 H5 Hbig.
  assert (forall a b, atLeast 0 a -> atLeast 0 b -> atLeast 0 (a + b)) as Hadd.
  { intros a b Ha Hb.
    assert (Prim2SF a = S754_infinity false
            \/ Prim2SF b = S754_infinity false
            \/ (finiteNonneg a /\ finiteNonneg b)) as Hcases.
    { destruct Ha as [Ha|[Ha _]]; [by left|].
      destruct Hb as [Hb|[Hb _]]; [by right; left|]. by right; right. }
    destruct Hcases as [Hi|[Hi|[Hfa Hfb]]].
    - left. rewrite FloatAxioms.add_spec, Hi.
      destruct Hb as [Hb|[Hb _]]; [by rewrite Hb|].
      unfold finiteNonneg in Hb. by destruct (Prim2SF b) as [|[]| |[]].
    - left. rewrite FloatAxioms.add_spec, Hi.
      destruct Ha as [Ha|[Ha _]]; [by rewrite Ha|].
      unfold finiteNonneg in Ha. by destruct (Prim2SF a) as [|[]| |[]].
    - destruct (add_nearly a b Hfa Hfb) as [[Hf He]|[Hinf _]]; [|by left].
      right. split; [done|]. by apply valueOf_nonneg. }
  assert (forall a b t, atLeast 0 a -> atLeast 0 b -> (0 <= t /\ t <= 4)%Q ->
            atLeast t a \/ atLeast t b -> atLeast (t - (1 # 10)) (a + b))
    as Hstep by (intros; by apply add_atLeast).
  pose proof (Hadd _ _ H1 H2) as H12.
  pose proof (Hadd _ _ H12 H3) as H123.
  pose proof (Hadd _ _ H123 H4) as H1234.
  assert (forall t t' f, (t' <= t)%Q -> atLeast t f -> atLeast t' f) as Hw
    by (intros; by eapply atLeast_weaken).
  assert (forall a b t, atLeast 0 a -> atLeast 0 b -> (0 <= t /\ t <= 4)%Q ->
            atLeast t a -> atLeast (t - (1 # 10)) (a + b)) as Hl
    by (intros; apply Hstep; auto).
  assert (forall a b t, atLeast 0 a -> atLeast 0 b -> (0 <= t /\ t <= 4)%Q ->
            atLeast t b -> atLeast (t - (1 # 10)) (a + b)) as Hr
    by (intros; apply Hstep; auto).
  assert (atLeast (17 # 10) (p1 + p2 + p3 + p4) \/ atLeast 2 p5) as [G|G].
  { assert (atLeast (18 # 10) (p1 + p2 + p3) \/ atLeast 2 p4
            \/ atLeast 2 p5) as [G|[G|G]]; [|left|left|by right].
    - assert (atLeast (19 # 10) (p1 + p2) \/ atLeast 2 p3 \/ atLeast 2 p4
              \/ atLeast 2 p5) as [G|[G|G]]; [|left|left|by right].
      + destruct Hbig as [Hb|[Hb|Hb]]; [left|left|by right].
        * eapply Hw; [|apply (Hl p1 p2 2%Q); [done|done|lra|exact Hb]]. lra.
        * eapply Hw; [|apply (Hr p1 p2 2%Q); [done|done|lra|exact Hb]]. lra.
      + eapply Hw; [|apply (Hl _ p3 (19 # 10)%Q); [done|done|lra|exact G]].
        lra.
      + eapply Hw; [|apply (Hr _ p3 2%Q); [done|done|lra|exact G]]. lra.
    - eapply Hw; [|apply (Hl _ p4 (18 # 10)%Q); [done|done|lra|exact G]].
      lra.
    - eapply Hw; [|apply (Hr _ p4 2%Q); [done|done|lra|exact G]]. lra. }
  - eapply Hw; [|apply (Hl _ p5 (17 # 10)%Q); [done|done|lra|exact G]]. lra.
  - eapply Hw; [|apply (Hr _ p5 2%Q); [done|done|lra|exact G]]. lra.
Qed.

(** A sum of at least 1.6 is not within 0.01 of 1. *)
Lemma far_from_one (total : float) :
  atLeast (16 # 10) total -> (0.01 <? abs (total - 1.0))%float = true.
Proof.
  intros [Hi|[Hf Hv]].
  - rewrite FloatAxioms.ltb_spec, abs_spec, FloatAxioms.sub_spec, Hi.
    reflexivity.
  - assert (finiteNonneg 1.0 /\ (valueOf 1.0 == 1)%Q) as [Hf1 Hv1]
      by (split; [exact I|reflexivity]).
    pose proof (sub_nearly total 1.0 Hf Hf1 ltac:(rewrite Hv1; lra)
                  ltac:(rewrite Hv1; lra)) as Hsub.
    apply (nearly_proper _ (valueOf total - 1)) in Hsub; [|by rewrite Hv1].
    assert (finiteNonneg 0.01 /\ (valueOf 0.01 <= 1 # 10)%Q) as [Hfc Hvc]
      by (split; [exact I|vm_compute; discriminate]).
    destruct Hsub as [[Hfd Hed]|[Hinf _]].
    + assert (finiteNonneg (abs (total - 1.0))
              /\ valueOf (abs (total - 1.0)) = valueOf (total - 1.0))
        as [Hfa Hva].
      { unfold finiteNonneg, valueOf in *. rewrite abs_spec.
        by destruct (Prim2SF (total - 1.0)) as [[]|[]| |[]]. }
      apply ltb_value; [done|done|]. rewrite Hva.
      apply Qabs_bound_inv in Hed as [Hel _].
      pose proof eps64_value as Heps. pose proof tiny64_small as [_ Htiny].
      rewrite Heps in Hel. lra.
    + rewrite FloatAxioms.ltb_spec, abs_spec, Hinf. reflexivity.
Qed.

(** What [Validate] accepts, when no percentage is a NaN: five weights
    between 0 and 2. *)
Lemma Validate_weights (tp : TokenPercentages) :
  Validate tp = None -> areNumbers tp = true ->
  forall k w, ToMap tp !! k = Some w -> weightOk w = true.
Proof.
  unfold Validate, areNumbers. intros Hv Hn.
  destruct (0.01 <? abs _)%float eqn:Hsum; [done|].
  destruct (token.Plan tp <? 0)%float eqn:L1; [done|].
  destruct (token.Character tp <? 0)%float eqn:L2; [done|].
  destruct (token.Worldview tp <? 0)%float eqn:L3; [done|].
  destruct (token.Chapters tp <? 0)%float eqn:L4; [done|].
  destruct (token.Index tp <? 0)%float eqn:L5; [done|].
  apply andb_prop in Hn as [Hn N5]. apply andb_prop in Hn as [Hn N4].
  apply andb_prop in Hn as [Hn N3]. apply andb_prop in Hn as [N1 N2].
  apply negb_true_iff in N1, N2, N3, N4, N5.
  pose proof (not_negative _ N1 L1) as G1.
  pose proof (not_negative _ N2 L2) as G2.
  pose proof (not_negative _ N3 L3) as G3.
  pose proof (not_negative _ N4 L4) as G4.
  pose proof (not_negative _ N5 L5) as G5.
  assert (forall p, atLeast 0 p -> ~ atLeast 2 p -> weightOk p = true) as Hok.
  { intros p [Hi|[Hf H0]] Hnot; [destruct Hnot; by left|].
    assert (finiteNonneg 0 /\ finiteNonneg 2 /\ (valueOf 0 == 0)%Q
            /\ (valueOf 2 == 2)%Q) as (F0 & F2 & V0 & V2)
      by (conjs; try exact I; reflexivity).
    unfold weightOk. apply andb_true_intro. split.
    - apply leb_value; [done|done|]. by rewrite V0.
    - apply leb_value; [done|done|]. rewrite V2.
      destruct (Qlt_le_dec (valueOf p) 2) as [|Hge]; [lra|].
      destruct Hnot. right. done. }
  assert (~ (atLeast 2 (token.Plan tp) \/ atLeast 2 (token.Character tp)
             \/ atLeast 2 (token.Worldview tp)
             \/ atLeast 2 (token.Chapters tp)
             \/ atLeast 2 (token.Index tp))) as Hnone.
  { intros Hbig.
    pose proof (far_from_one _ (sum_atLeast _ _ _ _ _ G1 G2 G3 G4 G5 Hbig))
      as Hfar.
    by rewrite Hfar in Hsum. }
  intros k w. unfold ToMap.
  rewrite !lookup_insert_Some, lookup_empty.
  intros [[_ <-]|[_ [[_ <-]|[_ [[_ <-]|[_ [[_ <-]|[_ [[_ <-]|[_ ?]]]]]]]]]];
    [..|done]; apply Hok; try done; intros Hb; apply Hnone; tauto.
Qed.

(** A NaN passes [Validate], every comparison with it being false; hence
    the statements on valid percentages ask for numbers. *)
Lemma Validate_accepts_NaN :
  Validate {| Plan := nan; Character := 0; Worldview := 0; Chapters := 0;
              Index := 0 |} = None.
Proof. vm_compute. reflexivity. Qed.

End Validation.

Section Rescaling.

Import Binary64.

(** The rescaled value, before it is raised to 1, is the floor of
    [value * total / sum] or one less, up to sums of 2^25. *)
Lemma rescaled_floor (total value sum : Z) :
  0 < total < sum -> sum <= 2 ^ 25 -> 0 <= value <= sum ->
  value * total / sum - 1
  <= toInt (ofInt value * (ofInt total / ofInt sum))
  <= value * total / sum.
Proof.
  intros Ht Hs Hv.
  destruct (ratio_value total sum Ht ltac:(lia)) as (q & Hq & Hq01 & Hfr & Hr).
  destruct (rescaled_value _ q value Hfr Hq01 Hr ltac:(lia))
    as (P & -> & Hlo & Hhi).
  pose proof (Qfloor_le P) as Hfl. pose proof (Qlt_floor P) as Hfu.
  rewrite inject_Z_plus in Hfu. change (inject_Z 1) with 1%Q in Hfu.
  set (b := Qfloor P) in *.
  assert (0 < inject_Z sum /\ inject_Z sum <= inject_Z (2 ^ 25))%Q
    as [Hs0 Hs25].
  { split; [change 0%Q with (inject_Z 0); rewrite <- Zlt_Qlt
           |rewrite <- Zle_Qle]; lia. }
  assert (0 <= inject_Z value /\ inject_Z value <= inject_Z (2 ^ 25))%Q
    as [Hv0 Hv25].
  { split; [change 0%Q with (inject_Z 0)|]; rewrite <- Zle_Qle; lia. }
  change (inject_Z (2 ^ 25)) with (33554432 # 1)%Q in *.
  set (A := inject_Z value) in *. set (S := inject_Z sum) in *.
  assert (A * q * S == inject_Z (value * total))%Q as HAqS.
  { rewrite <- Qmult_assoc, Hq, inject_Z_mult. reflexivity. }
  assert (A * S <= (33554432 # 1) * (33554432 # 1))%Q as HAS
    by (apply product_bound; lra).
  assert (0 <= A * S)%Q as HAS0 by (apply Qmult_le_0_compat; lra).
  assert (inject_Z b * S
          <= (A * q + A * (1 # 2251799813685248)
              + (1 # 18446744073709551616)) * S)%Q as Hup
    by (apply Qmult_le_compat_r; lra).
  assert ((A * q - A * (1 # 2251799813685248)
           - (1 # 18446744073709551616)) * S
          < (inject_Z b + 1) * S)%Q as Hlow
    by (apply Qmult_lt_compat_r; lra).
  assert (inject_Z (b * sum) < inject_Z (value * total + 1))%Q as H1.
  { rewrite inject_Z_mult, inject_Z_plus. change (inject_Z 1) with 1%Q.
    fold S. lra. }
  assert (inject_Z (value * total - 1) < inject_Z ((b + 1) * sum))%Q as H2.
  { unfold Z.sub. rewrite inject_Z_mult, !inject_Z_plus.
    change (inject_Z (- (1))) with (- (1))%Q. change (inject_Z 1) with 1%Q.
    fold S. lra. }
  rewrite <- Zlt_Qlt in H1, H2. split.
  - assert (value * total / sum <= b + 1); [|lia].
    apply Z.div_le_upper_bound; lia.
  - apply Z.div_le_lower_bound; lia.
Qed.

End Rescaling.

Section AllocatorClaims.

Import Binary64.

Implicit Types (weights : gmap string float).

(** C3 (amended).  For every total from 1 to 2^40 and every set of at most
    256 weights, each a number from 0 to 2 (as the weights of every valid
    set are), the ceilings sum to at most the total plus the number of
    categories, zero-weight categories included, since the floor of 1 is
    applied to them too.  A category whose share total x weight is at least
    one token receives at least 1, and every category does when the shares
    are rescaled. *)
Theorem AllocateTokens_conservation (total : Z) weights :
  0 < total <= 2 ^ 40 ->
  Z.of_nat (size weights) <= 2 ^ 8 ->
  (forall k w, weights !! k = Some w -> weightOk w = true) ->
  sumAlloc (AllocateTokens (NewTokenBudget total weights))
    <= total + Z.of_nat (size weights)
  /\ (forall k w, weights !! k = Some w ->
        (1 <= inject_Z total * valueOf w)%Q ->
        exists n, AllocateTokens (NewTokenBudget total weights) !! k = Some n
                  /\ 1 <= n)
  /\ (total < sumAlloc (roundedShare total <$> weights) ->
      forall k n, AllocateTokens (NewTokenBudget total weights) !! k = Some n ->
                  1 <= n).
Proof.
  intros HT Hn Hw. split; [by apply allocation_sum|].
  rewrite AllocateTokens_eq. cbn [Total Percentages NewTokenBudget].
  set (raw := roundedShare total <$> weights).
  destruct (Z.gtb_spec (sumAlloc raw) total) as [Hgt|Hle]; split.
  - intros k w Hk _. unfold raw. rewrite !lookup_fmap, Hk. simpl.
    eexists; split; [done|]. unfold adjusted. lia.
  - intros _ k n. rewrite lookup_fmap.
    destruct (raw !! k); [|done]. intros [= <-]. unfold adjusted. lia.
  - intros k w Hk Hshare. unfold raw. rewrite lookup_fmap, Hk. simpl.
    eexists; split; [done|].
    apply roundedShare_one; [lia|by apply (Hw k)|done].
  - lia.
Qed.

(** C4 (amended).  For every total and weight map the allocation has one
    entry per weighted category, made in one pass and at most one
    rescaling, with no further iteration.  The first value of a category is
    its rounded share; for a total up to 2^40 and a weight from 0 to 2 it
    lies between the floor and the ceiling of total x weight.  When the sum
    of these values exceeds the total, each one is rescaled once, by the
    ratio of the total to the sum, which up to sums of 2^25 gives
    floor(value x total / sum) or one less, and is raised to 1 when below,
    for every category, zero-weight categories included. *)
Theorem AllocateTokens_single_pass (tb : TokenBudget) :
  (forall k,
     AllocateTokens tb !! k =
       (fun w =>
          if sumAlloc (roundedShare (Total tb) <$> Percentages tb)
             >? Total tb
          then adjusted
                 (ofInt (Total tb)
                  / ofInt (sumAlloc (roundedShare (Total tb)
                                       <$> Percentages tb)))
                 (roundedShare (Total tb) w)
          else roundedShare (Total tb) w) <$> (Percentages tb !! k))
  /\ (forall w, 0 <= Total tb <= 2 ^ 40 -> weightOk w = true ->
        Qfloor (inject_Z (Total tb) * valueOf w) <= roundedShare (Total tb) w
        /\ roundedShare (Total tb) w
           <= Qceiling (inject_Z (Total tb) * valueOf w))
  /\ (forall value sum,
        0 <= value <= sum -> 0 < Total tb < sum -> sum <= 2 ^ 25 ->
        Z.max 1 (value * Total tb / sum - 1)
        <= adjusted (ofInt (Total tb) / ofInt sum) value
        /\ adjusted (ofInt (Total tb) / ofInt sum) value
           <= Z.max 1 (value * Total tb / sum)).
Proof.
  conjs.
  - intros k. rewrite AllocateTokens_eq.
    destruct (_ >? _); rewrite ?lookup_fmap;
      by destruct (Percentages tb !! k).
  - intros w HT Hw. by apply roundedShare_between.
  - intros value sum Hv HT Hs. unfold adjusted.
    pose proof (rescaled_floor (Total tb) value sum HT Hs Hv). lia.
Qed.

End AllocatorClaims.

(** C3, witness: the theorem at the total 128000 and the weights of the
    specification's scenario. *)
Lemma AllocateTokens_conservation_witness :
  0 < 128000 <= 2 ^ 40
  /\ sumAlloc (AllocateTokens (NewTokenBudget 128000 (ToMap specWeights)))
     <= 128000 + Z.of_nat (size (ToMap specWeights)).
Proof.
  assert (forall k w, ToMap specWeights !! k = Some w -> weightOk w = true)
    as Hw by (apply Validate_weights; vm_compute; reflexivity).
  assert (0 < 128000 <= 2 ^ 40) as Hpos by lia.
  assert (Z.of_nat (size (ToMap specWeights)) <= 2 ^ 8) as Hsize
    by (vm_compute; discriminate).
  split; [exact Hpos|].
  exact (proj1 (AllocateTokens_conservation 128000 (ToMap specWeights)
                  Hpos Hsize Hw)).
Defined.

(** C3, counterexample.  The weights (0.5, 0.5, 0, 0, 0) are valid; with
    the total 1 every category is allocated 1, so with two categories of
    nonzero weight the ceilings sum to 5, above 1 + 2.  The weights
    (0.9996, 0.0001, 0.0001, 0.0001, 0.0001) are valid; with the total 5,
    which is the number of categories, the four light categories are
    allocated 0.  With the total 2^57 and a fifth on each category the
    ceilings sum to 2^57 + 8: beyond the integers that binary64 holds
    exactly the sum is not kept within the number of categories. *)
Lemma AllocateTokens_breaks_conservation :
  Validate halves = None
  /\ map_to_list (AllocateTokens (NewTokenBudget 1 (ToMap halves)))
     = [("worldview", 1); ("character", 1); ("chapters", 1); ("index", 1);
        ("plan", 1)]
  /\ sumAlloc (AllocateTokens (NewTokenBudget 1 (ToMap halves))) = 5
  /\ nonzeroCategories (ToMap halves) = 2
  /\ 1 + nonzeroCategories (ToMap halves)
     < sumAlloc (AllocateTokens (NewTokenBudget 1 (ToMap halves)))
  /\ Validate skewed = None
  /\ Z.of_nat (size (ToMap skewed)) = 5
  /\ ToMap skewed !! "index" = Some 0.0001%float
  /\ map_to_list (AllocateTokens (NewTokenBudget 5 (ToMap skewed)))
     = [("worldview", 0); ("character", 0); ("chapters", 0); ("index", 0);
        ("plan", 5)]
  /\ Validate fifths = None
  /\ sumAlloc (AllocateTokens (NewTokenBudget (2 ^ 57) (ToMap fifths)))
     = 2 ^ 57 + 8.
Proof. conjs; vm_compute; reflexivity. Qed.

(** C4, counterexample.  With the total 1 and the weights
    (0.5, 0.5, 0, 0, 0) the rounded shares 1, 1, 0, 0, 0 sum to 2, above the
    total, and the three categories of weight zero are raised to 1.  With
    the total 5 the weight 0.0001 gives a product whose ceiling is 1, and
    the code allocates 0.  With the total 4092 and the valid weights
    (1.009, 0, 0, 0, 0) the share 4129 is rescaled by 4092/4129 to 4091,
    where floor(4129 x 4092 / 4129) is 4092. *)
Lemma AllocateTokens_raises_zero_weights :
  ToMap halves !! "index" = Some 0%float
  /\ sumAlloc (roundedShare 1 <$> ToMap halves) = 2
  /\ AllocateTokens (NewTokenBudget 1 (ToMap halves)) !! "index" = Some 1
  /\ Qceiling (inject_Z 5 * valueOf 0.0001) = 1
  /\ roundedShare 5 0.0001 = 0
  /\ AllocateTokens (NewTokenBudget 5 (ToMap skewed)) !! "index" = Some 0
  /\ Validate brimful = None
  /\ roundedShare 4092 1.009 = 4129
  /\ AllocateTokens (NewTokenBudget 4092 (ToMap brimful)) !! "plan"
     = Some 4091
  /\ 4129 * 4092 / 4129 = 4092.
Proof. conjs; vm_compute; reflexivity. Qed.

(** ** The content store *)

Import managers.

(** C9.  [Update] writes to storage before it touches the cached record.
    When the directory creation or the write fails, a non-nil error is
    returned and the receiver, its cached text and cached modification time
    included, is exactly what it was; no assignment appears in the trace.
    When both succeed, the blob holds the new text, and only then are the
    cached text and the cached modification time refreshed, in this order,
    from the text and from the modification time of the written blob. *)
Theorem Update_writes_through (b : BaseFileManager) (d : Storage)
    (text : gostring) :
  match run (Update text) b d with
  | (Some err, s) =>
      err = FileWriteError (filePath b)
      /\ (dirOk d = false \/ writable d = false)
      /\ mgr s = b
      /\ (trace s = [EvMkdirAll false]
          \/ trace s = [EvMkdirAll true; EvWriteFile text false])
  | (None, s) =>
      dirOk d = true /\ writable d = true
      /\ file (disk s) = Some {| data := text; modTime := clock d |}
      /\ current (mgr s) = text
      /\ lastModTime (mgr s) = clock d
      /\ filePath (mgr s) = filePath b
      /\ tokenBudget (mgr s) = tokenBudget b
      /\ trace s = [EvMkdirAll true; EvWriteFile text true;
                    EvSetCurrent text; EvStat true;
                    EvSetLastModTime (clock d)]
  end.
Proof.
  destruct b, d as [f [] r [] t]; cbn; conjs; auto.
Qed.

(** C8 (amended).  When the blob exists and either carries a modification
    time strictly after the cached one or nothing is cached yet (the cached
    text is empty, as in a record that never loaded), [GetCurrent] reads it:
    if the read succeeds it returns the text now in storage with its leading
    and trailing white space removed, not the cached value, and caches that
    text and the new modification time; if the read fails it returns the
    cached value and leaves the record as it was. *)
Theorem GetCurrent_reloads_stale (b : BaseFileManager) (d : Storage)
    (f : File) :
  file d = Some f ->
  lastModTime b < modTime f \/ current b = [] ->
  if readable d then
    fst (run GetCurrent b d) = strings.TrimSpace (data f)
    /\ current (mgr (snd (run GetCurrent b d))) = strings.TrimSpace (data f)
    /\ lastModTime (mgr (snd (run GetCurrent b d))) = modTime f
    /\ disk (snd (run GetCurrent b d)) = d
  else
    fst (run GetCurrent b d) = current b
    /\ mgr (snd (run GetCurrent b d)) = b.
Proof.
  intros Hf Hstale. destruct b as [p cur t tc tb], d as [fl dk rd wr ck].
  simpl in *. subst fl. destruct f as [bytes mt]. simpl in *.
  destruct rd; cbn; (destruct Hstale as [Hlt| ->];
    [assert ((t <? mt) = true) as -> by lia; by cbn
    |destruct (t <? mt); by cbn]).
Qed.

(** X4.  What [GetCurrent] does otherwise: a record that is neither stale
    nor empty is answered from the cache, and so is one whose blob cannot be
    read. *)
Lemma GetCurrent_cached (b : BaseFileManager) (d : Storage) :
  (forall f, file d = Some f ->
     modTime f <= lastModTime b -> current b <> [] ->
     fst (run GetCurrent b d) = current b)
  /\ (readable d = false -> fst (run GetCurrent b d) = current b).
Proof.
  destruct b as [p cur t tc tb], d as [fl dk rd wr ck]. simpl. split.
  - intros [bytes mt] -> Hle Hcur. simpl in *. cbn.
    assert ((t <? mt) = false) as -> by lia. by destruct cur.
  - intros ->. destruct fl as [[bytes mt]|]; cbn.
    + destruct (t <? mt), cur; by cbn.
    + by destruct cur.
Qed.

(** C8, witness: the cache holds "old" from time 5, the blob "new" from
    time 7. *)
Lemma GetCurrent_reloads_stale_witness :
  fst (run GetCurrent cachedOld (holding (runes "new") 7)) = runes "new"
  /\ lastModTime (mgr (snd (run GetCurrent cachedOld
                                (holding (runes "new") 7)))) = 7.
Proof.
  assert (lastModTime cachedOld < 7) as Hnewer by (vm_compute; reflexivity).
  pose proof (GetCurrent_reloads_stale cachedOld (holding (runes "new") 7)
                {| data := runes "new"; modTime := 7 |} eq_refl
                (or_introl Hnewer)) as Hw.
  simpl readable in Hw. destruct Hw as (H1 & _ & H3 & _).
  split; [exact H1|exact H3].
Defined.

(** C8, counterexample.  The cache holds "old" from time 5; the blob is
    rewritten at time 7 to " new" followed by a newline.  [GetCurrent]
    returns "new", which is not the content of the blob.  When the rewritten
    blob cannot be read, [GetCurrent] returns the cached "old". *)
Lemma GetCurrent_returns_trimmed_text :
  fst (run GetCurrent cachedOld (holding (runes " new
") 7)) = runes "new"
  /\ runes "new" <> runes " new
"
  /\ fst (run GetCurrent cachedOld (unreadable (holding (runes "new") 7)))
     = runes "old".
Proof. conjs; vm_compute; (reflexivity || discriminate). Qed.

(** ** Truncation under the component name "default" *)

Section DefaultComponent.

Context `{unicode.Tables}.

Lemma keepsBudget_ret {A} (a : A) : keepsBudget (ret a).
Proof. done. Qed.

Lemma keepsBudget_bind {A B} (m : M A) (k : A -> M B) :
  keepsBudget m -> (forall a, keepsBudget (k a)) -> keepsBudget (bind m k).
Proof.
  intros Hm Hk s. unfold bind. specialize (Hm s).
  destruct (m s) as [a s']. simpl in *. by rewrite Hk.
Qed.

Lemma keepsBudget_log (e : event) : keepsBudget (log e).
Proof. done. Qed.

Lemma keepsBudget_get : keepsBudget get.
Proof. done. Qed.

Lemma keepsBudget_os_Stat : keepsBudget os_Stat.
Proof. done. Qed.

Lemma keepsBudget_os_ReadFile : keepsBudget os_ReadFile.
Proof. done. Qed.

Lemma keepsBudget_setCurrent (text : gostring) :
  keepsBudget (setCurrent text).
Proof. done. Qed.

Lemma keepsBudget_setLastModTime (t : Z) : keepsBudget (setLastModTime t).
Proof. done. Qed.

Create HintDb budget.

#[local] Hint Resolve keepsBudget_ret keepsBudget_log keepsBudget_get
  keepsBudget_os_Stat keepsBudget_os_ReadFile keepsBudget_setCurrent
  keepsBudget_setLastModTime : budget.

Ltac keeps :=
  repeat first
    [ progress auto with budget
    | apply keepsBudget_bind; [|intros ?]
    | match goal with
      | |- keepsBudget (match ?x with _ => _ end) => destruct x
      | |- keepsBudget (if ?x then _ else _) => destruct x
      end ].

Lemma keepsBudget_Load : keepsBudget Load.
Proof. unfold Load, Exists, refreshModTime. keeps. Qed.

Lemma keepsBudget_ir_load (unmarshal : Unmarshal) (ir : IndexReader) :
  keepsBudget (ir_load unmarshal ir).
Proof.
  unfold ir_load. apply keepsBudget_bind; [apply keepsBudget_Load|].
  intros r. keeps.
Qed.

Lemma keepsBudget_GetSummary (unmarshal : Unmarshal) (ir : IndexReader) :
  keepsBudget (GetSummary unmarshal ir).
Proof.
  unfold GetSummary. apply keepsBudget_bind.
  - destruct (noSummaries ir); [apply keepsBudget_ir_load|keeps].
  - intros ir'. keeps.
Qed.

(** A built manager allocates over the five fixed components. *)
Lemma built_components (tbm : TokenBudgetManager) :
  built tbm -> Percentages (budget tbm) = ToMap (percentages tbm).
Proof.
  induction 1 as [maxTokens pct tbm Hnew | tbm pct' _ IH].
  - unfold NewTokenBudgetManager in Hnew.
    destruct (maxTokens <=? 0); [done|].
    destruct (Validate _); [done|]. by injection Hnew as <-.
  - unfold UpdatePercentages. by destruct (Validate pct').
Qed.

Lemma ToMap_default (tp : TokenPercentages) : ToMap tp !! "default" = None.
Proof. unfold ToMap. by rewrite !lookup_insert_ne, lookup_empty. Qed.

Lemma built_default_allocation (tbm : TokenBudgetManager) :
  built tbm -> GetTokenAllocation tbm "default" = 0.
Proof.
  intros Hb. unfold GetTokenAllocation, GetAllocatedTokens.
  rewrite AllocateTokens_None; [done|].
  rewrite (built_components tbm Hb). apply ToMap_default.
Qed.

(** C10.  A file manager with a budget manager attached truncates under
    the component name "default", which no allocation holds: the ceiling
    looked up is 0 and the result is the empty string with 0 tokens, for
    every text and whatever the limit passed.  So [GetSummaryWithTokenLimit]
    of an index reader with a budget manager returns the empty string for
    every limit and every summary. *)
Theorem TruncateToLimit_default_is_empty (tbm : TokenBudgetManager) :
  built tbm ->
  (forall (b : BaseFileManager) (text : gostring) (limit : Z),
     tokenBudget b = Some tbm -> TruncateToLimit b text limit = ([], 0))
  /\ (forall (unmarshal : Unmarshal) (ir : IndexReader) (maxTokens : Z)
             (s : St),
        tokenBudget (mgr s) = Some tbm ->
        fst (fst (GetSummaryWithTokenLimit unmarshal ir maxTokens s))
        = ([], 0)).
Proof.
  intros Hb.
  assert (forall (b : BaseFileManager) text limit,
            tokenBudget b = Some tbm -> TruncateToLimit b text limit = ([], 0))
    as Htrunc.
  { intros b text limit Hbud. unfold TruncateToLimit. rewrite Hbud.
    unfold TruncateToTokenLimit. destruct (isEmpty text); [done|].
    rewrite built_default_allocation by done. done. }
  split; [exact Htrunc|].
  intros unmarshal ir maxTokens s Hbud.
  unfold GetSummaryWithTokenLimit, bind.
  pose proof (keepsBudget_GetSummary unmarshal ir s) as Hkeep.
  destruct (GetSummary unmarshal ir s) as [[summary ir'] s']. simpl in *.
  destruct (isEmpty summary); [done|]. simpl.
  apply Htrunc. by rewrite Hkeep.
Qed.

End DefaultComponent.

(** C10, witness: the manager built from the default percentages and the
    total 1000, attached to a manager of the summary index. *)
Lemma TruncateToLimit_default_is_empty_witness :
  NewTokenBudgetManager 1000 None
    = inr (managerOf 1000 DefaultTokenPercentages)
  /\ TruncateToLimit
       (SetTokenBudget (NewBaseFileManager "index.json")
                       (Some (managerOf 1000 DefaultTokenPercentages)))
       (runes "ch1: the hero leaves home") 500 = ([], 0).
Proof.
  split; [reflexivity|].
  assert (built (managerOf 1000 DefaultTokenPercentages)) as Hbuilt
    by (by apply (built_new 1000 None)).
  exact (proj1 (TruncateToLimit_default_is_empty _ Hbuilt)
           (SetTokenBudget (NewBaseFileManager "index.json")
              (Some (managerOf 1000 DefaultTokenPercentages)))
           (runes "ch1: the hero leaves home") 500 eq_refl).
Defined.

(** ** The context builder *)

Section Assembler.

Import content.

Context `{unicode.Tables}.

(** Text without the percent sign is copied by [Sprintf]. *)
Lemma Sprintf_literal (lit rest : gostring) (args : list gostring) :
  forallb (fun r => negb (r =? 0x25)) lit = true ->
  Sprintf (lit ++ rest) args = lit ++ Sprintf rest args.
Proof.
  induction lit as [|r lit IH]; intros Hlit; [done|].
  simpl in Hlit. apply andb_prop in Hlit as [Hr Hlit].
  apply negb_true_iff in Hr.
  change ((r :: lit) ++ rest) with (r :: (lit ++ rest)).
  change ((r :: lit) ++ Sprintf rest args)
    with (r :: (lit ++ Sprintf rest args)).
  rewrite <- (IH Hlit). cbn [Sprintf]. rewrite Hr. cbn [andb].
  destruct (lit ++ rest) eqn:Hl; [|done].
  apply app_eq_nil in Hl as [-> ->]. done.
Qed.

(** The verb [%s] is replaced by the next argument. *)
Lemma Sprintf_verb_app (rest a : gostring) (args : list gostring) :
  Sprintf ([0x25; 0x73] ++ rest) (a :: args) = a ++ Sprintf rest args.
Proof. done. Qed.

Lemma orDefault_nonempty (s placeholder : gostring) :
  placeholder <> [] -> orDefault s placeholder <> [].
Proof. intros Hp. unfold orDefault. by destruct s. Qed.

(** Absent files are read as empty text. *)
Lemma GetTitle_absent (ir : IndexReader) (d : Storage) :
  file d = None -> GetTitle ir d = [].
Proof. destruct d as [fl dk rd wr ck]. simpl. by intros ->. Qed.

Lemma GetSummary_absent (unmarshal : Unmarshal) (dir : string)
    (d : Storage) (tbm : TokenBudgetManager) (n : Z) :
  file d = None ->
  fst (fst (fst (GetSummaryWithTokenLimit unmarshal
                   (fst (NewIndexReaderWithTokenBudget unmarshal dir d tbm))
                   n
                   (snd (NewIndexReaderWithTokenBudget unmarshal dir d tbm)))))
    = []
  /\ fst (fst (GetSummary unmarshal
                 (fst (NewIndexReaderWithTokenBudget unmarshal dir d tbm))
                 (snd (NewIndexReaderWithTokenBudget unmarshal dir d tbm))))
     = [].
Proof. destruct d as [fl dk rd wr ck]. simpl. by intros ->. Qed.

Lemma GetCurrent_absent (component : string) (n : Z) (s : St) :
  file (disk s) = None -> current (mgr s) = [] ->
  fst (fst (GetCurrentWithTokenLimit component n s)) = []
  /\ fst (GetCurrent s) = [].
Proof.
  destruct s as [[p cur t tc tb] [fl dk rd wr ck] tr]. simpl.
  by intros -> ->.
Qed.

Lemma worldview_absent (dir : string) (d : Storage)
    (tbm : TokenBudgetManager) :
  file d = None ->
  file (disk (NewWorldviewManagerWithTokenBudget dir d tbm)) = None
  /\ current (mgr (NewWorldviewManagerWithTokenBudget dir d tbm)) = [].
Proof. destruct d as [fl dk rd wr ck]. simpl. by intros ->. Qed.

Lemma character_absent (dir : string) (d : Storage)
    (tbm : TokenBudgetManager) :
  file d = None ->
  file (disk (NewCharacterManagerWithTokenBudget dir d tbm)) = None
  /\ current (mgr (NewCharacterManagerWithTokenBudget dir d tbm)) = [].
Proof. destruct d as [fl dk rd wr ck]. simpl. by intros ->. Qed.

(** C5 (amended).  The formatted context always has the same six headed
    sections in the same order: title, summary, worldview, characters,
    current chapter, plan (the chapter comes before the plan).  The
    builder fills an empty title, summary or worldview with its
    placeholder, so these three are never empty, and they are the
    placeholder when the file behind them is missing.  The characters, the
    chapter and the plan have no placeholder: when the character file is
    missing, the chapter cannot be read or there is no plan, the section
    keeps its heading and has an empty body. *)
Theorem FormatContext_sections :
  (forall ctx : ContextData,
     FormatContext ctx =
       runes "章节标题: " ++ Title ctx
       ++ [nl; nl] ++ runes "章节摘要:" ++ [nl] ++ Summary ctx
       ++ [nl; nl] ++ runes "世界观:" ++ [nl] ++ Worldview ctx
       ++ [nl; nl] ++ runes "角色信息:" ++ [nl] ++ Characters ctx
       ++ [nl; nl] ++ runes "当前章节:" ++ [nl] ++ Chapter ctx
       ++ [nl; nl] ++ runes "规划信息:" ++ [nl] ++ Plan ctx)
  /\ (forall (NovelDir : string) (world : Novel)
             (tokenPercentages : option TokenPercentages) (maxTokens : Z)
             (ctx : ContextData),
        BuildTokenAwareContext NovelDir world tokenPercentages maxTokens
          = inr ctx ->
        (Title ctx <> [] /\ Summary ctx <> [] /\ Worldview ctx <> [])
        /\ (file (titleFile world) = None ->
            Title ctx = runes "无章节标题")
        /\ (file (indexFile world) = None ->
            Summary ctx = runes "暂无章节摘要")
        /\ (file (worldviewFile world) = None ->
            Worldview ctx = runes "暂无世界观设定")
        /\ (file (characterFile world) = None -> Characters ctx = [])
        /\ (latestChapter world = None -> Chapter ctx = [])
        /\ (planText world = [] -> Plan ctx = [])).
Proof.
  split.
  - intros ctx. unfold FormatContext.
    match goal with
    | |- Sprintf ?format _ = _ =>
        assert (format =
                  runes "章节标题: " ++ [0x25; 0x73]
                  ++ [nl; nl] ++ runes "章节摘要:" ++ [nl] ++ [0x25; 0x73]
                  ++ [nl; nl] ++ runes "世界观:" ++ [nl] ++ [0x25; 0x73]
                  ++ [nl; nl] ++ runes "角色信息:" ++ [nl] ++ [0x25; 0x73]
                  ++ [nl; nl] ++ runes "当前章节:" ++ [nl] ++ [0x25; 0x73]
                  ++ [nl; nl] ++ runes "规划信息:" ++ [nl] ++ [0x25; 0x73]
                  ++ []) as ->
          by (vm_compute; reflexivity)
    end.
    repeat first
      [ rewrite Sprintf_verb_app
      | rewrite Sprintf_literal by (vm_compute; reflexivity) ].
    simpl Sprintf. by rewrite app_nil_r.
  - intros NovelDir world pct maxTokens ctx Hb.
    unfold BuildTokenAwareContext in Hb.
    destruct (NewTokenBudgetManager maxTokens pct) as [err|tbm] eqn:Hnew;
      [done|].
    assert (is_Some (GetAllocatedTokens tbm !! "plan")) as [nplan Hplan].
    { apply (AllocateTokens_Some _ _ (token.Plan (percentages tbm))).
      by rewrite (built_components _ (built_new _ _ _ Hnew)). }
    match type of Hb with
    | (let '(_, _) := ?x in _) = _ =>
        destruct x as [title summary] eqn:Hindex
    end.
    injection Hb as <-.
    cbn [Title Summary Worldview Characters Chapter Plan].
    conjs; try (apply orDefault_nonempty; vm_compute; discriminate).
    + intros Hfile.
      destruct (bool_decide (NovelDir = EmptyString)); simpl in Hindex.
      * by injection Hindex as <- <-.
      * destruct (NewIndexReaderWithTokenBudget _ _ _ _) as [reader s0].
        destruct (_ !! "index"); injection Hindex as <- <-;
          by rewrite GetTitle_absent.
    + intros Hfile.
      destruct (bool_decide (NovelDir = EmptyString)); simpl in Hindex.
      * by injection Hindex as <- <-.
      * pose proof (GetSummary_absent (unmarshalIndex world) NovelDir
                      (indexFile world) tbm) as Habs.
        destruct (NewIndexReaderWithTokenBudget _ _ _ _) as [reader s0].
        simpl in Habs.
        destruct (_ !! "index") as [n|]; injection Hindex as <- <-.
        -- by rewrite (proj1 (Habs n Hfile)).
        -- by rewrite (proj2 (Habs 0 Hfile)).
    + intros Hfile.
      destruct (worldview_absent NovelDir (worldviewFile world) tbm Hfile)
        as [Hd Hc].
      destruct (_ !! "worldview") as [n|].
      * by rewrite (proj1 (GetCurrent_absent "worldview" n _ Hd Hc)).
      * by rewrite (proj2 (GetCurrent_absent "worldview" 0 _ Hd Hc)).
    + intros Hfile.
      destruct (character_absent (filepath_Join NovelDir "character.md")
                  (characterFile world) tbm Hfile) as [Hd Hc].
      destruct (_ !! "character") as [n|].
      * by rewrite (proj1 (GetCurrent_absent "character" n _ Hd Hc)).
      * by rewrite (proj2 (GetCurrent_absent "character" 0 _ Hd Hc)).
    + intros ->. by destruct (_ !! "chapters").
    + intros ->. by rewrite Hplan.
Qed.

End Assembler.

(** C5, counterexample.  In a novel directory with no index, no worldview
    and no character file, whose latest chapter is "C" and whose plan text is
    "P", the context is built with the three placeholders and with empty
    characters.  Its formatted text shows the characters section with an
    empty body, not a placeholder, and the chapter section before the plan
    section. *)
Lemma FormatContext_empty_section_and_order :
  content.BuildTokenAwareContext "novel" bareNovel None 1000 =
    inr {| content.Title := runes "无章节标题";
           content.Summary := runes "暂无章节摘要";
           content.Worldview := runes "暂无世界观设定";
           content.Characters := [];
           content.Chapter := runes "C";
           content.Plan := runes "P" |}
  /\ content.FormatContext
       {| content.Title := runes "无章节标题";
          content.Summary := runes "暂无章节摘要";
          content.Worldview := runes "暂无世界观设定";
          content.Characters := [];
          content.Chapter := runes "C";
          content.Plan := runes "P" |}
     = runes "章节标题: 无章节标题

章节摘要:
暂无章节摘要

世界观:
暂无世界观设定

角色信息:


当前章节:
C

规划信息:
P".
Proof. split; vm_compute; reflexivity. Qed.

(** ** The code-point fallback of the file managers *)

Section CodePointSearch.

Variable c : TokenCounter.
Variable limit : Z.
Variable line : gostring.

Let estimateOf : Z -> Z := prefixEstimate c line.
Let searchInv : Z -> Z -> Z -> Prop := searchState c limit line.

(** The estimate does not decrease along the prefixes of the line. *)
Hypothesis monotone :
  forall j k, 0 < j <= k -> k <= Z.of_nat (length line) ->
              estimateOf k <= limit -> estimateOf j <= limit.

Lemma searchLoop_correct (fuel : nat) (left right bestEnd : Z) :
  searchInv left right bestEnd ->
  right - left < Z.of_nat fuel ->
  let best := searchLoop fuel c limit line left right bestEnd in
  0 <= best <= Z.of_nat (length line)
  /\ (0 < best -> estimateOf best <= limit)
  /\ (forall k, best < k <= Z.of_nat (length line) -> limit < estimateOf k).
Proof.
  revert left right bestEnd.
  induction fuel as [|fuel IH]; intros left right bestEnd Hinv Hfuel.
  - destruct Hinv as (Hl & Hr & Hn & Hb & Hfit & Hbest & Hover).
    simpl. assert ((left <=? right) = false) as -> by lia.
    conjs; [lia | lia | done |].
    intros k Hk. destruct (Z.le_gt_cases k right) as [Hle|Hgt].
    + destruct (Z.le_gt_cases (estimateOf k) limit) as [Hok|]; [|done].
      assert (k <= bestEnd) by (apply Hbest; [lia|done]). lia.
    + apply Hover. lia.
  - destruct Hinv as (Hl & Hr & Hn & Hb & Hfit & Hbest & Hover).
    cbn [searchLoop]. destruct (Z.leb_spec left right) as [Hle|Hgt].
    + assert (Hmid : left <= Z.quot (left + right) 2 <= right).
      { rewrite Z.quot_div_nonneg by lia.
        pose proof (Z.div_mod (left + right) 2 ltac:(lia)).
        pose proof (Z.mod_pos_bound (left + right) 2 ltac:(lia)). lia. }
      set (mid := Z.quot (left + right) 2) in *.
      destruct (Z.eqb_spec mid 0) as [Hz|Hnz].
      * apply IH; [|lia]. unfold searchInv, searchState.
        conjs; try lia; try done; intros k Hk; lia.
      * fold (prefixEstimate c line mid). fold (estimateOf mid).
        destruct (Z.leb_spec (estimateOf mid) limit) as [Hok|Hno].
        -- apply IH; [|lia]. unfold searchInv, searchState.
           conjs; try lia; try done; intros k Hk _; lia.
        -- apply IH; [|lia]. unfold searchInv, searchState. conjs; try lia; try done.
           intros k Hk.
           destruct (Z.le_gt_cases k right) as [Hkr|Hkr]; [|apply Hover; lia].
           destruct (Z.le_gt_cases (estimateOf k) limit) as [Hfits|]; [|done].
           assert (estimateOf mid <= limit)
             by (apply (monotone mid k); [lia|lia|done]).
           lia.
    + conjs; [lia | lia | done |].
      intros k Hk. destruct (Z.le_gt_cases k right) as [Hkr|Hkr].
      * destruct (Z.le_gt_cases (estimateOf k) limit) as [Hok|]; [|done].
        assert (k <= bestEnd) by (apply Hbest; [lia|done]). lia.
      * apply Hover. lia.
Qed.

(** The binary search ends within its fuel and returns the longest prefix
    of the line whose estimate is within a positive limit, or the empty
    string when no prefix is. *)
Theorem truncateLineByCharacters_longest :
  0 < limit ->
  exists best,
    truncateLineByCharacters c line limit = firstn (Z.to_nat best) line
    /\ 0 <= best <= Z.of_nat (length line)
    /\ (0 < best -> estimateOf best <= limit)
    /\ (forall k, best < k <= Z.of_nat (length line) -> limit < estimateOf k).
Proof.
  intros Hlimit. unfold truncateLineByCharacters.
  assert ((limit <=? 0) = false) as -> by lia.
  assert (searchInv 0 (Z.of_nat (length line)) 0) as Hinv.
  { unfold searchInv, searchState. conjs; try lia; intros k Hk; lia. }
  pose proof (searchLoop_correct (S (length line)) 0
                (Z.of_nat (length line)) 0 Hinv ltac:(lia)) as Hs.
  cbv zeta in Hs.
  set (best := searchLoop (S (length line)) c limit line 0
                          (Z.of_nat (length line)) 0) in *.
  exists best. destruct Hs as (Hb & Hfit & Hover).
  conjs; try done; try lia.
  destruct (Z.eqb_spec best 0) as [->|]; done.
Qed.

End CodePointSearch.

(** ** Lines of ideographs *)

Section Ideographs.

Context `{unicode.Tables}.

Lemma isChinese_not_space (r : rune) :
  isChinese r = true -> unicode.IsSpace r = false.
Proof.
  intros Hr. assert (0x3400 <= r) as Hlo.
  { unfold isChinese, utf8.inRange in Hr.
    rewrite !orb_true_iff, !andb_true_iff, !Z.leb_le in Hr. lia. }
  unfold unicode.IsSpace, utf8.inRange.
  assert ((r <=? 0xFF) = false) as -> by lia.
  assert ((r =? 0x1680) = false) as -> by lia.
  assert ((r <=? 0x200A) = false) as -> by lia.
  assert ((r =? 0x2028) = false) as -> by lia.
  assert ((r =? 0x2029) = false) as -> by lia.
  assert ((r =? 0x202F) = false) as -> by lia.
  assert ((r =? 0x205F) = false) as -> by lia.
  assert ((r =? 0x3000) = false) as -> by lia.
  by rewrite andb_false_r.
Qed.

Lemma countIf_all (p : rune -> bool) (word : gostring) :
  forallb p word = true -> countIf p word = Z.of_nat (length word).
Proof.
  induction word as [|r word IH]; [done|]. simpl. intros Hw.
  apply andb_prop in Hw as [Hr Hw]. unfold countIf in *. simpl.
  rewrite Hr, countIf_shift. unfold countIf. rewrite IH by done. lia.
Qed.

(** A run of ideographs is estimated at one and a half tokens per code
    point, rounded down. *)
Lemma SimpleCount_ideographs (word : gostring) :
  forallb isChinese word = true ->
  SimpleCount NewSimpleTokenCounter word = (3 * Z.of_nat (length word)) / 2.
Proof.
  intros Hw. destruct word as [|r word]; [done|].
  unfold SimpleCount. simpl isEmpty.
  assert (isWord (r :: word)) as Hword.
  { split; [done|]. apply forallb_forall. intros x Hx.
    apply negb_true_iff, isChinese_not_space.
    by apply (proj1 (forallb_forall _ _) Hw). }
  rewrite (Fields_of_word _ Hword). simpl fold_left.
  unfold countWord. rewrite isChineseWord_cjkDominant.
  assert (spec.cjkDominant (r :: word) = true) as ->.
  { unfold spec.cjkDominant. rewrite countIf_all by done.
    apply Z.ltb_lt. simpl length. lia. }
  rewrite tokensOf_simple; cbn [chineseChars englishWords numbers
    punctuation tally0]; unfold utf8.RuneCountInString; try lia.
  rewrite !Z.add_0_l. change (3 * 0 / 4) with 0. change (0 / 2) with 0.
  change (0 / 3) with 0. lia.
Qed.

Lemma forallb_firstn {A} (p : A -> bool) (n : nat) (l : list A) :
  forallb p l = true -> forallb p (firstn n l) = true.
Proof.
  revert n; induction l as [|x l IH]; intros [|n]; simpl; try done.
  intros Hl. apply andb_prop in Hl as [-> Hl]. by rewrite IH.
Qed.

(** X1.  On a line of ideographs the code-point fallback keeps as many code
    points as one and a half tokens each allow: the longest prefix whose
    estimate is within the limit. *)
Theorem truncateLineByCharacters_ideographs (line : gostring) (limit : Z) :
  forallb isChinese line = true ->
  0 < limit ->
  truncateLineByCharacters (asTokenCounter NewSimpleTokenCounter) line limit
  = firstn (Z.to_nat ((2 * limit + 1) / 3)) line.
Proof.
  intros Hline Hlimit.
  assert (forall k, 0 <= k <= Z.of_nat (length line) ->
            prefixEstimate (asTokenCounter NewSimpleTokenCounter) line k
            = (3 * k) / 2) as Hcount.
  { intros k Hk. unfold prefixEstimate. simpl Count.
    rewrite SimpleCount_ideographs by (by apply forallb_firstn).
    rewrite length_firstn. do 2 f_equal. lia. }
  destruct (truncateLineByCharacters_longest
              (asTokenCounter NewSimpleTokenCounter) limit line)
    as (best & -> & Hb & Hfit & Hover); [|done|].
  { intros j k Hjk Hk. rewrite !Hcount by lia. intros Hle.
    etrans; [|exact Hle]. apply Z.div_le_mono; lia. }
  set (m := (2 * limit + 1) / 3).
  assert (3 * m <= 2 * limit + 1 < 3 * m + 3) as Hm.
  { unfold m. pose proof (Z.div_mod (2 * limit + 1) 3 ltac:(lia)).
    pose proof (Z.mod_pos_bound (2 * limit + 1) 3 ltac:(lia)). lia. }
  assert (forall k, 0 <= k -> (3 * k) / 2 <= limit <-> k <= m) as Hiff.
  { intros k Hk.
    pose proof (Z.div_mod (3 * k) 2 ltac:(lia)).
    pose proof (Z.mod_pos_bound (3 * k) 2 ltac:(lia)). lia. }
  assert (best <= m) as Hbm.
  { destruct (Z.eq_dec best 0) as [->|]; [lia|].
    apply Hiff; [lia|]. rewrite <- Hcount by lia. apply Hfit. lia. }
  destruct (Z.le_gt_cases (Z.of_nat (length line)) best) as [Hfull|Hshort].
  - rewrite !firstn_all2 by lia. done.
  - assert (limit < (3 * (best + 1)) / 2) as Hnext.
    { rewrite <- Hcount by lia. apply Hover. lia. }
    assert (~ (best + 1 <= m)) by (rewrite <- Hiff by lia; lia).
    by replace best with m by lia.
Qed.

End Ideographs.

(** X1, witness: the 1200 ideographs and the limit 50. *)
Lemma truncateLineByCharacters_ideographs_witness :
  truncateLineByCharacters simple cjk1200 50 = firstn 33 cjk1200.
Proof.
  apply (truncateLineByCharacters_ideographs cjk1200 50);
    [vm_compute; reflexivity | lia].
Defined.

(** The scenario of the specification on the path that has the code-point
    fallback: a file manager without a budget manager keeps the first 33 of
    the 1200 ideographs, estimated at 49 tokens, and one more code point
    would be estimated at 51. *)
Lemma TruncateToLimit_cjk_scenario :
  TruncateToLimit (NewBaseFileManager "chapter") cjk1200 50
    = (firstn 33 cjk1200, 49)
  /\ Count simple (firstn 34 cjk1200) = 51.
Proof. split; vm_compute; reflexivity. Qed.

(** ** Consequences for the assembled context and the cache *)

Section Consequences.

Context `{unicode.Tables}.

(** X2.  Since the index reader truncates under "default", the summary of
    a token-aware context is always the placeholder, whatever the index
    holds. *)
Theorem BuildTokenAwareContext_summary_is_placeholder (NovelDir : string)
    (world : content.Novel) (tokenPercentages : option TokenPercentages)
    (maxTokens : Z) (ctx : content.ContextData) :
  content.BuildTokenAwareContext NovelDir world tokenPercentages maxTokens
    = inr ctx ->
  content.Summary ctx = runes "暂无章节摘要".
Proof.
  intros Hb. unfold content.BuildTokenAwareContext in Hb.
  destruct (NewTokenBudgetManager maxTokens tokenPercentages)
    as [err|tbm] eqn:Hnew; [done|].
  assert (built tbm) as Hbuilt by (by eapply built_new).
  assert (is_Some (GetAllocatedTokens tbm !! "index")) as [n Hn].
  { unfold GetAllocatedTokens.
    apply (AllocateTokens_Some _ _ (Index (percentages tbm))).
    by rewrite (built_components _ Hbuilt). }
  rewrite Hn in Hb.
  assert (forall s : St, tokenBudget (mgr s) = Some tbm ->
            forall ir, fst (fst (fst (GetSummaryWithTokenLimit
                                        (content.unmarshalIndex world) ir n s)))
                       = []) as Hempty.
  { intros s Hs ir. unfold GetSummaryWithTokenLimit, bind.
    pose proof (keepsBudget_GetSummary (content.unmarshalIndex world) ir s)
      as Hkeep.
    destruct (GetSummary _ ir s) as [[summary ir'] s']. simpl in *.
    destruct (isEmpty summary); [done|]. simpl.
    unfold TruncateToLimit. rewrite Hkeep, Hs.
    unfold TruncateToTokenLimit. destruct (isEmpty summary); [done|].
    by rewrite built_default_allocation. }
  destruct (bool_decide (NovelDir = EmptyString)); simpl in Hb.
  - injection Hb as <-. done.
  - unfold NewIndexReaderWithTokenBudget in Hb.
    destruct (NewIndexReader _ NovelDir _) as [reader s0].
    rewrite Hempty in Hb by done.
    injection Hb as <-. done.
Qed.

(** X3.  Cache freshness: right after a successful [Update], [GetCurrent]
    returns exactly the text written, with no change of modification time
    needed. *)
Theorem Update_then_GetCurrent (b : BaseFileManager) (d : Storage)
    (text : gostring) :
  match run (Update text) b d with
  | (None, s) => fst (GetCurrent s) = text
  | (Some _, _) => True
  end.
Proof.
  destruct b as [p cur t tc tb], d as [fl [] rd [] ck]; cbn; try done.
  rewrite Z.ltb_irrefl. destruct text, rd; by cbn.
Qed.

End Consequences.

(** X2, witness: a novel whose index holds the summary of a chapter: the
    summary read is "ch1: the hero leaves home", and still the context
    carries the placeholder. *)
Lemma BuildTokenAwareContext_summary_is_placeholder_witness :
  fst (fst (GetSummary (content.unmarshalIndex indexedNovel)
              (fst (NewIndexReader (content.unmarshalIndex indexedNovel)
                      "novel" (content.indexFile indexedNovel)))
              (snd (NewIndexReader (content.unmarshalIndex indexedNovel)
                      "novel" (content.indexFile indexedNovel)))))
    = runes "ch1: the hero leaves home"
  /\ content.Summary
       {| content.Title := runes "无章节标题";
          content.Summary := runes "暂无章节摘要";
          content.Worldview := runes "暂无世界观设定";
          content.Characters := [];
          content.Chapter := runes "C";
          content.Plan := runes "P" |}
     = runes "暂无章节摘要".
Proof.
  split; [vm_compute; reflexivity|].
  apply (BuildTokenAwareContext_summary_is_placeholder "novel" indexedNovel
           None 1000).
  vm_compute; reflexivity.
Defined.

(** ** The accounts of a budget *)

Section Accounts.

Context `{unicode.Tables}.

Lemma UseTokens_step (tb : TokenBudget) (count : Z) :
  0 <= count -> 0 <= Remaining tb -> 0 <= Used tb ->
  let tb' := snd (UseTokens tb count) in
  Used tb' + Remaining tb' = Used tb + Remaining tb
  /\ 0 <= Remaining tb' /\ 0 <= Used tb'
  /\ Total tb' = Total tb /\ Percentages tb' = Percentages tb.
Proof.
  intros Hc Hr Hu. cbv zeta. unfold UseTokens.
  destruct (Z.leb_spec count (Remaining tb)); simpl; conjs; lia || done.
Qed.

(** X5.  The accounts of a budget stay balanced: starting from a new budget
    with a total that is not negative, after any series of requests for
    non-negative amounts, granted or refused, used + remaining is the total,
    neither is negative, and the total and the percentages are what they
    were. *)
Theorem UseTokens_keeps_accounts (total : Z) (weights : gmap string float)
    (counts : list Z) :
  0 <= total ->
  Forall (fun count => 0 <= count) counts ->
  let tb := spend (NewTokenBudget total weights) counts in
  Used tb + Remaining tb = total
  /\ 0 <= Remaining tb /\ 0 <= Used tb
  /\ Total tb = total /\ Percentages tb = weights.
Proof.
  intros Ht Hcounts.
  assert (forall tb0,
            Used tb0 + Remaining tb0 = total -> 0 <= Remaining tb0 ->
            0 <= Used tb0 -> Total tb0 = total -> Percentages tb0 = weights ->
            let tb := spend tb0 counts in
            Used tb + Remaining tb = total
            /\ 0 <= Remaining tb /\ 0 <= Used tb
            /\ Total tb = total /\ Percentages tb = weights) as Hgen.
  { induction Hcounts as [|count counts Hc _ IH]; intros tb0 Hsum Hr Hu HT HP.
    - simpl. conjs; done.
    - simpl. destruct (UseTokens_step tb0 count Hc Hr Hu)
        as (Hs' & Hr' & Hu' & HT' & HP').
      apply IH; congruence || lia. }
  apply Hgen; simpl; lia || done.
Qed.

(** A request is granted exactly when it fits in what remains, and a
    refused request changes nothing. *)
Lemma UseTokens_refused (tb : TokenBudget) (count : Z) :
  fst (UseTokens tb count) = (count <=? Remaining tb)
  /\ (Remaining tb < count -> snd (UseTokens tb count) = tb).
Proof.
  unfold UseTokens. destruct (Z.leb_spec count (Remaining tb)); simpl.
  - split; [done|lia].
  - done.
Qed.

(** What every built manager satisfies. *)
Lemma built_inv (tbm : TokenBudgetManager) :
  built tbm ->
  0 < maxTokens tbm
  /\ Validate (percentages tbm) = None
  /\ budget tbm = NewTokenBudget (maxTokens tbm) (ToMap (percentages tbm))
  /\ counter tbm = asTokenCounter NewSimpleTokenCounter.
Proof.
  induction 1 as [m pct tbm Hnew | tbm pct' _ IH].
  - unfold NewTokenBudgetManager in Hnew.
    destruct (Z.leb_spec m 0); [done|].
    destruct (Validate _) eqn:Hv; [done|]. injection Hnew as <-. simpl.
    conjs; done.
  - unfold UpdatePercentages. destruct (Validate pct') eqn:Hv; simpl; [done|].
    destruct IH as (? & ? & ? & ?). conjs; done.
Qed.

(** X6.  No method of the budget manager spends tokens: for every manager
    that [NewTokenBudgetManager] builds, after any number of calls to
    [UpdatePercentages], [GetUsageStats] reports 0 used tokens and the whole
    of [maxTokens], which is positive, as remaining and as total. *)
Theorem GetUsageStats_never_used (tbm : TokenBudgetManager) :
  built tbm ->
  statUsed (GetUsageStats tbm) = 0
  /\ statRemaining (GetUsageStats tbm) = maxTokens tbm
  /\ statTotal (GetUsageStats tbm) = maxTokens tbm
  /\ 0 < maxTokens tbm
  /\ statAllocation (GetUsageStats tbm)
     = AllocateTokens (NewTokenBudget (maxTokens tbm)
                                      (ToMap (percentages tbm))).
Proof.
  intros Hb. destruct (built_inv tbm Hb) as (Hpos & _ & Hbud & _).
  unfold GetUsageStats, GetUsageInfo, GetAllocatedTokens. rewrite Hbud. simpl.
  conjs; done.
Qed.

(** X7.  [ValidateContent] accepts a content map exactly when every entry
    whose component has an allocation counts within it; entries of other
    components are not looked at.  This does not depend on the order in
    which the map is ranged over. *)
Theorem ValidateContent_accepts_iff (tbm : TokenBudgetManager)
    (content : gmap string gostring) :
  token.ValidateContent tbm content = None
  <-> (forall component text maxTokens,
         content !! component = Some text ->
         GetAllocatedTokens tbm !! component = Some maxTokens ->
         Count (counter tbm) text <= maxTokens).
Proof.
  unfold token.ValidateContent.
  apply (map_fold_weak_ind
           (fun r (m : gmap string gostring) =>
              r = None
              <-> (forall component text maxTokens,
                     m !! component = Some text ->
                     GetAllocatedTokens tbm !! component = Some maxTokens ->
                     Count (counter tbm) text <= maxTokens))).
  - split; [|done]. intros _ component text n. by rewrite lookup_empty.
  - intros k text m r Hk IH. unfold validateStep. split.
    + destruct r as [err|]; [done|].
      intros Hstep component text' n.
      destruct (decide (component = k)) as [->|Hne].
      * rewrite lookup_insert_eq. intros [= <-] Hn. rewrite Hn in Hstep.
        destruct (Z.gtb_spec (Count (counter tbm) text) n); [done|lia].
      * rewrite lookup_insert_ne by done. by apply IH.
    + intros Hall.
      assert (r = None) as ->.
      { apply IH. intros component text' n Hc. apply Hall.
        rewrite lookup_insert_ne; [done|]. intros ->. by rewrite Hk in Hc. }
      destruct (GetAllocatedTokens tbm !! k) as [n|] eqn:Hn; [|done].
      assert (Count (counter tbm) text <= n) as Hle
        by (apply (Hall k); [by rewrite lookup_insert_eq|done]).
      destruct (Z.gtb_spec (Count (counter tbm) text) n); [lia|done].
Qed.

(** When [ValidateContent] reports an error, it is the count and the
    allocation of an entry that overflows. *)
Lemma ValidateContent_error (tbm : TokenBudgetManager)
    (content : gmap string gostring) (actualTokens limit : Z) :
  token.ValidateContent tbm content = Some (ErrTokenCount actualTokens limit) ->
  exists component text,
    content !! component = Some text
    /\ GetAllocatedTokens tbm !! component = Some limit
    /\ actualTokens = Count (counter tbm) text
    /\ limit < actualTokens.
Proof.
  unfold token.ValidateContent.
  apply (map_fold_weak_ind
           (fun r (m : gmap string gostring) =>
              r = Some (ErrTokenCount actualTokens limit) ->
              exists component text,
                m !! component = Some text
                /\ GetAllocatedTokens tbm !! component = Some limit
                /\ actualTokens = Count (counter tbm) text
                /\ limit < actualTokens)); [done|].
  intros k text m r Hk IH. unfold validateStep.
  destruct r as [err|].
  - intros Herr. destruct (IH Herr) as (c & t & Hc & Hrest).
    exists c, t. split; [|done]. rewrite lookup_insert_ne; [done|].
    intros ->. by rewrite Hk in Hc.
  - destruct (GetAllocatedTokens tbm !! k) as [n|] eqn:Hn; [|done].
    destruct (Z.gtb_spec (Count (counter tbm) text) n); [|done].
    intros [= <- <-]. exists k, text. rewrite lookup_insert_eq. conjs; done || lia.
Qed.

End Accounts.

(** X5, witness: 10 tokens and the requests 3, 9 and 4; the second is
    refused. *)
Lemma UseTokens_keeps_accounts_witness :
  Used (spend tenTokens [3; 9; 4]) = 7
  /\ Used (spend tenTokens [3; 9; 4]) + Remaining (spend tenTokens [3; 9; 4])
     = 10.
Proof.
  split; [reflexivity|].
  assert (0 <= 10) as Htotal by lia.
  assert (Forall (fun count => 0 <= count) [3; 9; 4]) as Hcounts
    by (repeat constructor; lia).
  exact (proj1 (UseTokens_keeps_accounts 10 ∅ [3; 9; 4] Htotal Hcounts)).
Defined.

(** X6, witness: the manager built from the default percentages and the
    total 1000. *)
Lemma GetUsageStats_never_used_witness :
  statUsed (GetUsageStats (managerOf 1000 DefaultTokenPercentages)) = 0
  /\ statRemaining (GetUsageStats (managerOf 1000 DefaultTokenPercentages))
     = 1000.
Proof.
  assert (built (managerOf 1000 DefaultTokenPercentages)) as Hbuilt
    by (by apply (built_new 1000 None)).
  pose proof (GetUsageStats_never_used _ Hbuilt) as (Hused & Hrem & _).
  split; [exact Hused|exact Hrem].
Defined.

(** ** What a budget manager hands out *)

Section ValidSum.

Import Binary64.

(** The absolute value of what rounds a magnitude under the minus sign. *)
Lemma abs_rounds (x : Q) (f : float) :
  rounds true x (Prim2SF f) -> (x < pow2 1023)%Q ->
  finiteNonneg (abs f)
  /\ (Qabs (valueOf (abs f) - x) <= eps64 * x + tiny64)%Q.
Proof.
  unfold finiteNonneg, valueOf. rewrite abs_spec.
  destruct (Prim2SF f) as [s|s| |s m e]; cbn [rounds SFabs magnitude];
    [| |done|].
  - intros [_ Hr] _. split; [exact I|]. exact Hr.
  - intros [_ Hr] Hx. lra.
  - intros [_ Hr] _. split; [exact I|]. exact Hr.
Qed.

(** A sum below 0.989 is not within 0.01 of 1. *)
Lemma below_one (total : float) :
  finiteNonneg total -> (valueOf total < 989 # 1000)%Q ->
  (0.01 <? abs (total - 1.0))%float = true.
Proof.
  intros Ht Hv.
  assert (finiteNonneg 0.01 /\ (valueOf 0.01 <= 1001 # 100000)%Q)
    as [Hf1 Hv1] by (split; [exact I|vm_compute; discriminate]).
  assert (rounds true (1 - valueOf total) (Prim2SF (total - 1.0))) as Hr.
  { rewrite FloatAxioms.sub_spec. unfold finiteNonneg, valueOf in *.
    destruct (Prim2SF total) as [s| | |[] m e] eqn:Et; try done.
    change (Prim2SF 1.0) with (S754_finite false 4503599627370496 (-52)).
    cbn [cond_Zopp] in *.
    assert (inject_Z (Zpos 4503599627370496) * pow2 (-52) == 1)%Q as H1
      by reflexivity.
    apply (rounds_proper true
             (inject_Z (Zpos 4503599627370496) * pow2 (-52)
              - inject_Z (Zpos m) * pow2 e)); [by rewrite H1|].
    apply SFsub_rounds_below. rewrite H1. lra. }
  pose proof pow2_1023_large as Hbig.
  change (inject_Z (2 ^ 63)) with (9223372036854775808 # 1)%Q in Hbig.
  pose proof (valueOf_nonneg total Ht) as Hv0.
  destruct (abs_rounds _ _ Hr ltac:(lra)) as [Hfa Hva].
  apply ltb_value; [done|done|].
  apply Qabs_bound_inv in Hva as [Hl _].
  pose proof eps64_value as Heps. pose proof tiny64_small as [_ Htiny].
  rewrite Heps in Hl. lra.
Qed.

Lemma add_upper (a b : float) (x y : Q) :
  finiteNonneg a -> finiteNonneg b ->
  (valueOf a <= x)%Q -> (valueOf b <= y)%Q -> (x + y <= 16)%Q ->
  finiteNonneg (a + b)
  /\ (valueOf (a + b) <= x + y + (1 # 281474976710656))%Q.
Proof.
  intros Ha Hb Hx Hy Hxy.
  pose proof (valueOf_nonneg a Ha). pose proof (valueOf_nonneg b Hb).
  pose proof pow2_1023_large as Hbig.
  change (inject_Z (2 ^ 63)) with (9223372036854775808 # 1)%Q in Hbig.
  destruct (nearly_finite _ _ (add_nearly a b Ha Hb) ltac:(lra)) as [Hf He].
  split; [done|].
  apply Qabs_bound_inv in He as [_ Hu].
  pose proof eps64_value as Heps. pose proof tiny64_small as [_ Htiny].
  rewrite Heps in Hu. lra.
Qed.

(** The percentages that [Validate] accepts sum to at least 0.98. *)
Lemma Validate_sum (tp : TokenPercentages) :
  Validate tp = None -> areNumbers tp = true ->
  (98 # 100 <= valueOf (token.Plan tp) + valueOf (token.Character tp)
               + valueOf (token.Worldview tp) + valueOf (token.Chapters tp)
               + valueOf (token.Index tp))%Q.
Proof.
  intros Hv Hn. pose proof (Validate_weights tp Hv Hn) as Hw.
  destruct (weightOk_spec _ (Hw "plan" (token.Plan tp) eq_refl))
    as [F1 V1].
  destruct (weightOk_spec _ (Hw "character" (token.Character tp) eq_refl))
    as [F2 V2].
  destruct (weightOk_spec _ (Hw "worldview" (token.Worldview tp) eq_refl))
    as [F3 V3].
  destruct (weightOk_spec _ (Hw "chapters" (token.Chapters tp) eq_refl))
    as [F4 V4].
  destruct (weightOk_spec _ (Hw "index" (token.Index tp) eq_refl))
    as [F5 V5].
  pose proof (valueOf_nonneg _ F1). pose proof (valueOf_nonneg _ F2).
  pose proof (valueOf_nonneg _ F3). pose proof (valueOf_nonneg _ F4).
  pose proof (valueOf_nonneg _ F5).
  set (Q := (98 # 100)%Q).
  destruct (Qlt_le_dec
              (valueOf (token.Plan tp) + valueOf (token.Character tp)
               + valueOf (token.Worldview tp) + valueOf (token.Chapters tp)
               + valueOf (token.Index tp)) Q) as [Hlt|Hge]; [|done].
  unfold Q in *. exfalso.
  destruct (add_upper _ _ _ _ F1 F2 (Qle_refl _) (Qle_refl _) ltac:(lra))
    as [G2 U2].
  destruct (add_upper _ _ _ _ G2 F3 U2 (Qle_refl _) ltac:(lra)) as [G3 U3].
  destruct (add_upper _ _ _ _ G3 F4 U3 (Qle_refl _) ltac:(lra)) as [G4 U4].
  destruct (add_upper _ _ _ _ G4 F5 U4 (Qle_refl _) ltac:(lra)) as [G5 U5].
  unfold Validate in Hv. cbv zeta in Hv.
  rewrite below_one in Hv; [done|done|lra].
Qed.

End ValidSum.

Section HandedOut.

Import Binary64.

Implicit Types (m allocation raw : gmap string Z)
  (weights : gmap string float).

Lemma size_ToMap (tp : TokenPercentages) : size (ToMap tp) = 5%nat.
Proof.
  unfold ToMap.
  rewrite !map_size_insert_None, map_size_empty
    by (by rewrite ?lookup_insert_ne, ?lookup_empty).
  done.
Qed.

(** The sum over the five categories. *)
Lemma sumAlloc_ToMap (f : float -> Z) (tp : TokenPercentages) :
  sumAlloc (f <$> ToMap tp)
  = f (token.Plan tp) + f (token.Character tp) + f (token.Worldview tp)
    + f (token.Chapters tp) + f (token.Index tp).
Proof.
  unfold ToMap. rewrite !fmap_insert, fmap_empty.
  rewrite !sumAlloc_insert, sumAlloc_empty
    by (by rewrite ?lookup_insert_ne, ?lookup_empty).
  lia.
Qed.

Lemma adjusted_lower (ratio : float) (q : Q) (value : Z) :
  finiteNonneg ratio -> (0 < q /\ q < 1)%Q ->
  (Qabs (valueOf ratio - q) <= eps64 * q + tiny64)%Q ->
  0 <= value < 2 ^ 52 ->
  ((q - (1 # 2251799813685248)) * inject_Z value
   - (1 + (1 # 9223372036854775808))
   <= inject_Z (adjusted ratio value))%Q.
Proof.
  intros Hfr Hq Hr Hv.
  destruct (rescaled_value ratio q value Hfr Hq Hr Hv) as (P & HP & Hlo & Hhi).
  unfold adjusted. rewrite HP. pose proof (Qlt_floor P) as Hfl.
  rewrite inject_Z_plus in Hfl. change (inject_Z 1) with 1%Q in Hfl.
  assert (inject_Z (Qfloor P) <= inject_Z (Z.max 1 (Qfloor P)))%Q as Hmax
    by (rewrite <- Zle_Qle; lia).
  lra.
Qed.

Lemma sum_adjusted_lower (ratio : float) (q : Q) raw :
  finiteNonneg ratio -> (0 < q /\ q < 1)%Q ->
  (Qabs (valueOf ratio - q) <= eps64 * q + tiny64)%Q ->
  (forall k a, raw !! k = Some a -> 0 <= a < 2 ^ 52) ->
  ((q - (1 # 2251799813685248)) * inject_Z (sumAlloc raw)
   - inject_Z (Z.of_nat (size raw)) * (1 + (1 # 9223372036854775808))
   <= inject_Z (sumAlloc (adjusted ratio <$> raw)))%Q.
Proof.
  intros Hfr Hq Hr.
  induction raw as [|k a m Hk IH] using map_ind; intros Hb.
  - rewrite fmap_empty, sumAlloc_empty, map_size_empty.
    change (inject_Z 0) with 0%Q. change (inject_Z (Z.of_nat 0)) with 0%Q.
    lra.
  - rewrite fmap_insert, !sumAlloc_insert, map_size_insert_None
      by (by rewrite ?lookup_fmap, ?Hk).
    assert (0 <= a < 2 ^ 52) as Ha
      by (apply (Hb k); by rewrite lookup_insert_eq).
    pose proof (adjusted_lower ratio q a Hfr Hq Hr Ha) as Hone.
    assert (forall k' a', m !! k' = Some a' -> 0 <= a' < 2 ^ 52) as Hm.
    { intros k' a' Hk'. apply (Hb k'). rewrite lookup_insert_ne; [done|].
      intros ->. by rewrite Hk in Hk'. }
    specialize (IH Hm).
    rewrite Nat2Z.inj_succ. unfold Z.succ.
    rewrite !inject_Z_plus. change (inject_Z 1) with 1%Q. lra.
Qed.

(** A rounded share is more than [total * weight - 1]. *)
Lemma roundedShare_lower (total : Z) (w : float) :
  0 <= total <= 2 ^ 40 -> weightOk w = true ->
  (inject_Z total * valueOf w - 1 < inject_Z (roundedShare total w))%Q.
Proof.
  intros HT Hw. destruct (roundedShare_between total w HT Hw) as [Hfl _].
  pose proof (Qlt_floor (inject_Z total * valueOf w)) as Hlt.
  rewrite inject_Z_plus in Hlt. change (inject_Z 1) with 1%Q in Hlt.
  rewrite Zle_Qle in Hfl. lra.
Qed.

(** What valid percentages hand out: at least 98% of the total, less five
    tokens. *)
Lemma allocation_handed_out (total : Z) (tp : TokenPercentages) :
  0 < total <= 2 ^ 40 -> Validate tp = None -> areNumbers tp = true ->
  98 * total - 500
  <= 100 * sumAlloc (AllocateTokens (NewTokenBudget total (ToMap tp))).
Proof.
  intros HT Hv Hn. pose proof (Validate_weights tp Hv Hn) as Hw.
  pose proof (Validate_sum tp Hv Hn) as Hsum.
  rewrite AllocateTokens_eq. cbn [Total Percentages NewTokenBudget].
  set (raw := roundedShare total <$> ToMap tp).
  assert (forall k a, raw !! k = Some a -> 0 <= a <= 2 * total) as Hraw.
  { intros k a. unfold raw. rewrite lookup_fmap.
    destruct (ToMap tp !! k) as [w|] eqn:Hk; [|done].
    intros [= <-]. apply roundedShare_range; [lia|]. by apply (Hw k). }
  assert (size raw = 5%nat) as Hsize
    by (unfold raw; by rewrite map_size_fmap, size_ToMap).
  assert (0 < inject_Z total)%Q as HT0
    by (change 0%Q with (inject_Z 0); rewrite <- Zlt_Qlt; lia).
  destruct (Z.gtb_spec (sumAlloc raw) total) as [Hgt|Hle].
  - assert (sumAlloc raw <= Z.of_nat (size raw) * (2 * total)) as Hs.
    { apply sumAlloc_upper. intros k a Hk. by apply (Hraw k a). }
    rewrite Hsize in Hs.
    destruct (ratio_value total (sumAlloc raw) ltac:(lia) ltac:(lia))
      as (q & Hq & Hq01 & Hfr & Hr).
    pose proof (sum_adjusted_lower _ q raw Hfr Hq01 Hr) as Hadj.
    rewrite Hsize in Hadj.
    set (out := sumAlloc (adjusted _ <$> raw)) in *.
    assert (inject_Z (total - 6) < inject_Z out)%Q as Hlt;
      [|rewrite <- Zlt_Qlt in Hlt; lia].
    eapply Qlt_le_trans; [|apply Hadj].
    2:{ intros k a Hk. specialize (Hraw k a Hk). lia. }
    unfold Z.sub. rewrite inject_Z_plus.
    change (inject_Z (- (6))) with (- (6))%Q.
    change (inject_Z (Z.of_nat 5)) with 5%Q.
    assert (inject_Z (sumAlloc raw) <= inject_Z (2 ^ 44))%Q as HsQ
      by (rewrite <- Zle_Qle; lia).
    change (inject_Z (2 ^ 44)) with (17592186044416 # 1)%Q in HsQ.
    set (S := inject_Z (sumAlloc raw)) in *.
    set (T := inject_Z total) in *.
    lra.
  - unfold raw in *. rewrite sumAlloc_ToMap.
    pose proof (roundedShare_lower total _ ltac:(lia)
                  (Hw "plan" (token.Plan tp) eq_refl)) as L1.
    pose proof (roundedShare_lower total _ ltac:(lia)
                  (Hw "character" (token.Character tp) eq_refl)) as L2.
    pose proof (roundedShare_lower total _ ltac:(lia)
                  (Hw "worldview" (token.Worldview tp) eq_refl)) as L3.
    pose proof (roundedShare_lower total _ ltac:(lia)
                  (Hw "chapters" (token.Chapters tp) eq_refl)) as L4.
    pose proof (roundedShare_lower total _ ltac:(lia)
                  (Hw "index" (token.Index tp) eq_refl)) as L5.
    set (s1 := roundedShare total (token.Plan tp)) in *.
    set (s2 := roundedShare total (token.Character tp)) in *.
    set (s3 := roundedShare total (token.Worldview tp)) in *.
    set (s4 := roundedShare total (token.Chapters tp)) in *.
    set (s5 := roundedShare total (token.Index tp)) in *.
    assert (inject_Z (98 * total - 500)
            < inject_Z (100 * (s1 + s2 + s3 + s4 + s5)))%Q as Hlt;
      [|rewrite <- Zlt_Qlt in Hlt; lia].
    unfold Z.sub.
    rewrite !inject_Z_plus, !inject_Z_mult, !inject_Z_plus.
    change (inject_Z (- (500))) with (- (500))%Q.
    change (inject_Z 98) with 98%Q. change (inject_Z 100) with 100%Q.
    set (T := inject_Z total) in *.
    assert (T * (98 # 100)
            <= T * (valueOf (token.Plan tp) + valueOf (token.Character tp)
                    + valueOf (token.Worldview tp)
                    + valueOf (token.Chapters tp)
                    + valueOf (token.Index tp)))%Q as Hprod.
    { rewrite !(Qmult_comm T). apply Qmult_le_compat_r; [done|lra]. }
    lra.
Qed.

End HandedOut.

Section Distribution.

Context `{unicode.Tables}.

(** X8.  A budget manager hands out nearly all of its total.  For every
    manager that [NewTokenBudgetManager] builds, after any number of calls
    to [UpdatePercentages], with a total up to 2^40 and percentages none of
    which is a NaN: every percentage is a number from 0 to 2, no ceiling is
    negative, and the five ceilings sum to at most [maxTokens + 5] and to
    at least 98% of [maxTokens], less five tokens. *)
Theorem built_allocation_bounds (tbm : TokenBudgetManager) :
  built tbm ->
  maxTokens tbm <= 2 ^ 40 ->
  areNumbers (percentages tbm) = true ->
  (forall component w,
     ToMap (percentages tbm) !! component = Some w -> weightOk w = true)
  /\ sumAlloc (GetAllocatedTokens tbm) <= maxTokens tbm + 5
  /\ 98 * maxTokens tbm - 500 <= 100 * sumAlloc (GetAllocatedTokens tbm)
  /\ (forall component tokens,
        GetAllocatedTokens tbm !! component = Some tokens -> 0 <= tokens).
Proof.
  intros Hb Hmax Hnum.
  destruct (built_inv tbm Hb) as (Hpos & Hvalid & Hbudget & _).
  pose proof (Validate_weights _ Hvalid Hnum) as Hw.
  split; [exact Hw|].
  unfold GetAllocatedTokens. rewrite Hbudget. conjs.
  - pose proof (allocation_sum (maxTokens tbm) (ToMap (percentages tbm))
                  ltac:(lia)) as Hsum.
    rewrite size_ToMap in Hsum. apply Hsum; [|exact Hw].
    vm_compute. discriminate.
  - apply allocation_handed_out; [lia|done|done].
  - intros component tokens. rewrite AllocateTokens_eq.
    cbn [Total Percentages NewTokenBudget].
    destruct (_ >? _); rewrite !lookup_fmap;
      destruct (ToMap (percentages tbm) !! component) as [w|] eqn:Hk;
      try done; intros [= <-].
    + unfold adjusted. lia.
    + apply roundedShare_range; [lia|by apply (Hw component)].
Qed.

End Distribution.

(** X8, witness: the default percentages and the total 1000 hand out
    exactly 1000 tokens. *)
Lemma built_allocation_bounds_witness :
  sumAlloc (GetAllocatedTokens (managerOf 1000 DefaultTokenPercentages))
  = 1000
  /\ sumAlloc (GetAllocatedTokens (managerOf 1000 DefaultTokenPercentages))
     <= maxTokens (managerOf 1000 DefaultTokenPercentages) + 5.
Proof.
  split; [vm_compute; reflexivity|].
  assert (built (managerOf 1000 DefaultTokenPercentages)) as Hbuilt
    by (by apply (built_new 1000 None)).
  assert (maxTokens (managerOf 1000 DefaultTokenPercentages) <= 2 ^ 40)
    as Hmax by (vm_compute; discriminate).
  exact (proj1 (proj2 (built_allocation_bounds _ Hbuilt Hmax eq_refl))).
Defined.

(** ** Bounds on the estimate *)

Section EstimateBounds.

Context `{unicode.Tables}.

Lemma cjkCodePoints_cons (w : gostring) (ws : list gostring) :
  spec.cjkCodePoints (w :: ws)
  = (if spec.cjkDominant w then Z.of_nat (length w) else 0)
    + spec.cjkCodePoints ws.
Proof. unfold spec.cjkCodePoints. simpl. by destruct (spec.cjkDominant w). Qed.

Lemma otherTokens_cons (w : gostring) (ws : list gostring) :
  spec.otherTokens (w :: ws)
  = (if spec.isOther w then 1 else 0) + spec.otherTokens ws.
Proof.
  unfold spec.otherTokens. simpl. destruct (spec.isOther w); simpl; lia.
Qed.

Lemma numericTokens_cons (w : gostring) (ws : list gostring) :
  spec.numericTokens (w :: ws)
  = (if spec.isNumeric w then 1 else 0) + spec.numericTokens ws.
Proof.
  unfold spec.numericTokens. simpl. destruct (spec.isNumeric w); simpl; lia.
Qed.

Lemma otherPunctuation_cons (w : gostring) (ws : list gostring) :
  spec.otherPunctuation (w :: ws)
  = (if spec.isOther w then spec.punctCount w else 0)
    + spec.otherPunctuation ws.
Proof.
  unfold spec.otherPunctuation. simpl. by destruct (spec.isOther w).
Qed.

(** The four counters of a list of words are not negative, and weighted by
    twelve times their ratios they stay within eighteen per code point. *)
Lemma counters_bound (words : list gostring) :
  Forall isWord words ->
  0 <= spec.cjkCodePoints words /\ 0 <= spec.otherTokens words
  /\ 0 <= spec.numericTokens words /\ 0 <= spec.otherPunctuation words
  /\ 18 * spec.cjkCodePoints words + 9 * spec.otherTokens words
     + 6 * spec.numericTokens words + 4 * spec.otherPunctuation words
     <= 18 * totalLength words.
Proof.
  induction 1 as [|w ws [Hne _] _ IH].
  - vm_compute. conjs; discriminate.
  - rewrite cjkCodePoints_cons, otherTokens_cons, numericTokens_cons,
      otherPunctuation_cons.
    pose proof (countIf_bounds unicode.IsPunct w) as Hp.
    fold (spec.punctCount w) in Hp.
    assert (1 <= Z.of_nat (length w)) by (destruct w; [done|simpl; lia]).
    unfold spec.isOther, spec.isNumeric. simpl totalLength.
    destruct (spec.cjkDominant w), (spec.numericDominant w); simpl; lia.
Qed.

Lemma fieldsFrom_length (w s : gostring) :
  totalLength (strings.fieldsFrom w s)
  <= Z.of_nat (length w) + Z.of_nat (length s).
Proof.
  revert w; induction s as [|r s IH]; intros w; simpl.
  - destruct w; simpl; lia.
  - destruct (unicode.IsSpace r).
    + specialize (IH []). simpl in IH. destruct w; simpl in *; lia.
    + specialize (IH (w ++ [r])). rewrite length_app in IH. simpl in IH. lia.
Qed.

(** The estimate of a text is that of its words. *)
Lemma SimpleCount_words (text : gostring) :
  SimpleCount NewSimpleTokenCounter text
  = wordsEstimate (strings.Fields text).
Proof. unfold SimpleCount, wordsEstimate. by destruct text. Qed.

(** The estimate of a list of words, through the four counters. *)
Lemma wordsEstimate_eq (words : list gostring) :
  wordsEstimate words
  = (3 * spec.cjkCodePoints words) / 2 + (3 * spec.otherTokens words) / 4
    + spec.numericTokens words / 2 + spec.otherPunctuation words / 3.
Proof.
  unfold wordsEstimate. rewrite fold_countWord.
  pose proof (cjkCodePoints_nonneg words).
  pose proof (otherPunctuation_nonneg words).
  rewrite tokensOf_simple;
    cbn [chineseChars englishWords numbers punctuation tally0];
    rewrite ?Z.add_0_l; try done;
    unfold spec.otherTokens, spec.numericTokens; lia.
Qed.

(** X9.  The estimate of a text is never negative and never more than one
    and a half tokens per code point. *)
Theorem SimpleCount_bounds (text : gostring) :
  0 <= SimpleCount NewSimpleTokenCounter text
  /\ 2 * SimpleCount NewSimpleTokenCounter text
     <= 3 * Z.of_nat (length text).
Proof.
  rewrite SimpleCount_words, wordsEstimate_eq.
  destruct (counters_bound _ (Fields_words text))
    as (Hc & He & Hn & Hp & Hsum).
  pose proof (fieldsFrom_length [] text) as Hlen.
  fold (strings.Fields text) in Hlen. simpl in Hlen.
  set (C := spec.cjkCodePoints _) in *. set (E := spec.otherTokens _) in *.
  set (N := spec.numericTokens _) in *.
  set (P := spec.otherPunctuation _) in *.
  pose proof (Z.div_mod (3 * C) 2 ltac:(lia)).
  pose proof (Z.mod_pos_bound (3 * C) 2 ltac:(lia)).
  pose proof (Z.div_mod (3 * E) 4 ltac:(lia)).
  pose proof (Z.mod_pos_bound (3 * E) 4 ltac:(lia)).
  pose proof (Z.div_mod N 2 ltac:(lia)).
  pose proof (Z.mod_pos_bound N 2 ltac:(lia)).
  pose proof (Z.div_mod P 3 ltac:(lia)).
  pose proof (Z.mod_pos_bound P 3 ltac:(lia)).
  lia.
Qed.

Lemma cjkCodePoints_app (a b : list gostring) :
  spec.cjkCodePoints (a ++ b) = spec.cjkCodePoints a + spec.cjkCodePoints b.
Proof.
  induction a as [|w a IH]; [done|]. simpl app.
  rewrite !cjkCodePoints_cons, IH. lia.
Qed.

Lemma otherTokens_app (a b : list gostring) :
  spec.otherTokens (a ++ b) = spec.otherTokens a + spec.otherTokens b.
Proof.
  induction a as [|w a IH]; [done|]. simpl app.
  rewrite !otherTokens_cons, IH. lia.
Qed.

Lemma numericTokens_app (a b : list gostring) :
  spec.numericTokens (a ++ b) = spec.numericTokens a + spec.numericTokens b.
Proof.
  induction a as [|w a IH]; [done|]. simpl app.
  rewrite !numericTokens_cons, IH. lia.
Qed.

Lemma otherPunctuation_app (a b : list gostring) :
  spec.otherPunctuation (a ++ b)
  = spec.otherPunctuation a + spec.otherPunctuation b.
Proof.
  induction a as [|w a IH]; [done|]. simpl app.
  rewrite !otherPunctuation_cons, IH. lia.
Qed.

(** Estimating two lists of words apart loses at most one token per
    counter, and never gains. *)
Lemma wordsEstimate_app (a b : list gostring) :
  wordsEstimate a + wordsEstimate b <= wordsEstimate (a ++ b)
  /\ wordsEstimate (a ++ b) <= wordsEstimate a + wordsEstimate b + 4.
Proof.
  rewrite !wordsEstimate_eq, cjkCodePoints_app, otherTokens_app,
    numericTokens_app, otherPunctuation_app.
  pose proof (cjkCodePoints_nonneg a). pose proof (cjkCodePoints_nonneg b).
  pose proof (otherPunctuation_nonneg a).
  pose proof (otherPunctuation_nonneg b).
  assert (0 <= spec.otherTokens a /\ 0 <= spec.otherTokens b
          /\ 0 <= spec.numericTokens a /\ 0 <= spec.numericTokens b)
    as (? & ? & ? & ?) by (unfold spec.otherTokens, spec.numericTokens; lia).
  split; Z.div_mod_to_equations; lia.
Qed.

(** X10.  Joining two texts by a white-space code point: the estimate of
    the whole is at least the sum of the two estimates and at most 4 more
    (one per floor of the formula).  This is the amount by which pieces
    that were estimated apart can overflow once put together. *)
Theorem SimpleCount_join (a b : gostring) (sep : rune) :
  unicode.IsSpace sep = true ->
  SimpleCount NewSimpleTokenCounter a + SimpleCount NewSimpleTokenCounter b
  <= SimpleCount NewSimpleTokenCounter (a ++ sep :: b)
  /\ SimpleCount NewSimpleTokenCounter (a ++ sep :: b)
     <= SimpleCount NewSimpleTokenCounter a
        + SimpleCount NewSimpleTokenCounter b + 4.
Proof.
  intros Hsep. rewrite !SimpleCount_words. unfold strings.Fields at 3 4.
  rewrite fieldsFrom_sep by done. apply wordsEstimate_app.
Qed.

End EstimateBounds.

(** X10, witness: "中 1", whose two words are estimated at 1 and 0 apart
    and at 1 together. *)
Lemma SimpleCount_join_witness :
  SimpleCount NewSimpleTokenCounter (runes "中")
  + SimpleCount NewSimpleTokenCounter (runes "1")
  <= SimpleCount NewSimpleTokenCounter (runes "中" ++ sp :: runes "1")
  /\ SimpleCount NewSimpleTokenCounter (runes "中" ++ sp :: runes "1")
     <= SimpleCount NewSimpleTokenCounter (runes "中")
        + SimpleCount NewSimpleTokenCounter (runes "1") + 4.
Proof.
  assert (unicode.IsSpace sp = true) as Hsp by reflexivity.
  exact (SimpleCount_join (runes "中") (runes "1") sp Hsp).
Defined.

(** ** How far the truncator can overflow *)

Section Overshoot.

Context `{unicode.Tables}.

Lemma wordsEstimate_nil : wordsEstimate [] = 0.
Proof. rewrite wordsEstimate_eq. done. Qed.

(** Estimating every piece apart loses at most 4 tokens per piece. *)
Lemma wordsEstimate_concat (pieces : list (list gostring)) :
  wordsEstimate (concat pieces)
  <= fold_right (fun piece acc => wordsEstimate piece + acc) 0 pieces
     + 4 * Z.of_nat (length pieces).
Proof.
  induction pieces as [|piece pieces IH].
  - simpl. rewrite wordsEstimate_nil. lia.
  - simpl concat. simpl fold_right.
    destruct (wordsEstimate_app piece (concat pieces)) as [_ Happ].
    simpl length. lia.
Qed.

Lemma sumCounts_lines (lines : list gostring) :
  fold_right (fun piece acc => wordsEstimate piece + acc) 0
             (map strings.Fields lines)
  = sumCounts (asTokenCounter NewSimpleTokenCounter) lines.
Proof.
  induction lines as [|line lines IH]; [done|]. simpl.
  by rewrite IH, SimpleCount_words.
Qed.

Lemma sumCounts_words (words : list gostring) :
  Forall isWord words ->
  fold_right (fun piece acc => wordsEstimate piece + acc) 0
             (map (fun w => [w]) words)
  = sumCounts (asTokenCounter NewSimpleTokenCounter) words.
Proof.
  induction 1 as [|w ws Hw _ IH]; [done|]. simpl.
  by rewrite IH, SimpleCount_words, Fields_of_word.
Qed.

Lemma concat_singletons {A} (l : list A) : concat (map (fun x => [x]) l) = l.
Proof. induction l as [|x l IH]; [done|]. simpl. by rewrite IH. Qed.

(** X11.  How far the truncator of the budget manager can overflow its
    ceiling.  The result consists of whole lines and of words of the next
    line.  Re-estimated as one text it is within the ceiling plus 4 tokens
    per line and per word kept, and the count reported with it is within
    the ceiling plus 4 tokens per word kept. *)
Theorem truncateText_overshoot (text : gostring) (ceiling : Z) :
  0 <= ceiling ->
  exists kept words,
    kept `prefix_of` strings.Split text nl
    /\ Forall isWord words
    /\ fst (truncateText (asTokenCounter NewSimpleTokenCounter) text ceiling)
       = strings.Join (kept ++ strings.emit (strings.Join words [sp])) [nl]
    /\ Count (asTokenCounter NewSimpleTokenCounter) (fst (truncateText (asTokenCounter NewSimpleTokenCounter) text ceiling))
       <= ceiling + 4 * Z.of_nat (length kept + length words)
    /\ snd (truncateText (asTokenCounter NewSimpleTokenCounter) text ceiling)
       <= ceiling + 4 * Z.of_nat (length words).
Proof.
  intros Hc. unfold truncateText.
  destruct (lineLoop_spec (asTokenCounter NewSimpleTokenCounter) ceiling (strings.Split text nl) [] 0 Hc)
    as (kept & rest & ws & Hsplit & Hpre & Hws & Hloop & Hk & Hw).
  rewrite Hloop. simpl fst. simpl snd. simpl app.
  exists kept, ws.
  assert (concat (map strings.Fields (strings.emit (strings.Join ws [sp])))
          = ws) as Hlast.
  { destruct (strings.Join ws [sp]) eqn:Hj.
    - by apply Join_words_empty in Hj as ->.
    - simpl. by rewrite <- Hj, Fields_Join_words, app_nil_r. }
  assert (wordsEstimate ws <= sumCounts (asTokenCounter NewSimpleTokenCounter) ws + 4 * Z.of_nat (length ws))
    as Hjoined.
  { pose proof (wordsEstimate_concat (map (fun w => [w]) ws)) as Hcat.
    by rewrite concat_singletons, sumCounts_words, length_map in Hcat. }
  conjs.
  - rewrite Hsplit. by apply prefix_app_r.
  - done.
  - done.
  - change (Count (asTokenCounter NewSimpleTokenCounter) ?t) with (SimpleCount NewSimpleTokenCounter t).
    rewrite SimpleCount_words, Fields_Join by done.
    rewrite map_app, concat_app, Hlast.
    rewrite <- (concat_singletons ws) at 1. rewrite <- concat_app.
    pose proof (wordsEstimate_concat
                  (map strings.Fields kept ++ map (fun w => [w]) ws)) as Hcat.
    rewrite fold_right_app in Hcat.
    rewrite sumCounts_words in Hcat by done.
    assert (forall (ls : list (list gostring)) (n : Z),
              fold_right (fun piece acc => wordsEstimate piece + acc) n ls
              = fold_right (fun piece acc => wordsEstimate piece + acc) 0 ls
                + n) as Hshift.
    { induction ls as [|l ls IH]; intros n; simpl; [lia|]. rewrite IH. lia. }
    rewrite Hshift, sumCounts_lines in Hcat.
    rewrite length_app, !length_map in Hcat. lia.
  - destruct (strings.Join ws [sp]) eqn:Hj; simpl.
    + lia.
    + rewrite <- Hj.
      change (Count (asTokenCounter NewSimpleTokenCounter) ?t) with (SimpleCount NewSimpleTokenCounter t).
      rewrite SimpleCount_words, Fields_Join_words by done. lia.
Qed.

End Overshoot.

(** X11, witness: the text "中 文 字" under the ceiling 2 comes back as
    "中 文", estimated and reported at 3, within 2 + 4 x 2. *)
Lemma truncateText_overshoot_witness :
  truncateText simple (runes "中 文 字") 2 = (runes "中 文", 3)
  /\ exists kept words,
       kept `prefix_of` strings.Split (runes "中 文 字") nl
       /\ Forall isWord words
       /\ fst (truncateText simple (runes "中 文 字") 2)
          = strings.Join (kept ++ strings.emit (strings.Join words [sp])) [nl]
       /\ Count simple (fst (truncateText simple (runes "中 文 字") 2))
          <= 2 + 4 * Z.of_nat (length kept + length words)
       /\ snd (truncateText simple (runes "中 文 字") 2)
          <= 2 + 4 * Z.of_nat (length words).
Proof.
  split; [vm_compute; reflexivity|].
  assert (0 <= 2) as Hceiling by lia.
  exact (truncateText_overshoot (runes "中 文 字") 2 Hceiling).
Defined.

(** ** Trimming *)

Section Trimming.

Import strings.

Lemma trimLeft_idem (s : gostring) : trimLeft (trimLeft s) = trimLeft s.
Proof.
  induction s as [|r s IH]; [done|]. simpl.
  destruct (unicode.IsSpace r) eqn:Hr; [done|]. simpl. by rewrite Hr.
Qed.

(** What [trimLeft] drops is white space. *)
Lemma trimLeft_split (s : gostring) :
  exists spaces, s = spaces ++ trimLeft s
                 /\ forallb unicode.IsSpace spaces = true.
Proof.
  induction s as [|r s (spaces & Hs & Hsp)]; [by exists []|]. simpl.
  destruct (unicode.IsSpace r) eqn:Hr.
  - exists (r :: spaces). simpl. rewrite Hr, Hsp. split; [by f_equal|done].
  - by exists [].
Qed.

(** A string that starts with no white space keeps that after its right
    end has been trimmed. *)
Lemma trimLeft_rev_trimLeft (u : gostring) :
  trimLeft u = u ->
  trimLeft (rev (trimLeft (rev u))) = rev (trimLeft (rev u)).
Proof.
  intros Hu. destruct (trimLeft_split (rev u)) as (spaces & Hrev & _).
  set (v := trimLeft (rev u)) in *.
  assert (u = rev v ++ rev spaces) as Hsplit.
  { rewrite <- rev_app_distr, <- Hrev. by rewrite rev_involutive. }
  destruct (rev v) as [|r w] eqn:Hv; [done|].
  rewrite Hsplit in Hu. simpl in *.
  destruct (unicode.IsSpace r) eqn:Hr; [|done].
  exfalso. destruct (trimLeft_split (w ++ rev spaces)) as (sp' & Hw & _).
  apply (f_equal (@length rune)) in Hu. rewrite Hw in Hu at 2.
  simpl in Hu. rewrite length_app in Hu. lia.
Qed.

(** [strings.TrimSpace] has nothing left to trim on its own result. *)
Lemma TrimSpace_idem (s : gostring) : TrimSpace (TrimSpace s) = TrimSpace s.
Proof.
  unfold TrimSpace.
  rewrite (trimLeft_rev_trimLeft (trimLeft s)) by apply trimLeft_idem.
  by rewrite rev_involutive, trimLeft_idem.
Qed.

End Trimming.

(** ** Round trips through the store *)

Section RoundTrips.

Context `{unicode.Tables}.

(** X12.  What is saved is read back trimmed.  After a successful [Save]
    of a text, [Load] on a readable file returns the text without its
    leading and trailing white space, with no error, and caches it; a
    second [Load] returns the same. *)
Theorem Save_then_Load (b : BaseFileManager) (d : Storage)
    (text : gostring) :
  readable d = true ->
  fst (run (Save text) b d) = None ->
  let s := snd (run (Save text) b d) in
  fst (Load s) = (strings.TrimSpace text, None)
  /\ current (mgr (snd (Load s))) = strings.TrimSpace text
  /\ fst (Load (snd (Load s))) = (strings.TrimSpace text, None).
Proof.
  destruct b as [p cur t tc tb], d as [fl dk rd wr ck]. simpl.
  intros -> Hsave. destruct dk, wr; cbn in *; try done.
Qed.

(** X13.  [EnsureFileExists] never overwrites: on a file that exists it
    returns no error and leaves the file and the receiver as they are,
    having only looked the file up.  On a missing file it succeeds exactly
    when the directory and the write succeed, and then the file exists and
    is empty. *)
Theorem EnsureFileExists_keeps_file (b : BaseFileManager) (d : Storage) :
  match file d with
  | Some f =>
      run EnsureFileExists b d
      = (None, {| mgr := b; disk := d; trace := [EvStat true] |})
  | None =>
      match run EnsureFileExists b d with
      | (None, s) =>
          dirOk d = true /\ writable d = true
          /\ file (disk s) = Some {| data := []; modTime := clock d |}
          /\ fst (Exists s) = true
      | (Some err, s) =>
          (dirOk d = false \/ writable d = false)
          /\ err = FileWriteError (filePath b)
          /\ disk s = d /\ mgr s = b
      end
  end.
Proof.
  destruct b as [p cur t tc tb], d as [[f|] [] rd [] ck]; cbn; conjs; auto.
Qed.

(** X14.  The title round trip: after a successful [SetTitle], [GetTitle]
    on the readable title file returns the title without its leading and
    trailing white space, and [HasTitle] is true; the error of a failed
    [SetTitle] is the write error of the title file. *)
Theorem SetTitle_then_GetTitle (ir : IndexReader) (title : gostring)
    (titleDisk : Storage) :
  match SetTitle ir title titleDisk with
  | (None, titleDisk') =>
      readable titleDisk = true ->
      GetTitle ir titleDisk' = strings.TrimSpace title
      /\ HasTitle ir titleDisk' = true
  | (Some err, _) => err = FileWriteError (titlePath ir)
  end.
Proof.
  destruct titleDisk as [fl [] rd [] ck]; cbn -[strings.TrimSpace]; try done.
  intros ->. cbn -[strings.TrimSpace]. by rewrite !TrimSpace_idem.
Qed.

End RoundTrips.

(** X12, witness: " new " saved over "old" is read back as "new". *)
Lemma Save_then_Load_witness :
  fst (Load (snd (run (Save (runes " new ")) cachedOld
                      (holding (runes "old") 5))))
  = (runes "new", None).
Proof.
  assert (readable (holding (runes "old") 5) = true) as Hreadable
    by reflexivity.
  assert (fst (run (Save (runes " new ")) cachedOld
                   (holding (runes "old") 5)) = None) as Hsaved
    by reflexivity.
  exact (proj1 (Save_then_Load cachedOld (holding (runes "old") 5)
                  (runes " new ") Hreadable Hsaved)).
Defined.

(** ** Reading the index *)

Section IndexReading.

Context `{unicode.Tables}.

(** X15.  [GetRecentChapters] returns the last [count] summaries: for a
    count that is not negative, the summaries the reader holds end with the
    ones returned, and these are [count] many, or all when there are fewer.
    For a negative count and an index that is not empty, the slice
    expression is out of range and the call panics. *)
Theorem GetRecentChapters_suffix (unmarshal : Unmarshal) (ir : IndexReader)
    (count : Z) (s : St) :
  let summaries := fst (fst (GetChapterSummaries unmarshal ir s)) in
  let recent := fst (fst (GetRecentChapters unmarshal ir count s)) in
  (0 <= count ->
   exists chapters,
     recent = Some chapters
     /\ chapters `suffix_of` summaries
     /\ Z.of_nat (length chapters)
        = Z.min count (Z.of_nat (length summaries)))
  /\ (count < 0 -> summaries <> [] -> recent = None).
Proof.
  cbv zeta. unfold GetRecentChapters, bind.
  destruct (GetChapterSummaries unmarshal ir s) as [[summaries ir'] s'].
  simpl. split.
  - intros Hc. destruct (Z.eqb_spec (Z.of_nat (length summaries)) 0) as [Hz|Hnz].
    + destruct summaries; [|done]. simpl. exists []. conjs; [done|done|simpl; lia].
    + destruct (Z.leb_spec (Z.of_nat (length summaries)) count) as [Hall|Hfew].
      * simpl. exists summaries. conjs; [done|done|lia].
      * simpl. unfold sliceFrom.
        assert ((0 <=? Z.of_nat (length summaries) - count)
                && (Z.of_nat (length summaries) - count
                    <=? Z.of_nat (length summaries)) = true) as ->
          by (apply andb_true_iff; lia).
        eexists. conjs; [done| |].
        -- apply suffix_drop.
        -- rewrite length_skipn. lia.
  - intros Hneg Hne.
    destruct (Z.eqb_spec (Z.of_nat (length summaries)) 0) as [Hz|Hnz].
    + by destruct summaries.
    + assert ((Z.of_nat (length summaries) <=? count) = false) as -> by lia.
      simpl. unfold sliceFrom.
      assert ((Z.of_nat (length summaries) - count
               <=? Z.of_nat (length summaries)) = false) as -> by lia.
      by rewrite andb_false_r.
Qed.

Lemma writeSummaries_false (l : list ChapterSummary) :
  l <> [] -> writeSummaries false l = [nl; nl] ++ writeSummaries true l.
Proof. by destruct l. Qed.

Lemma writeSummaries_app (first : bool) (older recent : list ChapterSummary) :
  exists text,
    writeSummaries first (older ++ recent)
    = text ++ writeSummaries true recent.
Proof.
  revert first; induction older as [|x older IH]; intros first.
  - simpl. destruct first; [by exists []|].
    destruct recent; [by exists []|]. by exists [nl; nl].
  - change ((x :: older) ++ recent) with (x :: (older ++ recent)).
    cbn [writeSummaries]. destruct (IH false) as [text ->].
    exists ((if first then [] else [nl; nl]) ++ ChapterID x ++ runes ": "
            ++ Summary x ++ text).
    by rewrite <- !app_assoc.
Qed.

(** A reader that holds summaries answers from them. *)
Lemma GetSummary_loaded (unmarshal : Unmarshal) (ir : IndexReader)
    (d : IndexJSON) (s : St) :
  indexData ir = Some d -> Summaries d <> [] ->
  GetSummary unmarshal ir s = (writeSummaries true (Summaries d), ir, s).
Proof.
  intros Hd Hne. unfold GetSummary, bind, noSummaries. rewrite Hd.
  destruct (Summaries d) as [|x l] eqn:Hl; [done|].
  cbn [ret]. unfold noSummaries. by rewrite Hd, Hl.
Qed.

Lemma GetChapterSummaries_loaded (unmarshal : Unmarshal) (ir : IndexReader)
    (d : IndexJSON) (s : St) :
  indexData ir = Some d ->
  GetChapterSummaries unmarshal ir s = (Summaries d, ir, s).
Proof.
  intros Hd. unfold GetChapterSummaries, bind, noIndexData. rewrite Hd.
  simpl. by rewrite Hd.
Qed.

(** X16.  The text of [GetRecentSummary] is the end of the text of
    [GetSummary]: on a reader that holds summaries, for a positive count,
    the recent summary is a suffix of the whole summary, and it is the
    whole summary once [count] reaches the number of chapters. *)
Theorem GetRecentSummary_suffix (unmarshal : Unmarshal) (ir : IndexReader)
    (d : IndexJSON) (count : Z) (s : St) :
  indexData ir = Some d ->
  Summaries d <> [] ->
  0 < count ->
  exists recent,
    fst (fst (GetRecentSummary unmarshal ir count s)) = Some recent
    /\ recent `suffix_of` fst (fst (GetSummary unmarshal ir s))
    /\ (Z.of_nat (length (Summaries d)) <= count ->
        recent = fst (fst (GetSummary unmarshal ir s))).
Proof.
  intros Hd Hne Hcount.
  rewrite (GetSummary_loaded _ _ d) by done.
  unfold GetRecentSummary, GetRecentChapters, bind.
  rewrite (GetChapterSummaries_loaded _ _ d) by done. cbn [fst snd].
  set (l := Summaries d) in *.
  assert (0 < Z.of_nat (length l)) as Hpos by (destruct l; [done|simpl; lia]).
  assert ((Z.of_nat (length l) =? 0) = false) as Hnz
    by (apply Z.eqb_neq; lia).
  rewrite Hnz.
  destruct (Z.leb_spec (Z.of_nat (length l)) count) as [Hall|Hfew].
  - cbn [ret fst snd]. rewrite Hnz. cbn [ret fst snd].
    exists (writeSummaries true l). conjs; done.
  - cbn [ret fst snd]. unfold sliceFrom.
    assert ((0 <=? Z.of_nat (length l) - count)
            && (Z.of_nat (length l) - count <=? Z.of_nat (length l)) = true)
      as -> by (apply andb_true_iff; lia).
    set (k := Z.to_nat (Z.of_nat (length l) - count)).
    assert ((Z.of_nat (length (skipn k l)) =? 0) = false) as ->
      by (apply Z.eqb_neq; rewrite length_skipn; lia).
    cbn [ret fst snd].
    exists (writeSummaries true (skipn k l)). conjs; [done| |lia].
    destruct (writeSummaries_app true (firstn k l) (skipn k l))
      as [text Htext].
    rewrite firstn_skipn in Htext. rewrite Htext. by exists text.
Qed.

End IndexReading.

(** X16, witness: of three chapters held, the last two. *)
Lemma GetRecentSummary_suffix_witness :
  fst (fst (GetRecentSummary (fun _ => None) (readerOf (Some threeChapters))
                             2 (freshOn absent)))
  = Some (runes "ch2: the hero crosses the sea

ch3: the hero returns")
  /\ exists recent,
       fst (fst (GetRecentSummary (fun _ => None)
                   (readerOf (Some threeChapters)) 2 (freshOn absent)))
       = Some recent
       /\ recent `suffix_of`
            fst (fst (GetSummary (fun _ => None)
                        (readerOf (Some threeChapters)) (freshOn absent)))
       /\ (Z.of_nat (length (Summaries threeChapters)) <= 2 ->
           recent = fst (fst (GetSummary (fun _ => None)
                                (readerOf (Some threeChapters))
                                (freshOn absent)))).
Proof.
  split; [vm_compute; reflexivity|].
  assert (Summaries threeChapters <> []) as Hsome by discriminate.
  assert (0 < 2) as Hcount by lia.
  exact (GetRecentSummary_suffix (fun _ => None)
           (readerOf (Some threeChapters)) threeChapters 2 (freshOn absent)
           eq_refl Hsome Hcount).
Defined.

(** ** Writing the index *)

Section IndexWriting.

Context `{unicode.Tables}.

Lemma existingIndex_Some (summaries : list ChapterSummary)
    (chapterID : gostring) (i : nat) :
  existingIndex summaries chapterID = Some i
  <-> exists x, summaries !! i = Some x /\ ChapterID x = chapterID
                /\ forall j y, summaries !! j = Some y -> (j < i)%nat ->
                               ChapterID y <> chapterID.
Proof.
  unfold existingIndex. rewrite fmap_Some. split.
  - intros ([j x] & Hfind & ->). apply list_find_Some in Hfind.
    by exists x.
  - intros (x & Hx & HP & Hfirst). exists (i, x). split; [|done].
    by apply list_find_Some.
Qed.

Lemma existingIndex_None (summaries : list ChapterSummary)
    (chapterID : gostring) :
  existingIndex summaries chapterID = None
  <-> Forall (fun x => ChapterID x <> chapterID) summaries.
Proof. unfold existingIndex. rewrite fmap_None. apply list_find_None. Qed.

(** X17.  [UpdateSummary] keeps the index well formed.  When the index
    reloaded at the start of the call is missing or passes [ValidateIndex],
    the index the reader holds afterwards passes [ValidateIndex], and the
    first summary it has for the chapter carries the title, the summary and
    the word count given.  This holds whether encoding and saving succeed
    or not: the record is changed before it is saved. *)
Theorem UpdateSummary_keeps_index_valid (unmarshal : Unmarshal)
    (marshal : Marshal) (now : Clock) (summary : ChapterSummary)
    (ir : IndexReader) (s : St) :
  indexData (fst (ir_load unmarshal ir s)) = None
  \/ ValidateIndex (fst (ir_load unmarshal ir s)) = None ->
  let ir' := snd (fst (UpdateSummary unmarshal marshal now summary ir s)) in
  ValidateIndex ir' = None
  /\ exists d i entry,
       indexData ir' = Some d
       /\ existingIndex (Summaries d) (ChapterID summary) = Some i
       /\ Summaries d !! i = Some entry
       /\ Title entry = Title summary
       /\ Summary entry = Summary summary
       /\ WordCount entry = WordCount summary.
Proof.
  intros Hvalid. cbv zeta. unfold UpdateSummary, bind.
  destruct (ir_load unmarshal ir s) as [ir1 s1]. simpl in Hvalid.
  set (timestampStr := if isEmpty (Timestamp summary) then atTimestamp now
                       else Timestamp summary).
  set (std := {| ChapterID := ChapterID summary; Title := Title summary;
                 Summary := Summary summary; WordCount := WordCount summary;
                 Timestamp := timestampStr |}).
  assert (exists d0,
            d0 = match indexData ir1 with
                 | Some d => d
                 | None => {| Version := runes "1.0";
                              LastUpdate := atCreation now;
                              Chapters := 0; Summaries := [] |}
                 end
            /\ isEmpty (Version d0) = false
            /\ Chapters d0 = Z.of_nat (length (Summaries d0)))
    as (d0 & Hd0 & Hver & Hlen).
  { eexists. split; [done|].
    destruct Hvalid as [Hnone|Hok].
    - rewrite Hnone. split; [by vm_compute|done].
    - unfold ValidateIndex in Hok.
      destruct (indexData ir1) as [d|]; [|done].
      destruct (isEmpty (Version d)); [done|].
      destruct (Z.eqb_spec (Chapters d) (Z.of_nat (length (Summaries d))));
        done. }
  rewrite <- Hd0. clear Hd0 Hvalid.
  assert (forall (res : option failure * IndexReader) (s' : St) d,
            isEmpty (Version d) = false ->
            Chapters d = Z.of_nat (length (Summaries d)) ->
            (exists i entry,
               existingIndex (Summaries d) (ChapterID summary) = Some i
               /\ Summaries d !! i = Some entry
               /\ Title entry = Title summary
               /\ Summary entry = Summary summary
               /\ WordCount entry = WordCount summary) ->
            snd res = setIndexData ir1 (Some d) ->
            ValidateIndex (snd res) = None
            /\ exists d' i entry,
                 indexData (snd res) = Some d'
                 /\ existingIndex (Summaries d') (ChapterID summary) = Some i
                 /\ Summaries d' !! i = Some entry
                 /\ Title entry = Title summary
                 /\ Summary entry = Summary summary
                 /\ WordCount entry = WordCount summary) as Hfinish.
  { intros res s' d Hv Hl (i & entry & Hfound) ->.
    unfold ValidateIndex. simpl. rewrite Hv, Hl, Z.eqb_refl. simpl.
    split; [done|]. by exists d, i, entry. }
  destruct (existingIndex (Summaries d0) (ChapterID summary)) as [i|] eqn:Hex.
  - (* the chapter has a summary, which is replaced *)
    apply existingIndex_Some in Hex as (x & Hx & _ & Hfirst).
    assert (i < length (Summaries d0))%nat as Hi by (by eapply lookup_lt_Some).
    match goal with
    | |- context [marshal ?d] =>
        destruct (marshal d);
          [destruct (Save _ s1) as [err s2]|];
          apply (Hfinish _ s1 d); simpl; try done
    end.
    all: try (by rewrite length_insert).
    all: exists i, std; conjs; try done;
      [apply existingIndex_Some; exists std; conjs;
         [by apply list_lookup_insert_eq | done
         | intros j y Hj Hlt; rewrite list_lookup_insert_ne in Hj by lia;
           by apply (Hfirst j)]
      | by apply list_lookup_insert_eq].
  - (* a new chapter, appended *)
    apply existingIndex_None in Hex.
    match goal with
    | |- context [marshal ?d] =>
        destruct (marshal d);
          [destruct (Save _ s1) as [err s2]|];
          apply (Hfinish _ s1 d); simpl; try done
    end.
    all: exists (length (Summaries d0)), std; conjs; try done;
      [apply existingIndex_Some; exists std; conjs;
         [by apply list_lookup_middle | done
         | intros j y Hj Hlt; rewrite lookup_app_l in Hj by done;
           by apply (proj1 (Forall_lookup _ _) Hex j)]
      | by apply list_lookup_middle].
Qed.

End IndexWriting.

(** X17, witness: a first summary, on a directory without index where
    nothing can be written: the save fails and the reader holds a valid
    index of one chapter all the same. *)
Lemma UpdateSummary_keeps_index_valid_witness :
  fst (fst (UpdateSummary (fun _ => None) (fun _ => Some (runes "{}"))
              threeInstants (chapterOf "ch1" "the hero leaves home")
              (readerOf None) (freshOn (readOnly absent))))
  = Some (ContentError (FileWriteError "novel/file"))
  /\ ValidateIndex
       (snd (fst (UpdateSummary (fun _ => None) (fun _ => Some (runes "{}"))
                    threeInstants (chapterOf "ch1" "the hero leaves home")
                    (readerOf None) (freshOn (readOnly absent)))))
     = None.
Proof.
  split; [vm_compute; reflexivity|].
  assert (indexData (fst (ir_load (fun _ => None) (readerOf None)
                                  (freshOn (readOnly absent)))) = None)
    as Hmissing by reflexivity.
  exact (proj1 (UpdateSummary_keeps_index_valid (fun _ => None)
                  (fun _ => Some (runes "{}")) threeInstants
                  (chapterOf "ch1" "the hero leaves home") (readerOf None)
                  (freshOn (readOnly absent)) (or_introl Hmissing))).
Defined.

(** ** The generator and the full context *)

Section Generator.

Context `{unicode.Tables}.

(** Under the component name "default" a built manager returns nothing. *)
Lemma TruncateToTokenLimit_default (tbm : TokenBudgetManager)
    (text : gostring) :
  built tbm -> TruncateToTokenLimit tbm text "default" = ([], 0).
Proof.
  intros Hb. unfold TruncateToTokenLimit. destruct (isEmpty text); [done|].
  by rewrite built_default_allocation.
Qed.

(** The generator is built with a built manager. *)
Lemma NewTokenAwareGenerator_built (config : option generators.GeneratorConfig)
    (env : generators.Files) (tag : generators.TokenAwareGenerator) :
  generators.NewTokenAwareGenerator config env = inr tag ->
  built (generators.tokenBudget tag).
Proof.
  unfold generators.NewTokenAwareGenerator.
  destruct (bool_decide _); [done|].
  destruct (NewTokenBudgetManager _ _) as [err|tbm] eqn:Hnew; [done|].
  intros [= <-]. simpl. by eapply built_new.
Qed.

(** X18.  The token-aware generator generates nothing.  [generateContent]
    passes the aggregated text through [TruncateToTokenLimit] under the
    component name "default", which no allocation holds: whatever the
    managers hold, the content is the empty string with 0 tokens, [Generate]
    returns the empty string, nothing is ever cached and [GetTokenCount] is
    0.  The generator keeps its budget manager, so this holds for every
    later call as well. *)
Theorem generateContent_is_empty (env : generators.Files)
    (tag : generators.TokenAwareGenerator) (maxTokens : Z) :
  built (generators.tokenBudget tag) ->
  fst (generators.generateContent env tag maxTokens) = ([], 0)
  /\ fst (generators.Generate env tag) = []
  /\ generators.lastContent (snd (generators.Generate env tag)) = []
  /\ (generators.lastContent tag = [] ->
      fst (generators.GetTokenCount env tag) = 0)
  /\ generators.tokenBudget (snd (generators.Generate env tag))
     = generators.tokenBudget tag.
Proof.
  intros Hb.
  assert (forall n, exists tag',
            generators.generateContent env tag n = ([], 0, tag')
            /\ generators.tokenBudget tag' = generators.tokenBudget tag)
    as Hgen.
  { intros n. unfold generators.generateContent.
    repeat match goal with
           | |- context [let '(_, _) := ?x in _] =>
               lazymatch x with
               | TruncateToTokenLimit _ _ "default" => fail
               | _ => destruct x
               end
           end.
    rewrite TruncateToTokenLimit_default by done. by eexists. }
  conjs.
  - by destruct (Hgen maxTokens) as (tag' & -> & _).
  - unfold generators.Generate, generators.GenerateWithTokenLimit.
    by destruct (Hgen (generators.MaxTokens (generators.config tag)))
      as (tag' & -> & _).
  - unfold generators.Generate, generators.GenerateWithTokenLimit.
    by destruct (Hgen (generators.MaxTokens (generators.config tag)))
      as (tag' & -> & _).
  - intros Hlast. unfold generators.GetTokenCount. rewrite Hlast. simpl.
    unfold generators.Generate, generators.GenerateWithTokenLimit.
    by destruct (Hgen (generators.MaxTokens (generators.config tag)))
      as (tag' & -> & _).
  - unfold generators.Generate, generators.GenerateWithTokenLimit.
    by destruct (Hgen (generators.MaxTokens (generators.config tag)))
      as (tag' & -> & Hkeep).
Qed.

(** A reader built on a readable index file that decodes holds the decoded
    index. *)
Lemma NewIndexReader_loaded (unmarshal : Unmarshal) (dir : string)
    (d : Storage) (f : File) (index : IndexJSON) :
  file d = Some f -> readable d = true ->
  strings.TrimSpace (data f) <> [] ->
  unmarshal (strings.TrimSpace (data f)) = Some index ->
  indexData (fst (NewIndexReader unmarshal dir d)) = Some index.
Proof.
  destruct d as [fl dk rd wr ck]. simpl. intros -> -> Hne Hdec.
  unfold NewIndexReader, run, ir_load, bind, Load. simpl.
  destruct f as [bytes mt]. cbn -[strings.TrimSpace] in *.
  destruct (strings.TrimSpace bytes) eqn:Htrim; [done|].
  cbn -[strings.TrimSpace]. by rewrite Hdec.
Qed.

Lemma writeSummaries_nonempty (l : list ChapterSummary) :
  l <> [] -> writeSummaries true l <> [].
Proof.
  destruct l as [|x l]; [done|]. intros _. simpl.
  destruct (ChapterID x); done.
Qed.

(** X19.  The full context shows the summaries.  For every novel
    directory and every state of the files, [BuildFullContext] leaves
    neither the title, nor the summary, nor the worldview empty; and when
    the novel directory is named and its index file is readable and decodes
    to an index with summaries, the summary of the context is the text of
    all of them (where the token-aware builder renders the placeholder). *)
Theorem BuildFullContext_shows_summary (NovelDir : string)
    (world : content.Novel) :
  content.Title (content.BuildFullContext NovelDir world) <> []
  /\ content.Summary (content.BuildFullContext NovelDir world) <> []
  /\ content.Worldview (content.BuildFullContext NovelDir world) <> []
  /\ (forall (f : File) (index : IndexJSON),
        NovelDir <> EmptyString ->
        file (content.indexFile world) = Some f ->
        readable (content.indexFile world) = true ->
        strings.TrimSpace (data f) <> [] ->
        content.unmarshalIndex world (strings.TrimSpace (data f))
        = Some index ->
        Summaries index <> [] ->
        content.Summary (content.BuildFullContext NovelDir world)
        = writeSummaries true (Summaries index)).
Proof.
  conjs.
  - unfold content.BuildFullContext.
    destruct (negb _); [destruct (NewIndexReader _ _ _)|];
      cbn [content.Title]; apply orDefault_nonempty; vm_compute;
      discriminate.
  - unfold content.BuildFullContext.
    destruct (negb _); [destruct (NewIndexReader _ _ _)|];
      cbn [content.Summary]; apply orDefault_nonempty; vm_compute;
      discriminate.
  - unfold content.BuildFullContext.
    destruct (negb _); [destruct (NewIndexReader _ _ _)|];
      cbn [content.Worldview]; apply orDefault_nonempty; vm_compute;
      discriminate.
  - intros f index Hdir Hf Hr Hne Hdec Hsum.
    pose proof (NewIndexReader_loaded (content.unmarshalIndex world)
                  NovelDir _ f index Hf Hr Hne Hdec) as Hloaded.
    unfold content.BuildFullContext.
    rewrite bool_decide_eq_false_2 by done. simpl negb. cbv iota.
    destruct (NewIndexReader _ NovelDir _) as [reader s0].
    simpl in Hloaded.
    rewrite (GetSummary_loaded _ _ index) by done.
    cbn [content.Summary fst].
    pose proof (writeSummaries_nonempty _ Hsum) as Hw.
    unfold content.orDefault. by destruct (writeSummaries true _).
Qed.

End Generator.

(** X18, witness: the generator built from the default configuration on a
    directory that holds a worldview: the worldview is read, and the
    content generated is empty. *)
Lemma generateContent_is_empty_witness :
  generators.NewTokenAwareGenerator
    (Some (generators.DefaultGeneratorConfig "novel")) generatorFiles
  = inr defaultGenerator
  /\ fst (fst (GetCurrentWithTokenLimit "worldview" 800
                 (generators.worldviewManager defaultGenerator)))
     = runes "a world of islands"
  /\ fst (generators.generateContent generatorFiles defaultGenerator 8000)
     = ([], 0)
  /\ fst (generators.Generate generatorFiles defaultGenerator) = [].
Proof.
  assert (built (generators.tokenBudget defaultGenerator)) as Hbuilt
    by (by apply (built_new 8000 None)).
  pose proof (generateContent_is_empty generatorFiles defaultGenerator 8000
                Hbuilt) as (Hcontent & Hgenerate & _).
  conjs; [reflexivity | vm_compute; reflexivity | exact Hcontent
         | exact Hgenerate].
Defined.

(** X19, witness: the novel whose index holds the summary of one
    chapter. *)
Lemma BuildFullContext_shows_summary_witness :
  content.Summary (content.BuildFullContext "novel" indexedNovel)
  = runes "ch1: the hero leaves home".
Proof.
  assert ("novel" <> EmptyString) as Hdir by discriminate.
  assert (strings.TrimSpace (runes "{summaries: [ch1]}") <> []) as Hne
    by (vm_compute; discriminate).
  assert (Summaries
            {| Version := runes "1"; LastUpdate := []; Chapters := 1;
               Summaries :=
                 [{| ChapterID := runes "ch1"; Title := runes "Dawn";
                     Summary := runes "the hero leaves home";
                     WordCount := 4; Timestamp := [] |}] |} <> [])
    as Hsome by discriminate.
  exact (proj2 (proj2 (proj2
           (BuildFullContext_shows_summary "novel" indexedNovel)))
           {| data := runes "{summaries: [ch1]}"; modTime := 3 |}
           _ Hdir eq_refl eq_refl Hne eq_refl Hsome).
Defined.

(** ** Rewriting the section of a character *)

Section CharacterSections.

Variables name newDescription : gostring.

(** Before the section of the character every line is copied. *)
Lemma rewriteLoop_before (pre rest updated : list gostring) (lastIndex i : Z) :
  Forall (fun line => headsCharacter name line = false) pre ->
  rewriteLoop name newDescription lastIndex i (pre ++ rest) updated false
  = rewriteLoop name newDescription lastIndex (i + Z.of_nat (length pre))
                rest (updated ++ pre) false.
Proof.
  intros Hpre. revert updated i.
  induction Hpre as [|line pre Hline _ IH]; intros updated i.
  - simpl. by rewrite Z.add_0_r, app_nil_r.
  - change ((line :: pre) ++ rest) with (line :: (pre ++ rest)).
    cbn [rewriteLoop]. unfold headsCharacter, isHeading in Hline.
    rewrite Hline.
    replace (i + Z.of_nat (length (line :: pre)))
      with (i + 1 + Z.of_nat (length pre)) by (simpl length; lia).
    replace (updated ++ line :: pre) with ((updated ++ [line]) ++ pre)
      by (by rewrite <- app_assoc).
    destruct (strings.HasPrefix _ _); apply IH.
Qed.

(** The heading of the character is copied and opens its section. *)
Lemma rewriteLoop_heading (hdr : gostring) (rest updated : list gostring)
    (lastIndex i : Z) (inTargetCharacter : bool) :
  headsCharacter name hdr = true ->
  rewriteLoop name newDescription lastIndex i (hdr :: rest) updated
              inTargetCharacter
  = rewriteLoop name newDescription lastIndex (i + 1) rest
                (updated ++ [hdr]) true.
Proof.
  intros Hhdr. cbn [rewriteLoop]. unfold headsCharacter, isHeading in Hhdr.
  by rewrite Hhdr.
Qed.

(** A heading of another character ends the section, and is copied with
    all that follows. *)
Lemma rewriteLoop_next (next : gostring) (rest updated : list gostring)
    (lastIndex i : Z) (inTargetCharacter : bool) :
  isHeading next = true ->
  Forall (fun line => headsCharacter name line = false) (next :: rest) ->
  rewriteLoop name newDescription lastIndex i (next :: rest) updated
              inTargetCharacter
  = (updated ++ next :: rest, false).
Proof.
  intros Hnext Hrest. apply Forall_cons in Hrest as [Hn Hrest].
  cbn [rewriteLoop]. unfold headsCharacter in Hn. rewrite Hnext in Hn.
  unfold isHeading in Hnext. rewrite Hnext. simpl in Hn. rewrite Hn. simpl.
  rewrite <- (app_nil_r rest) at 1.
  rewrite (rewriteLoop_before rest []) by done. simpl.
  by rewrite <- app_assoc.
Qed.

(** Inside the section, before the last line of the text, the blank lines
    are copied and the others dropped. *)
Lemma rewriteLoop_inside (body rest updated : list gostring) (lastIndex i : Z) :
  Forall (fun line => isHeading line = false) body ->
  i + Z.of_nat (length body) <= lastIndex ->
  rewriteLoop name newDescription lastIndex i (body ++ rest) updated true
  = rewriteLoop name newDescription lastIndex (i + Z.of_nat (length body))
                rest (updated ++ List.filter isBlank body) true.
Proof.
  intros Hbody. revert updated i.
  induction Hbody as [|line body Hline _ IH]; intros updated i Hi.
  - simpl. by rewrite Z.add_0_r, app_nil_r.
  - change ((line :: body) ++ rest) with (line :: (body ++ rest)).
    cbn [rewriteLoop]. unfold isHeading in Hline. rewrite Hline. simpl andb.
    cbv iota.
    assert (i + 1 + Z.of_nat (length body) <= lastIndex) as Hi'
      by (simpl length in Hi; lia).
    assert ((i =? lastIndex) = false) as -> by lia.
    replace (i + Z.of_nat (length (line :: body)))
      with (i + 1 + Z.of_nat (length body)) by (simpl length; lia).
    assert (isBlank line = isEmpty (strings.TrimSpace line)) as Hb by done.
    simpl List.filter. rewrite Hb.
    destruct (isEmpty (strings.TrimSpace line)).
    + rewrite IH by done. by rewrite <- app_assoc.
    + by rewrite IH.
Qed.

(** X20.  What [UpdateCharacterByName] makes of the section of a
    character.  Let the lines of the text be [pre], then the heading of the
    character, then lines [body] that are not headings.  When the heading
    of another character follows, the lines of [body] that are not blank
    are removed and the new description is not written anywhere.  When
    [body] and one more such line end the text, the new description is
    written twice in place of that line. *)
Theorem rewriteCharacter_section (current : gostring)
    (pre body : list gostring) (hdr : gostring) :
  Forall (fun line => headsCharacter name line = false) pre ->
  headsCharacter name hdr = true ->
  Forall (fun line => isHeading line = false) body ->
  (forall next rest,
     strings.Split current nl = pre ++ hdr :: body ++ next :: rest ->
     isHeading next = true ->
     Forall (fun line => headsCharacter name line = false) (next :: rest) ->
     rewriteCharacter name newDescription current
     = strings.Join (pre ++ hdr :: List.filter isBlank body ++ next :: rest)
                    [nl])
  /\ (forall lastLine,
        strings.Split current nl = pre ++ hdr :: body ++ [lastLine] ->
        isHeading lastLine = false ->
        rewriteCharacter name newDescription current
        = strings.Join (pre ++ hdr :: List.filter isBlank body
                        ++ [newDescription; newDescription]) [nl]).
Proof.
  intros Hpre Hhdr Hbody. split.
  - intros next rest Hsplit Hnext Hrest. unfold rewriteCharacter.
    rewrite Hsplit.
    rewrite rewriteLoop_before, rewriteLoop_heading by done.
    rewrite rewriteLoop_inside;
      [|done|rewrite !length_app; simpl length; rewrite !length_app;
             simpl length; lia].
    rewrite rewriteLoop_next by done.
    simpl app. by rewrite <- !app_assoc.
  - intros lastLine Hsplit Hlast. unfold rewriteCharacter.
    rewrite Hsplit.
    rewrite rewriteLoop_before, rewriteLoop_heading by done.
    rewrite rewriteLoop_inside;
      [|done|rewrite !length_app; simpl length; rewrite !length_app;
             simpl length; lia].
    cbn [rewriteLoop]. unfold isHeading in Hlast. rewrite Hlast. simpl andb.
    cbv iota.
    match goal with
    | |- context [?i =? ?j] => assert ((i =? j) = true) as ->
    end.
    { apply Z.eqb_eq. rewrite !length_app. simpl length.
      rewrite !length_app. simpl length. lia. }
    simpl app. by rewrite <- !app_assoc.
Qed.

End CharacterSections.

(** X20, witness: on the sheet of Ann and Bob, updating Ann removes her
    description and writes nothing; updating Bob writes the description
    twice. *)
Lemma rewriteCharacter_section_witness :
  rewriteCharacter (runes "Ann") (runes "a pilot") twoCharacters
  = runes "# Cast

## Ann

## Bob
a sailor"
  /\ rewriteCharacter (runes "Bob") (runes "a pilot") twoCharacters
     = runes "# Cast

## Ann
old

## Bob
a pilot
a pilot".
Proof.
  assert (Forall (fun line => headsCharacter (runes "Ann") line = false)
                 [runes "# Cast"; []]) as Hpre
    by (repeat constructor).
  assert (headsCharacter (runes "Ann") (runes "## Ann") = true) as Hhdr
    by (vm_compute; reflexivity).
  assert (Forall (fun line => isHeading line = false) [runes "old"; []])
    as Hbody by (repeat constructor).
  pose proof (proj1 (rewriteCharacter_section (runes "Ann") (runes "a pilot")
                       twoCharacters [runes "# Cast"; []]
                       [runes "old"; []] (runes "## Ann") Hpre Hhdr Hbody)
                (runes "## Bob") [runes "a sailor"]) as Hann.
  assert (Forall (fun line => headsCharacter (runes "Bob") line = false)
                 [runes "# Cast"; []; runes "## Ann"; runes "old"; []])
    as Hpre' by (repeat constructor).
  assert (headsCharacter (runes "Bob") (runes "## Bob") = true) as Hhdr'
    by (vm_compute; reflexivity).
  pose proof (proj2 (rewriteCharacter_section (runes "Bob") (runes "a pilot")
                       twoCharacters
                       [runes "# Cast"; []; runes "## Ann"; runes "old"; []]
                       [] (runes "## Bob") Hpre' Hhdr' (Forall_nil_2 _))
                (runes "a sailor")) as Hbob.
  split.
  - rewrite Hann; [vm_compute; reflexivity | vm_compute; reflexivity
                  | vm_compute; reflexivity | repeat constructor].
  - rewrite Hbob; vm_compute; reflexivity.
Defined.

(** ** Appending to the worldview *)

Section Worldview.

Context `{unicode.Tables}.

(** [GetCurrent] reads and caches, and never writes. *)
Lemma GetCurrent_disk (s : St) : disk (snd (GetCurrent s)) = disk s.
Proof.
  destruct s as [[p cur t tc tb] [[[bytes mt]|] dk rd wr ck] tr]; cbn.
  - destruct (t <? mt), cur, rd; by cbn.
  - by destruct cur.
Qed.

(** After a successful [Update] the text written is the current one. *)
Lemma Update_current (text : gostring) (s : St) :
  fst (Update text s) = None ->
  fst (GetCurrent (snd (Update text s))) = text
  /\ file (disk (snd (Update text s)))
     = Some {| data := text; modTime := clock (disk s) |}.
Proof.
  destruct s as [[p cur t tc tb] [fl [] rd [] ck] tr]; cbn; try done.
  intros _. rewrite Z.ltb_irrefl. destruct text, rd; by cbn.
Qed.

(** [AppendToWorldview] on an addition that is not empty, step by step. *)
Lemma AppendToWorldview_steps (additionalContent : gostring) (s : St) :
  additionalContent <> [] ->
  AppendToWorldview additionalContent s
  = let '(cur, s1) := GetCurrent s in
    if isEmpty cur then
      let '(err, s2) := Update additionalContent s1 in (passError err, s2)
    else
      let updated := cur ++ [nl; nl] ++ additionalContent in
      if len updated >? 10000
      then (Some (Errorf (runes "worldview content is too long")), s1)
      else let '(err, s2) := Update updated s1 in (passError err, s2).
Proof.
  intros Hne.
  unfold AppendToWorldview, bind, ValidateWorldview, ValidateContent, ret.
  destruct additionalContent as [|r add]; [done|].
  cbv beta iota zeta delta [isEmpty].
  destruct (GetCurrent s) as [cur s1].
  destruct cur as [|c cur]; [reflexivity|].
  cbv beta iota zeta. destruct (_ >? _); reflexivity.
Qed.

(** X21.  [AppendToWorldview] appends after a blank line.  An empty
    addition does nothing at all.  Otherwise, when the call succeeds, the
    file holds the current worldview, two newlines and the addition (the
    addition alone when there was no worldview), and [GetCurrent] returns
    that text.  A worldview that would grow beyond 10000 bytes is refused
    and nothing is written, but a first addition is never measured. *)
Theorem AppendToWorldview_appends (additionalContent : gostring) (s : St) :
  let cur := fst (GetCurrent s) in
  let updated := if isEmpty cur then additionalContent
                 else cur ++ [nl; nl] ++ additionalContent in
  match AppendToWorldview additionalContent s with
  | (None, s') =>
      if isEmpty additionalContent then s' = s
      else
        file (disk s')
        = Some {| data := updated; modTime := clock (disk s) |}
        /\ fst (GetCurrent s') = updated
        /\ (cur <> [] -> len updated <= 10000)
  | (Some err, s') =>
      additionalContent <> []
      /\ (err = Errorf (runes "worldview content is too long")
          <-> cur <> [] /\ 10000 < len updated)
      /\ (err = Errorf (runes "worldview content is too long") ->
          disk s' = disk s)
  end.
Proof.
  cbv zeta. destruct additionalContent as [|r add]; [done|].
  rewrite AppendToWorldview_steps by done. simpl isEmpty at 3. cbv iota.
  pose proof (GetCurrent_disk s) as Hdisk.
  destruct (GetCurrent s) as [cur s1]. simpl in Hdisk. simpl fst.
  destruct cur as [|c cur]; simpl isEmpty; cbv iota.
  - pose proof (Update_current (r :: add) s1) as Hok.
    destruct (Update (r :: add) s1) as [[err|] s2]; simpl in *.
    + conjs; [done| |done]. split; [done|]. by intros [? _].
    + destruct (Hok eq_refl) as [Hcur Hfile]. rewrite <- Hdisk.
      conjs; done.
  - cbv zeta. set (updated := (c :: cur) ++ [nl; nl] ++ r :: add).
    destruct (Z.gtb_spec (len updated) 10000) as [Hlong|Hfits].
    + conjs; [done| |done]. split; [|done]. intros _. split; [done|lia].
    + pose proof (Update_current updated s1) as Hok.
      destruct (Update updated s1) as [[err|] s2]; simpl in *.
      * conjs; [done| |done]. split; [done|]. intros [_ ?]. lia.
      * destruct (Hok eq_refl) as [Hcur Hfile]. rewrite <- Hdisk.
        conjs; done.
Qed.

End Worldview.

(** ** The plans *)

Section Plans.

Context `{unicode.Tables}.

Lemma eqString_true (a b : gostring) : eqString a b = true <-> a = b.
Proof. unfold eqString. apply bool_decide_eq_true. Qed.

Lemma eqString_refl (a : gostring) : eqString a a = true.
Proof. by apply eqString_true. Qed.

(** After the loop of [UpsertPlan] and the append that follows it, the
    first entry of the chapter is the one given; it is marked finished as
    asked only when the chapter had an entry. *)
Lemma upsertLoop_found (chapter plan content : gostring) (finished : bool)
    (plans : list planner.PlanEntry) :
  let '(plans', found) :=
    planner.upsertLoop chapter plan content finished plans in
  found = bool_decide (is_Some (planner.findPlan chapter plans))
  /\ exists entry,
       planner.findPlan chapter
         (if found then plans'
          else plans' ++ [{| planner.Chapter := chapter;
                             planner.Plan := plan;
                             planner.Content := content;
                             planner.Finished := false |}])
       = Some entry
       /\ planner.Chapter entry = chapter /\ planner.Plan entry = plan
       /\ planner.Content entry = content
       /\ planner.Finished entry = (if found then finished else false).
Proof.
  induction plans as [|e plans IH]; simpl.
  - split; [done|]. rewrite eqString_refl. by eexists.
  - destruct (eqString (planner.Chapter e) chapter) eqn:He.
    + split; [done|]. simpl. rewrite He. eexists. conjs; try done.
      by apply eqString_true.
    + destruct (planner.upsertLoop chapter plan content finished plans)
        as [plans' found].
      destruct IH as [Hfound (entry & Hentry & Hrest)].
      split; [done|]. exists entry. split; [|done].
      destruct found; simpl; by rewrite He.
Qed.

(** Once the manager has looked at its file, it keeps the record it holds:
    a later [Load] does not replace it, also after a save, whether the
    save succeeded or not. *)
Lemma Load_settles (unmarshal : planner.Unmarshal) (now : gostring)
    (state : planner.PlannerState) (s : St) :
  let s1 := snd (planner.Load unmarshal now state s) in
  (forall unmarshal' now' state',
     fst (planner.Load unmarshal' now' state' s1) = state')
  /\ (forall data unmarshal' now' state',
        fst (planner.Load unmarshal' now' state'
                          (snd (managers.Save data s1))) = state').
Proof.
  destruct s as [[p cur t tc tb] [[[bytes mt]|] dk rd wr ck] tr].
  - cbn -[strings.TrimSpace]. destruct (Z.ltb_spec t mt) as [Hlt|Hge].
    + destruct rd; cbn -[strings.TrimSpace].
      * destruct (strings.TrimSpace bytes) as [|c bs];
          cbn -[strings.TrimSpace];
          [|destruct (unmarshal (c :: bs))]; cbn;
          rewrite ?Z.ltb_irrefl; (split; [done|]);
          intros data u' n' st'; destruct dk, wr; cbn;
          rewrite ?Z.ltb_irrefl; done.
      * assert ((t <? mt) = true) as Hlt' by lia. split.
        -- intros u' n' st'. cbn. by rewrite Hlt'.
        -- intros data u' n' st'. destruct dk, wr; cbn;
             rewrite ?Z.ltb_irrefl, ?Hlt'; done.
    + assert ((t <? mt) = false) as Hge' by lia. cbn. split.
      * intros u' n' st'. cbn. by rewrite Hge'.
      * intros data u' n' st'. destruct dk, wr; cbn;
          rewrite ?Z.ltb_irrefl, ?Hge'; done.
  - cbn. split; [done|].
    intros data u' n' st'. destruct dk, wr; cbn; rewrite ?Z.ltb_irrefl; done.
Qed.

(** [UpsertPlan] on a chapter name that is not empty, step by step. *)
Lemma UpsertPlan_steps (unmarshal : planner.Unmarshal)
    (marshal : planner.Marshal) (now : gostring)
    (chapter plan content : gostring) (finished : bool)
    (state : planner.PlannerState) (s : St) :
  chapter <> [] ->
  planner.UpsertPlan unmarshal marshal now chapter plan content finished
                     state s
  = let '(loaded, s1) := planner.Load unmarshal now state s in
    let '(plans, found) :=
      planner.upsertLoop chapter plan content finished
                         (planner.Plans loaded) in
    planner.Save marshal now
      (planner.setPlans loaded
         (if found then plans
          else plans ++ [{| planner.Chapter := chapter;
                            planner.Plan := plan;
                            planner.Content := content;
                            planner.Finished := false |}])) s1.
Proof.
  intros Hne. unfold planner.UpsertPlan, bind.
  destruct chapter as [|c chapter]; [done|].
  cbv beta iota zeta delta [isEmpty].
  destruct (planner.Load unmarshal now state s) as [loaded s1].
  by destruct (planner.upsertLoop _ _ _ _ _).
Qed.

(** X22.  An upserted plan is the one found afterwards.  For a chapter
    name that is not empty, after [UpsertPlan] the entry [GetPlanEntry]
    returns for the chapter carries the plan and the content given.  It is
    marked finished as asked when the chapter already had an entry; a new
    entry is always stored unfinished.  This holds whether the save
    succeeded or not: the record in memory is changed before it is
    saved. *)
Theorem UpsertPlan_then_GetPlanEntry (unmarshal : planner.Unmarshal)
    (marshal : planner.Marshal) (now now' : gostring)
    (chapter plan content : gostring) (finished : bool)
    (state : planner.PlannerState) (s : St) :
  chapter <> [] ->
  let loaded := fst (planner.Load unmarshal now state s) in
  let r := planner.UpsertPlan unmarshal marshal now chapter plan content
                              finished state s in
  exists entry,
    fst (fst (planner.GetPlanEntry unmarshal now' chapter (snd (fst r))
                                   (snd r))) = Some entry
    /\ planner.Chapter entry = chapter
    /\ planner.Plan entry = plan
    /\ planner.Content entry = content
    /\ planner.Finished entry
       = match planner.findPlan chapter (planner.Plans loaded) with
         | Some _ => finished
         | None => false
         end.
Proof.
  intros Hne. cbv zeta. rewrite UpsertPlan_steps by done.
  destruct (Load_settles unmarshal now state s) as [Hquiet Hsaved].
  destruct (planner.Load unmarshal now state s) as [loaded s1].
  simpl in Hquiet, Hsaved. simpl fst.
  pose proof (upsertLoop_found chapter plan content finished
                (planner.Plans loaded)) as Hloop.
  destruct (planner.upsertLoop chapter plan content finished
              (planner.Plans loaded)) as [plans' found].
  destruct Hloop as [Hfound (entry & Hentry & Hc & Hp & Hct & Hf)].
  exists entry.
  assert (planner.Finished entry
          = match planner.findPlan chapter (planner.Plans loaded) with
            | Some _ => finished
            | None => false
            end) as Hfin.
  { rewrite Hf, Hfound.
    destruct (planner.findPlan chapter (planner.Plans loaded));
      [by rewrite bool_decide_eq_true_2
      |rewrite bool_decide_eq_false_2; [done|by intros [? ?]]]. }
  conjs; try done.
  unfold planner.Save, planner.GetPlanEntry, bind. cbv beta iota zeta.
  match goal with
  | |- context [marshal ?ps] => destruct (marshal ps) as [data|]
  end.
  - specialize (Hsaved data unmarshal now').
    destruct (managers.Save data s1) as [err s2]. simpl in *.
    match goal with
    | |- context [planner.Load unmarshal now' ?st s2] =>
        specialize (Hsaved st);
          destruct (planner.Load unmarshal now' st s2) as [st' s3]
    end.
    simpl in *. subst st'. simpl. exact Hentry.
  - simpl.
    match goal with
    | |- context [planner.Load unmarshal now' ?st ?s0] =>
        specialize (Hquiet unmarshal now' st);
          destruct (planner.Load unmarshal now' st s0) as [st' s3]
    end.
    simpl in *. subst st'. simpl. exact Hentry.
Qed.

End Plans.

(** X22, witness: a plan for a new chapter, asked to be stored as finished
    on a directory where nothing can be written, is found afterwards, and
    is not finished. *)
Lemma UpsertPlan_then_GetPlanEntry_witness :
  fst (fst (planner.UpsertPlan (fun _ => None) (fun _ => Some (runes "{}"))
              (runes "t1") (runes "ch3") (runes "return") [] true twoPlans
              (freshOn (readOnly absent))))
  = Some (ContentError (FileWriteError "novel/file"))
  /\ exists entry,
       fst (fst (planner.GetPlanEntry (fun _ => None) (runes "t2")
                   (runes "ch3")
                   (snd (fst (planner.UpsertPlan (fun _ => None)
                                (fun _ => Some (runes "{}")) (runes "t1")
                                (runes "ch3") (runes "return") [] true
                                twoPlans (freshOn (readOnly absent)))))
                   (snd (planner.UpsertPlan (fun _ => None)
                           (fun _ => Some (runes "{}")) (runes "t1")
                           (runes "ch3") (runes "return") [] true twoPlans
                           (freshOn (readOnly absent))))))
       = Some entry
       /\ planner.Chapter entry = runes "ch3"
       /\ planner.Plan entry = runes "return"
       /\ planner.Content entry = []
       /\ planner.Finished entry = false.
Proof.
  split; [vm_compute; reflexivity|].
  assert (runes "ch3" <> []) as Hne by (vm_compute; discriminate).
  exact (UpsertPlan_then_GetPlanEntry (fun _ => None)
           (fun _ => Some (runes "{}")) (runes "t1") (runes "t2")
           (runes "ch3") (runes "return") [] true twoPlans
           (freshOn (readOnly absent)) Hne).
Defined.

Section PlanChapters.

Context `{unicode.Tables}.

Lemma eqString_false (a b : gostring) : eqString a b = false <-> a <> b.
Proof. unfold eqString. apply bool_decide_eq_false. Qed.

Lemma findPlan_None (chapter : gostring) (plans : list planner.PlanEntry) :
  planner.findPlan chapter plans = None
  <-> chapter ∉ map planner.Chapter plans.
Proof.
  induction plans as [|e plans IH]; simpl.
  - split; [intros _; apply not_elem_of_nil|done].
  - rewrite not_elem_of_cons.
    destruct (eqString (planner.Chapter e) chapter) eqn:He.
    + apply eqString_true in He. split; [done|]. by intros [? _].
    + apply eqString_false in He. rewrite IH. split; [|by intros [_ ?]].
      intros Hn. split; [by intros ->|done].
Qed.

Lemma upsertLoop_chapters (chapter plan content : gostring) (finished : bool)
    (plans : list planner.PlanEntry) :
  map planner.Chapter
      (fst (planner.upsertLoop chapter plan content finished plans))
  = map planner.Chapter plans.
Proof.
  induction plans as [|e plans IH]; [done|]. simpl.
  destruct (eqString (planner.Chapter e) chapter); [done|].
  destruct (planner.upsertLoop chapter plan content finished plans).
  simpl in *. by rewrite IH.
Qed.

Lemma deleteFirst_chapters (chapter : gostring)
    (plans plans' : list planner.PlanEntry) (x : gostring) :
  planner.deleteFirst chapter plans = Some plans' ->
  x ∈ map planner.Chapter plans' -> x ∈ map planner.Chapter plans.
Proof.
  revert plans'; induction plans as [|e plans IH]; intros plans'; [done|].
  simpl. destruct (eqString (planner.Chapter e) chapter).
  - intros [= <-] Hx. apply elem_of_cons. by right.
  - destruct (planner.deleteFirst chapter plans) as [rest|]; [|done].
    simpl. intros [= <-]. simpl. rewrite !elem_of_cons.
    intros [->|Hx]; [by left|right]. by apply (IH rest).
Qed.

(** Deleting removes the first entry of the chapter, which is the only one
    when the chapters are distinct. *)
Lemma deleteFirst_spec (chapter : gostring) (plans : list planner.PlanEntry) :
  match planner.deleteFirst chapter plans with
  | Some plans' =>
      NoDup (map planner.Chapter plans) ->
      NoDup (map planner.Chapter plans')
      /\ planner.findPlan chapter plans' = None
  | None => planner.findPlan chapter plans = None
  end.
Proof.
  induction plans as [|e plans IH]; [done|]. simpl.
  destruct (eqString (planner.Chapter e) chapter) eqn:He.
  - apply eqString_true in He. intros Hnd. apply NoDup_cons in Hnd as [Hn Hnd].
    split; [done|]. apply findPlan_None. by rewrite <- He.
  - destruct (planner.deleteFirst chapter plans) as [plans'|] eqn:Hdel; simpl.
    + intros Hnd. apply NoDup_cons in Hnd as [Hn Hnd].
      destruct (IH Hnd) as [Hnd' Hfind]. split; [|simpl; by rewrite He].
      apply NoDup_cons. split; [|done].
      intros Hin. apply Hn. by eapply deleteFirst_chapters.
    + done.
Qed.

Lemma deleteFirst_None (chapter : gostring)
    (plans : list planner.PlanEntry) :
  planner.deleteFirst chapter plans = None
  <-> planner.findPlan chapter plans = None.
Proof.
  induction plans as [|e plans IH]; [done|]. simpl.
  destruct (eqString (planner.Chapter e) chapter); [done|].
  rewrite <- IH. by destruct (planner.deleteFirst chapter plans).
Qed.

(** [DeletePlan], step by step. *)
Lemma DeletePlan_steps (unmarshal : planner.Unmarshal)
    (marshal : planner.Marshal) (now : gostring) (chapter : gostring)
    (state : planner.PlannerState) (s : St) :
  planner.DeletePlan unmarshal marshal now chapter state s
  = let '(loaded, s1) := planner.Load unmarshal now state s in
    match planner.deleteFirst chapter (planner.Plans loaded) with
    | Some plans =>
        planner.Save marshal now (planner.setPlans loaded plans) s1
    | None => (None, loaded, s1)
    end.
Proof.
  unfold planner.DeletePlan, bind.
  destruct (planner.Load unmarshal now state s) as [loaded s1].
  by destruct (planner.deleteFirst _ _).
Qed.

(** [planner.Load] reads and caches, and never writes. *)
Lemma planner_Load_disk (unmarshal : planner.Unmarshal) (now : gostring)
    (state : planner.PlannerState) (s : St) :
  disk (snd (planner.Load unmarshal now state s)) = disk s.
Proof.
  destruct s as [[p cur t tc tb] [[[bytes mt]|] dk rd wr ck] tr];
    cbn -[strings.TrimSpace]; [|done].
  destruct (t <? mt); [|done]. destruct rd; cbn -[strings.TrimSpace]; [|done].
  destruct (strings.TrimSpace bytes) as [|c bs]; cbn; [done|].
  by destruct (unmarshal (c :: bs)).
Qed.

(** X23.  The chapters of the plans stay distinct.  When the plans the
    manager holds once it has looked at its file have distinct chapters,
    they still have after [UpsertPlan] of a chapter name that is not empty
    and after [DeletePlan].  After [DeletePlan] the chapter has no plan
    left; and when it had none, [DeletePlan] returns no error and writes
    nothing. *)
Theorem plans_stay_distinct (unmarshal : planner.Unmarshal)
    (marshal : planner.Marshal) (now now' : gostring)
    (chapter plan content : gostring) (finished : bool)
    (state : planner.PlannerState) (s : St) :
  NoDup (map planner.Chapter
             (planner.Plans (fst (planner.Load unmarshal now state s)))) ->
  let upserted := planner.UpsertPlan unmarshal marshal now chapter plan
                                     content finished state s in
  let deleted := planner.DeletePlan unmarshal marshal now chapter state s in
  (chapter <> [] ->
   NoDup (map planner.Chapter (planner.Plans (snd (fst upserted)))))
  /\ NoDup (map planner.Chapter (planner.Plans (snd (fst deleted))))
  /\ fst (fst (planner.GetPlan unmarshal now' chapter (snd (fst deleted))
                               (snd deleted))) = ([], false)
  /\ (planner.findPlan chapter
         (planner.Plans (fst (planner.Load unmarshal now state s))) = None ->
      fst (fst deleted) = None /\ disk (snd deleted) = disk s).
Proof.
  intros Hnd. cbv zeta.
  rewrite DeletePlan_steps.
  pose proof (planner_Load_disk unmarshal now state s) as Hdisk.
  destruct (Load_settles unmarshal now state s) as [Hquiet Hsaved].
  split.
  { intros Hne. rewrite UpsertPlan_steps by done.
    destruct (planner.Load unmarshal now state s) as [loaded s1].
    simpl in Hnd.
    pose proof (upsertLoop_chapters chapter plan content finished
                  (planner.Plans loaded)) as Hch.
    pose proof (upsertLoop_found chapter plan content finished
                  (planner.Plans loaded)) as Hloop.
    destruct (planner.upsertLoop chapter plan content finished
                (planner.Plans loaded)) as [plans' found].
    destruct Hloop as [Hfound _]. simpl in Hch.
    assert (NoDup (map planner.Chapter
                     (if found then plans'
                      else plans' ++ [{| planner.Chapter := chapter;
                                         planner.Plan := plan;
                                         planner.Content := content;
                                         planner.Finished := false |}])))
      as Hnew.
    { destruct found; [by rewrite Hch|].
      rewrite map_app, Hch. simpl. apply NoDup_app. conjs; [done| |].
      - intros x Hx Hin. apply list_elem_of_singleton in Hin as ->.
        symmetry in Hfound. apply bool_decide_eq_false in Hfound.
        destruct (planner.findPlan chapter (planner.Plans loaded))
          eqn:Hf; [by destruct Hfound|].
        by apply findPlan_None in Hf.
      - apply NoDup_singleton. }
    unfold planner.Save, bind.
    match goal with
    | |- context [marshal ?ps] => destruct (marshal ps) as [data|]
    end; [destruct (managers.Save data s1)|]; exact Hnew. }
  destruct (planner.Load unmarshal now state s) as [loaded s1].
  simpl in *.
  pose proof (deleteFirst_spec chapter (planner.Plans loaded)) as Hdel.
  pose proof (deleteFirst_None chapter (planner.Plans loaded)) as Hnone.
  destruct (planner.deleteFirst chapter (planner.Plans loaded))
    as [plans'|].
  - destruct (Hdel Hnd) as [Hnd' Hgone].
    unfold planner.Save, planner.GetPlan, bind.
    match goal with
    | |- context [marshal ?ps] => destruct (marshal ps) as [data|]
    end.
    + specialize (Hsaved data unmarshal now').
      destruct (managers.Save data s1) as [err s2]. simpl in *.
      match goal with
      | |- context [planner.Load unmarshal now' ?st s2] =>
          specialize (Hsaved st);
            destruct (planner.Load unmarshal now' st s2) as [st' s3]
      end.
      simpl in *. subst st'. simpl. rewrite Hgone.
      conjs; [done|done|]. intros Hf. by apply Hnone in Hf.
    + simpl.
      match goal with
      | |- context [planner.Load unmarshal now' ?st ?s0] =>
          specialize (Hquiet unmarshal now' st);
            destruct (planner.Load unmarshal now' st s0) as [st' s3]
      end.
      simpl in *. subst st'. simpl. rewrite Hgone.
      conjs; [done|done|]. intros Hf. by apply Hnone in Hf.
  - unfold planner.GetPlan, bind. simpl.
    specialize (Hquiet unmarshal now' loaded).
    destruct (planner.Load unmarshal now' loaded s1) as [st' s3].
    simpl in *. subst st'. rewrite Hdel. conjs; done.
Qed.

End PlanChapters.

(** X23, witness: deleting the plan of the first of two chapters. *)
Lemma plans_stay_distinct_witness :
  fst (fst (planner.GetPlan (fun _ => None) (runes "t2") (runes "ch1")
              (snd (fst (planner.DeletePlan (fun _ => None)
                           (fun _ => Some (runes "{}")) (runes "t1")
                           (runes "ch1") twoPlans (freshOn absent))))
              (snd (planner.DeletePlan (fun _ => None)
                      (fun _ => Some (runes "{}")) (runes "t1")
                      (runes "ch1") twoPlans (freshOn absent)))))
  = ([], false).
Proof.
  assert (NoDup (map planner.Chapter
                     (planner.Plans
                        (fst (planner.Load (fun _ => None) (runes "t1")
                                           twoPlans (freshOn absent))))))
    as Hdistinct.
  { apply (NoDup_cons_2 (runes "ch1")); [|apply NoDup_singleton].
    intros Hin. apply list_elem_of_singleton in Hin. vm_compute in Hin.
    discriminate Hin. }
  exact (proj1 (proj2 (proj2 (plans_stay_distinct (fun _ => None)
           (fun _ => Some (runes "{}")) (runes "t1") (runes "t2")
           (runes "ch1") (runes "leave") [] false twoPlans
           (freshOn absent) Hdistinct)))).
Defined.

(** ** Rebuilding a manager *)

Section Rebuilding.

Context `{unicode.Tables}.

(** X24.  Updating the percentages of a manager is building it anew.  On
    every manager that [NewTokenBudgetManager] built, [UpdatePercentages]
    returns the error [NewTokenBudgetManager] returns for the same total
    and the new percentages, and leaves the manager as it is; or it returns
    no error and leaves exactly the manager [NewTokenBudgetManager]
    builds. *)
Theorem UpdatePercentages_rebuilds (tbm : TokenBudgetManager)
    (newPercentages : TokenPercentages) :
  built tbm ->
  match NewTokenBudgetManager (maxTokens tbm) (Some newPercentages) with
  | inl err => UpdatePercentages tbm newPercentages = (Some err, tbm)
  | inr tbm' => UpdatePercentages tbm newPercentages = (None, tbm')
  end.
Proof.
  intros Hb. destruct (built_inv tbm Hb) as (Hpos & _ & _ & Hcounter).
  unfold NewTokenBudgetManager, UpdatePercentages. simpl default.
  assert ((maxTokens tbm <=? 0) = false) as -> by lia.
  destruct (Validate newPercentages); [done|]. by rewrite Hcounter.
Qed.

End Rebuilding.

(** ** Counting what is stored *)

Section StoredCount.

Context `{unicode.Tables}.

Import strings.

Lemma Fields_trimLeft (s : gostring) : Fields (trimLeft s) = Fields s.
Proof.
  induction s as [|r s IH]; [done|]. simpl.
  destruct (unicode.IsSpace r) eqn:Hr; [|done].
  rewrite IH. unfold Fields. simpl. by rewrite Hr.
Qed.

Lemma Fields_spaces (spaces : gostring) :
  forallb unicode.IsSpace spaces = true -> Fields spaces = [].
Proof.
  induction spaces as [|r spaces IH]; [done|]. simpl.
  intros Hs. apply andb_prop in Hs as [Hr Hs].
  unfold Fields. simpl. rewrite Hr. simpl. by apply IH.
Qed.

Lemma Fields_trailing (v spaces : gostring) :
  forallb unicode.IsSpace spaces = true -> Fields (v ++ spaces) = Fields v.
Proof.
  destruct spaces as [|r spaces]; [by rewrite app_nil_r|]. simpl.
  intros Hs. apply andb_prop in Hs as [Hr Hs].
  unfold Fields at 1. rewrite fieldsFrom_sep by done.
  rewrite (Fields_spaces spaces) by done. by rewrite app_nil_r.
Qed.

Lemma forallb_rev {A} (p : A -> bool) (l : list A) :
  forallb p (rev l) = forallb p l.
Proof.
  induction l as [|x l IH]; [done|]. simpl.
  rewrite forallb_app, IH. simpl. rewrite andb_true_r. apply andb_comm.
Qed.

(** The words of a text are those of the trimmed text. *)
Lemma Fields_TrimSpace (s : gostring) : Fields (TrimSpace s) = Fields s.
Proof.
  unfold TrimSpace. rewrite <- (Fields_trimLeft s).
  destruct (trimLeft_split (rev (trimLeft s))) as (spaces & Hrev & Hsp).
  set (v := trimLeft (rev (trimLeft s))) in *.
  assert (trimLeft s = rev v ++ rev spaces) as ->.
  { rewrite <- rev_app_distr, <- Hrev. by rewrite rev_involutive. }
  rewrite Fields_trailing; [done|]. by rewrite forallb_rev.
Qed.

(** X25.  Trimming does not change the estimate, so the count of a stored
    text is the count of the file as it is: [GetTokenCount] of a manager
    that has nothing cached is the estimate of the content of its readable
    file, and 0 when the file is missing or cannot be read. *)
Theorem GetTokenCount_counts_file (filePath : string) (d : Storage) :
  fst (run GetTokenCount (NewBaseFileManager filePath) d)
  = match file d with
    | Some f =>
        if readable d then SimpleCount NewSimpleTokenCounter (data f) else 0
    | None => 0
    end.
Proof.
  destruct d as [[[bytes mt]|] dk rd wr ck]; cbn -[TrimSpace SimpleCount];
    [|done].
  destruct rd; cbn -[TrimSpace SimpleCount]; [|done].
  by rewrite !SimpleCount_words, Fields_TrimSpace.
Qed.

End StoredCount.

(** ** The code-point fallback on any counter *)

Section FallbackFits.

Variable c : TokenCounter.
Variable limit : Z.
Variable line : gostring.

Lemma searchLoop_fits (fuel : nat) (left right bestEnd : Z) :
  0 <= left ->
  right <= Z.of_nat (length line) ->
  (bestEnd = 0 \/ (0 < bestEnd <= Z.of_nat (length line)
                   /\ prefixEstimate c line bestEnd <= limit)) ->
  let best := searchLoop fuel c limit line left right bestEnd in
  best = 0 \/ (0 < best <= Z.of_nat (length line)
               /\ prefixEstimate c line best <= limit).
Proof.
  revert left right bestEnd.
  induction fuel as [|fuel IH]; intros left right bestEnd Hl Hr Hb; simpl.
  - by destruct (left <=? right).
  - destruct (Z.leb_spec left right) as [Hle|Hgt]; [|done].
    assert (left <= Z.quot (left + right) 2 <= right) as Hmid.
    { rewrite Z.quot_div_nonneg by lia.
      pose proof (Z.div_mod (left + right) 2 ltac:(lia)).
      pose proof (Z.mod_pos_bound (left + right) 2 ltac:(lia)). lia. }
    set (mid := Z.quot (left + right) 2) in *.
    destruct (Z.eqb_spec mid 0) as [Hz|Hnz]; [apply IH; lia || done|].
    fold (prefixEstimate c line mid).
    destruct (Z.leb_spec (prefixEstimate c line mid) limit) as [Hok|Hno].
    + apply IH; [lia|lia|]. right. split; [lia|done].
    + apply IH; [lia|lia|done].
Qed.

(** X26.  The code-point fallback never overflows, whatever the counter:
    [truncateLineByCharacters] returns a prefix of the line, which is empty
    or estimated within the limit. *)
Theorem truncateLineByCharacters_fits :
  truncateLineByCharacters c line limit `prefix_of` line
  /\ (truncateLineByCharacters c line limit = []
      \/ Count c (truncateLineByCharacters c line limit) <= limit).
Proof.
  unfold truncateLineByCharacters.
  destruct (limit <=? 0).
  { split; [apply prefix_nil|by left]. }
  pose proof (searchLoop_fits (S (length line)) 0 (Z.of_nat (length line)) 0
                ltac:(lia) ltac:(lia) (or_introl eq_refl)) as Hfit.
  cbv zeta in Hfit.
  set (best := searchLoop (S (length line)) c limit line 0
                          (Z.of_nat (length line)) 0) in *.
  destruct (Z.eqb_spec best 0) as [Hz|Hnz].
  - split; [apply prefix_nil|by left].
  - split; [apply prefix_take|].
    destruct Hfit as [?|[_ Hfit]]; [done|]. by right.
Qed.

End FallbackFits.

(** X24, witness: turning the default percentages into halves. *)
Lemma UpdatePercentages_rebuilds_witness :
  UpdatePercentages (managerOf 1000 DefaultTokenPercentages) halves
  = (None, managerOf 1000 halves).
Proof.
  assert (built (managerOf 1000 DefaultTokenPercentages)) as Hbuilt
    by (by apply (built_new 1000 None)).
  exact (UpdatePercentages_rebuilds _ halves Hbuilt).
Defined.

(** ** Binary64 against the exact reading *)

(** On every count below 4096 the two products of [Count] and the quotient
    of [EstimateTokens] truncate to the same integer in binary64 and in
    exact arithmetic, and on every word of up to 128 code points the two
    shares are classed alike. *)
Lemma Binary64_agrees_on_counts :
  forallb (fun n =>
             (Binary64.scaled n 1.5 =? Qtrunc (inject_Z n * (15 # 10)))
             && (Binary64.scaled n 0.75 =? Qtrunc (inject_Z n * (75 # 100)))
             && (Binary64.divided n 1.2 =? Qtrunc (inject_Z n / (12 # 10))))
          (map Z.of_nat (seq 0 4096)) = true
  /\ forallb (fun total =>
                forallb (fun count =>
                           Bool.eqb (Binary64.shareAbove count total 0.5)
                                    (Qgtb (inject_Z count / inject_Z total)
                                          (5 # 10))
                           && Bool.eqb (Binary64.shareAbove count total 0.7)
                                       (Qgtb (inject_Z count / inject_Z total)
                                             (7 # 10)))
                        (map Z.of_nat (seq 0 (S (Z.to_nat total)))))
             (map Z.of_nat (seq 1 128)) = true.
Proof. split; vm_compute; reflexivity. Qed.
